(** * Temporary-directory lifecycle of claudecode: a shallow embedding

    The development follows four source files:
    - [claudecode/windows_cleanup.py]: [WindowsFileSystemCleaner], the
      three-strategy removal engine, and [safe_windows_rmtree];
    - [claudecode/platform_utils.py]: [PlatformAdapter.safe_rmtree] and
      [PlatformAdapter.create_safe_tempdir], and the detection and
      execution of the Claude CLI command;
    - [claudecode/safe_temp.py]: [safe_temp_directory],
      [SafeTemporaryDirectory] and [SafeTempDir];
    - [claudecode/windows_patches.py]: the patch manager [WindowsPatches].

    Python code that mutates the filesystem is written in a state-and-
    exception monad over an explicit [world]; the Python standard library
    functions the code calls ([os.remove], [os.rmdir], [os.listdir],
    [os.chmod], [shutil.rmtree], [os.walk], [time.sleep]) are modelled in
    modules [OS] and [Shutil] after their CPython definitions. *)

From Stdlib Require Import String List Arith Bool Lia PeanoNat DecimalString.
Import ListNotations.
Local Open Scope list_scope.

Set Implicit Arguments.

(** ** Paths

    A path is the list of its components; [os.path.join path entry] appends
    one component. *)

Definition path := list string.

Definition os_path_join (p : path) (entry : string) : path := p ++ [entry].

Definition path_eq_dec : forall p q : path, {p = q} + {p <> q} :=
  list_eq_dec string_dec.

(** The text of a path inside a message (an f-string's [{path}]). *)
Definition path_str (p : path) : string := String.concat "/" p.

(** ** Exceptions

    Only classes derived from [Exception] are modelled, so that
    [except Exception] and a bare [except] catch every [exn]. *)

Inductive exc_class : Type :=
| PermissionError
| FileNotFoundError
| NotADirectoryError
| IsADirectoryError
| FileExistsError
| OSError
| RecursionError
| RuntimeError
| ValueError
| WindowsCleanupError.

(** An exception object: its class, [str(e)], and [__cause__] (set by
    [raise ... from ...]). *)
#[local] Unset Elimination Schemes.
Inductive exn : Type :=
| Exn (cls : exc_class) (msg : string) (cause : option exn).
#[local] Set Elimination Schemes.

Definition exn_class (e : exn) : exc_class := let 'Exn c _ _ := e in c.
Definition exn_str (e : exn) : string := let 'Exn _ m _ := e in m.
Definition exn_cause (e : exn) : option exn := let 'Exn _ _ c := e in c.

(** [isinstance(e, OSError)]: the class itself and its subclasses. *)
Definition is_OSError (e : exn) : bool :=
  match exn_class e with
  | PermissionError | FileNotFoundError | NotADirectoryError
  | IsADirectoryError | FileExistsError | OSError => true
  | _ => false
  end.

Definition is_PermissionError (e : exn) : bool :=
  match exn_class e with PermissionError => true | _ => false end.

Definition is_FileNotFoundError (e : exn) : bool :=
  match exn_class e with FileNotFoundError => true | _ => false end.

(** ** The monad: state that survives a raised exception *)

Inductive result (A : Type) : Type :=
| Ok (a : A)
| Raise (e : exn).

Arguments Ok {A} a.
Arguments Raise {A} e.

Definition M (S A : Type) : Type := S -> result A * S.

Definition ret {S A} (a : A) : M S A := fun s => (Ok a, s).

Definition raise {S A} (e : exn) : M S A := fun s => (Raise e, s).

Definition bind {S A B} (m : M S A) (k : A -> M S B) : M S B :=
  fun s =>
    match m s with
    | (Ok a, s') => k a s'
    | (Raise e, s') => (Raise e, s')
    end.

(** [try: m  except Exception as e: h e] *)
Definition try_except {S A} (m : M S A) (h : exn -> M S A) : M S A :=
  fun s =>
    match m s with
    | (Ok a, s') => (Ok a, s')
    | (Raise e, s') => h e s'
    end.

(** [try: m  finally: f].  An exception of [f] replaces the outcome of [m]. *)
Definition try_finally {S A} (m : M S A) (f : M S unit) : M S A :=
  fun s =>
    let '(r, s') := m s in
    match f s' with
    | (Ok _, s'') => (r, s'')
    | (Raise e, s'') => (Raise e, s'')
    end.

Declare Scope py_scope.
Delimit Scope py_scope with py.
Notation "x <- m ;; k" := (bind m (fun x => k))
  (at level 61, m at next level, right associativity) : py_scope.
Notation "m ;; k" := (bind m (fun _ => k))
  (at level 61, right associativity) : py_scope.
Local Open Scope py_scope.

(** [for x in xs: body x] *)
Fixpoint for_each {S A} (xs : list A) (body : A -> M S unit) : M S unit :=
  match xs with
  | [] => ret tt
  | x :: xs' => body x ;; for_each xs' body
  end.

(** A loop body either falls through to the next iteration or executes
    [return]. *)
Inductive ctl : Type := Continue | Return.

(** [for attempt in range(...): body attempt], where the body may
    [return] from the enclosing function. *)
Fixpoint for_attempts {S} (attempts : list nat) (body : nat -> M S ctl)
  : M S unit :=
  match attempts with
  | [] => ret tt
  | a :: rest =>
      c <- body a ;;
      match c with
      | Return => ret tt
      | Continue => for_attempts rest body
      end
  end.

(** ** The world: a filesystem, the trace of system calls, and faults *)

(** A directory holds the names it may list; a name is listed when its
    path currently exists. *)
Inductive entry : Type :=
| EFile
| EDir (names : list string).

Inductive event : Type :=
| Chmod (p : path)
| Remove (p : path)
| Rmdir (p : path)
| Listdir (p : path)
| Scandir (p : path)
| Mkdtemp (p : path)
| Sleep (ms : nat).

Definition event_eq_dec : forall a b : event, {a = b} + {a <> b}.
Proof.
  decide equality; try apply path_eq_dec; apply Nat.eq_dec.
Defined.

(** [faults ev k] is the exception the operating system raises at the
    [k]-th attempt (from 0) of the call [ev], if any: a locked file, a
    denied permission, an I/O error.  [rlimit] is the interpreter's
    recursion limit, which bounds the recursion of library code. *)
Record world : Type := mkWorld {
  files : path -> option entry;
  trace : list event;
  faults : event -> nat -> option exn;
  rlimit : nat
}.

Definition set_files (w : world) (f : path -> option entry) : world :=
  mkWorld f (trace w) (faults w) (rlimit w).

Definition record_event (ev : event) (w : world) : world :=
  mkWorld (files w) (trace w ++ [ev]) (faults w) (rlimit w).

Definition attempts_so_far (w : world) (ev : event) : nat :=
  count_occ event_eq_dec (trace w) ev.

Definition unlink_entry (f : path -> option entry) (p : path)
  : path -> option entry :=
  fun q => if path_eq_dec q p then None else f q.

(** A new entry [name] in the directory [parent]. *)
Definition add_entry (f : path -> option entry) (parent : path)
  (name : string) (e : entry) : path -> option entry :=
  fun q =>
    if path_eq_dec q (os_path_join parent name) then Some e
    else if path_eq_dec q parent then
      match f parent with
      | Some (EDir names) => Some (EDir (name :: names))
      | other => other
      end
    else f q.

Definition exists_in (f : path -> option entry) (p : path) : bool :=
  match f p with Some _ => true | None => false end.

Definition listing (f : path -> option entry) (p : path)
  (names : list string) : list string :=
  filter (fun n => exists_in f (os_path_join p n)) names.

Module OS.

Definition ENOENT (p : path) : exn :=
  Exn FileNotFoundError
    ("[Errno 2] No such file or directory: " ++ path_str p) None.
Definition ENOTDIR (p : path) : exn :=
  Exn NotADirectoryError ("[Errno 20] Not a directory: " ++ path_str p) None.
Definition EISDIR (p : path) : exn :=
  Exn IsADirectoryError ("[Errno 21] Is a directory: " ++ path_str p) None.
Definition ENOTEMPTY (p : path) : exn :=
  Exn OSError ("[Errno 39] Directory not empty: " ++ path_str p) None.

(** A system call: the attempt is recorded, an injected fault is raised,
    otherwise the call acts on the filesystem. *)
Definition syscall {A} (ev : event)
  (act : (path -> option entry) -> result A * (path -> option entry))
  : M world A :=
  fun w =>
    let w1 := record_event ev w in
    match faults w ev (attempts_so_far w ev) with
    | Some e => (Raise e, w1)
    | None => let '(r, f') := act (files w) in (r, set_files w1 f')
    end.

(** [os.path.exists], [os.path.isfile], [os.path.isdir] never raise. *)
Definition path_exists (p : path) : M world bool :=
  fun w => (Ok (exists_in (files w) p), w).

Definition path_isfile (p : path) : M world bool :=
  fun w => (Ok match files w p with Some EFile => true | _ => false end, w).

Definition path_isdir (p : path) : M world bool :=
  fun w =>
    (Ok match files w p with Some (EDir _) => true | _ => false end, w).

(** [os.chmod(p, stat.S_IWRITE)] *)
Definition chmod (p : path) : M world unit :=
  syscall (Chmod p) (fun f =>
    match f p with
    | None => (Raise (ENOENT p), f)
    | Some _ => (Ok tt, f)
    end).

(** [os.remove] / [os.unlink] *)
Definition remove (p : path) : M world unit :=
  syscall (Remove p) (fun f =>
    match f p with
    | None => (Raise (ENOENT p), f)
    | Some (EDir _) => (Raise (EISDIR p), f)
    | Some EFile => (Ok tt, unlink_entry f p)
    end).

Definition rmdir (p : path) : M world unit :=
  syscall (Rmdir p) (fun f =>
    match f p with
    | None => (Raise (ENOENT p), f)
    | Some EFile => (Raise (ENOTDIR p), f)
    | Some (EDir names) =>
        match listing f p names with
        | [] => (Ok tt, unlink_entry f p)
        | _ :: _ => (Raise (ENOTEMPTY p), f)
        end
    end).

Definition read_dir (ev : event) (p : path) : M world (list string) :=
  syscall ev (fun f =>
    match f p with
    | None => (Raise (ENOENT p), f)
    | Some EFile => (Raise (ENOTDIR p), f)
    | Some (EDir names) => (Ok (listing f p names), f)
    end).

Definition listdir (p : path) : M world (list string) :=
  read_dir (Listdir p) p.

Definition scandir (p : path) : M world (list string) :=
  read_dir (Scandir p) p.

(** [time.sleep] *)
Definition sleep (ms : nat) : M world unit :=
  fun w => (Ok tt, record_event (Sleep ms) w).

End OS.

(** ** State that contains a world *)

Class HasWorld (S : Type) : Type := {
  view : S -> world;
  update : S -> world -> S;
  view_update : forall s w, view (update s w) = w
}.

#[export] Instance world_HasWorld : HasWorld world :=
  {| view := fun w => w; update := fun _ w => w;
     view_update := fun _ _ => eq_refl |}.

Definition liftW {S} `{HasWorld S} {A} (m : M world A) : M S A :=
  fun s => let '(r, w') := m (view s) in (r, update s w').

Definition recursion_error : exn :=
  Exn RecursionError "maximum recursion depth exceeded" None.

(** [try: m  except (E1, E2, ...) as e: h e], the classes given by [catches];
    an exception of another class propagates. *)
Definition try_except_when {S A} (catches : exn -> bool) (m : M S A)
  (h : exn -> M S A) : M S A :=
  try_except m (fun e => if catches e then h e else raise e).

(** ** [shutil.rmtree] and [os.walk] of the standard library

    [rmtree] is CPython's [_rmtree_unsafe] (the variant used on Windows):
    scan the directory, recurse into sub-directories, unlink the other
    entries, then remove the directory; every [OSError] goes to [onerror],
    called with the failing function and path.  There are no symbolic
    links in the model, so the [islink] checks are omitted.  A recursion
    deeper than the interpreter's limit raises [RecursionError]. *)

Inductive osfunc : Type := os_scandir | os_unlink | os_rmdir.

Definition call_osfunc (func : osfunc) (p : path) : M world unit :=
  match func with
  | os_scandir => OS.scandir p ;; ret tt
  | os_unlink => OS.remove p
  | os_rmdir => OS.rmdir p
  end.

Module Shutil.
Section WithState.

Context {S : Type} `{HasWorld S}.

Definition handler : Type := osfunc -> path -> exn -> M S unit.

(** [onerror=None]: the error is raised. *)
Definition onerror_raise : handler := fun _ _ e => raise e.

Fixpoint _rmtree_unsafe (fuel : nat) (onerror : handler) (p : path)
  : M S unit :=
  match fuel with
  | 0 => raise recursion_error
  | Datatypes.S fuel' =>
      entries <- try_except_when is_OSError (liftW (OS.scandir p))
                   (fun e => onerror os_scandir p e ;; ret []) ;;
      for_each entries (fun name =>
        let fullname := os_path_join p name in
        is_dir <- liftW (OS.path_isdir fullname) ;;
        if (is_dir : bool) then _rmtree_unsafe fuel' onerror fullname
        else try_except_when is_OSError (liftW (OS.remove fullname))
               (fun e => onerror os_unlink fullname e)) ;;
      try_except_when is_OSError (liftW (OS.rmdir p))
        (fun e => onerror os_rmdir p e)
  end.

Definition rmtree (p : path) (onerror : handler) : M S unit :=
  fun s => _rmtree_unsafe (rlimit (view s)) onerror p s.

(** The entries of a scanned directory split into directories and the
    rest, as [os.walk] does with [entry.is_dir()]. *)
Definition split_entries (top : path) (entries : list string)
  : M world (list string * list string) :=
  fun w =>
    (Ok (partition
           (fun n => match files w (os_path_join top n) with
                     | Some (EDir _) => true
                     | _ => false
                     end) entries), w).

(** [for root, dirs, files in os.walk(top, topdown=False): visit ...]:
    a directory is scanned, its sub-directories are walked, and then the
    directory itself is visited; a scan error ends that sub-walk
    silently. *)
Fixpoint walk_bottom_up (fuel : nat) (top : path)
  (visit : path -> list string -> list string -> M S unit) : M S unit :=
  match fuel with
  | 0 => raise recursion_error
  | Datatypes.S fuel' =>
      scanned <- try_except_when is_OSError
                   (entries <- liftW (OS.scandir top) ;; ret (Some entries))
                   (fun _ => ret None) ;;
      match scanned with
      | None => ret tt
      | Some entries =>
          parts <- liftW (split_entries top entries) ;;
          let '(dirs, nondirs) := parts in
          for_each dirs (fun d =>
            walk_bottom_up fuel' (os_path_join top d) visit) ;;
          visit top dirs nondirs
      end
  end.

Definition walk (top : path)
  (visit : path -> list string -> list string -> M S unit) : M S unit :=
  fun s => walk_bottom_up (rlimit (view s)) top visit s.

End WithState.
End Shutil.

(** ** [WindowsFileSystemCleaner] (windows_cleanup.py) *)

(** The dictionary [_cleanup_stats]. *)
Record cleanup_stats : Type := mkStats {
  files_removed : nat;
  dirs_removed : nat;
  retries_used : nat;
  errors_encountered : nat
}.

Definition zero_stats : cleanup_stats := mkStats 0 0 0 0.

(** The constructor's arguments; [retry_delay] in milliseconds.  The
    numbers are naturals: a negative [max_retries] would give the same
    empty [range] as 0. *)
Record policy : Type := mkPolicy {
  max_retries : nat;
  retry_delay : nat;
  max_depth : nat
}.

Definition default_policy : policy := mkPolicy 3 100 100.

(** A cleaner at work: its statistics and the world. *)
Record cstate : Type := mkCState {
  stats : cleanup_stats;
  cworld : world
}.

#[export] Instance cstate_HasWorld : HasWorld cstate :=
  {| view := cworld; update := fun s w => mkCState (stats s) w;
     view_update := fun _ _ => eq_refl |}.

Definition modify_stats (f : cleanup_stats -> cleanup_stats) : M cstate unit :=
  fun s => (Ok tt, mkCState (f (stats s)) (cworld s)).

Definition bump_files_removed : M cstate unit :=
  modify_stats (fun st => mkStats (files_removed st + 1) (dirs_removed st)
                            (retries_used st) (errors_encountered st)).
Definition bump_dirs_removed : M cstate unit :=
  modify_stats (fun st => mkStats (files_removed st) (dirs_removed st + 1)
                            (retries_used st) (errors_encountered st)).
Definition bump_retries_used : M cstate unit :=
  modify_stats (fun st => mkStats (files_removed st) (dirs_removed st)
                            (retries_used st + 1) (errors_encountered st)).
Definition bump_errors_encountered : M cstate unit :=
  modify_stats (fun st => mkStats (files_removed st) (dirs_removed st)
                            (retries_used st) (errors_encountered st + 1)).

Module WindowsFileSystemCleaner.
Section Methods.

Variable self : policy.

(** The error handler of [_rmtree_with_retries]. *)
Definition retry_on_error (func : osfunc) (p : path) (exception : exn)
  : M cstate unit :=
  if is_OSError exception then
    for_attempts (seq 0 (max_retries self)) (fun attempt =>
      try_except
        (liftW (OS.sleep (retry_delay self)) ;;
         present <- liftW (OS.path_exists p) ;;
         (if (present : bool)
          then try_except (liftW (OS.chmod p)) (fun _ => ret tt)
          else ret tt) ;;
         liftW (call_osfunc func p) ;;
         bump_retries_used ;;
         ret Return)
        (fun retry_error =>
           if attempt =? max_retries self - 1
           then raise retry_error
           else ret Continue))
  else raise exception.

Definition _rmtree_with_retries (p : path) : M cstate unit :=
  Shutil.rmtree p retry_on_error.

(** The error handler of [_force_rmtree]. *)
Definition force_remove_readonly (func : osfunc) (p : path) (_ : exn)
  : M cstate unit :=
  try_except (liftW (OS.chmod p) ;; liftW (call_osfunc func p))
    (fun e => raise e).

Definition _force_rmtree (p : path) : M cstate unit :=
  Shutil.walk p (fun root dirs files_ =>
    for_each files_ (fun file =>
      let file_path := os_path_join root file in
      try_except (liftW (OS.chmod file_path) ;; bump_files_removed)
        (fun _ => ret tt)) ;;
    for_each dirs (fun dir =>
      let dir_path := os_path_join root dir in
      try_except (liftW (OS.chmod dir_path) ;; bump_dirs_removed)
        (fun _ => ret tt))) ;;
  Shutil.rmtree p force_remove_readonly.

Definition _safe_remove_file (file_path : path) : M cstate unit :=
  for_attempts (seq 0 (max_retries self)) (fun attempt =>
    try_except_when
      (fun e => is_PermissionError e || is_FileNotFoundError e)
      (liftW (OS.chmod file_path) ;;
       liftW (OS.remove file_path) ;;
       ret Return)
      (fun e =>
         if attempt =? max_retries self - 1
         then raise e
         else liftW (OS.sleep (retry_delay self)) ;; ret Continue)).

Definition _safe_remove_dir (dir_path : path) : M cstate unit :=
  for_attempts (seq 0 (max_retries self)) (fun attempt =>
    try_except_when is_OSError
      (liftW (OS.rmdir dir_path) ;; ret Return)
      (fun e =>
         if attempt =? max_retries self - 1
         then raise e
         else liftW (OS.sleep (retry_delay self)) ;; ret Continue)).

Definition depth_limit_error (p : path) : exn :=
  Exn WindowsCleanupError
    ("Recursion depth limit exceeded: " ++ path_str p) None.

(** The body of [_manual_rmtree]; [recurse] is the method itself. *)
Definition _manual_rmtree_body (recurse : path -> nat -> M cstate unit)
  (p : path) (current_depth : nat) : M cstate unit :=
  if max_depth self <? current_depth
  then raise (depth_limit_error p)
  else
    present <- liftW (OS.path_exists p) ;;
    if negb present then ret tt
    else
      is_file <- liftW (OS.path_isfile p) ;;
      if (is_file : bool) then _safe_remove_file p
      else
        listed <- try_except_when
                    (fun e => is_PermissionError e || is_FileNotFoundError e)
                    (entries <- liftW (OS.listdir p) ;; ret (Some entries))
                    (fun _ => ret None) ;;
        match listed with
        | None => ret tt
        | Some entries =>
            for_each entries (fun entry =>
              let entry_path := os_path_join p entry in
              is_dir <- liftW (OS.path_isdir entry_path) ;;
              if (is_dir : bool)
              then recurse entry_path (current_depth + 1) ;;
                   bump_dirs_removed
              else _safe_remove_file entry_path ;;
                   bump_files_removed) ;;
            _safe_remove_dir p
        end.

(** [_manual_rmtree] with a bound on the nested calls; beyond it the
    interpreter raises [RecursionError]. *)
Fixpoint manual_rmtree_rec (fuel : nat) : path -> nat -> M cstate unit :=
  match fuel with
  | 0 => fun _ _ => raise recursion_error
  | S fuel' => _manual_rmtree_body (manual_rmtree_rec fuel')
  end.

(** The depth guard stops the recursion after [max_depth + 1] nested
    calls below [current_depth], so this many calls are enough. *)
Definition _manual_rmtree (p : path) (current_depth : nat) : M cstate unit :=
  manual_rmtree_rec (S (S (max_depth self) - current_depth)) p current_depth.

Definition all_failed_msg (p : path) (e e2 e3 : exn) : string :=
  ("All removal strategies failed for " ++ path_str p ++ ": "
     ++ exn_str e ++ ", " ++ exn_str e2 ++ ", " ++ exn_str e3)%string.

Definition safe_rmtree (p : path) (ignore_errors : bool) : M cstate bool :=
  present <- liftW (OS.path_exists p) ;;
  if negb present then ret true
  else
    try_except (_rmtree_with_retries p ;; ret true) (fun e =>
      try_except (_force_rmtree p ;; ret true) (fun e2 =>
        try_except (_manual_rmtree p 0 ;; ret true) (fun e3 =>
          bump_errors_encountered ;;
          if ignore_errors then ret false
          else raise (Exn WindowsCleanupError (all_failed_msg p e e2 e3)
                        (Some e3))))).

End Methods.
End WindowsFileSystemCleaner.

(** [safe_windows_rmtree]: a fresh cleaner with the default arguments,
    dropped after the call. *)
Definition safe_windows_rmtree (p : path) (ignore_errors : bool)
  : M world bool :=
  fun w =>
    let '(r, s) := WindowsFileSystemCleaner.safe_rmtree default_policy p
                     ignore_errors (mkCState zero_stats w) in
    (r, cworld s).

(** ** [tempfile.mkdtemp] of the standard library

    One candidate name under the temporary root, made of the prefix and a
    number; the directory is created empty and entered in its parent. *)

Module Tempfile.

Definition gettempdir : path := ["tmp"%string].

Definition EEXIST (p : path) : exn :=
  Exn FileExistsError ("[Errno 17] File exists: " ++ path_str p) None.

Definition mkdir_entry (f : path -> option entry) (parent : path)
  (name : string) : path -> option entry :=
  add_entry f parent name (EDir []).

Definition mkdtemp (prefix : string) : M world path :=
  fun w =>
    let name :=
      (prefix ++ NilEmpty.string_of_uint (Nat.to_uint (length (trace w))))%string in
    let p := os_path_join gettempdir name in
    OS.syscall (Mkdtemp p) (fun f =>
      match f gettempdir with
      | Some (EDir _) =>
          if exists_in f p then (Raise (EEXIST p), f)
          else (Ok p, mkdir_entry f gettempdir name)
      | _ => (Raise (OS.ENOENT p), f)
      end) w.

End Tempfile.

(** [create_safe_tempdir] of windows_cleanup.py: on Windows a prefix longer
    than 20 characters is cut to its first 20. *)
Definition windows_create_safe_tempdir (sys_platform_win : bool)
  (prefix : string) : M world path :=
  let prefix :=
    if sys_platform_win && (20 <? String.length prefix)
    then substring 0 20 prefix
    else prefix in
  Tempfile.mkdtemp prefix.

(** ** [PlatformAdapter] (platform_utils.py) *)

(** What the temporary-directory handles use of their [platform_adapter]. *)
Record adapter_ops : Type := mkOps {
  ops_safe_rmtree : path -> bool -> M world bool;
  ops_create_safe_tempdir : string -> M world path
}.

Module PlatformAdapter.

(** [_is_windows], and whether [from .windows_cleanup import ...]
    succeeds. *)
Record t : Type := mk {
  _is_windows : bool;
  windows_cleanup_importable : bool
}.

Definition standard_rmtree (p : path) (ignore_errors : bool) : M world bool :=
  try_except (Shutil.rmtree p Shutil.onerror_raise ;; ret true)
    (fun e => if ignore_errors then ret false else raise e).

Definition safe_rmtree (self : t) (p : path) (ignore_errors : bool)
  : M world bool :=
  if negb (_is_windows self) then standard_rmtree p ignore_errors
  else if windows_cleanup_importable self
       then safe_windows_rmtree p ignore_errors
       else standard_rmtree p ignore_errors.

Definition create_safe_tempdir (self : t) (prefix : string) : M world path :=
  if negb (_is_windows self) then Tempfile.mkdtemp prefix
  else if windows_cleanup_importable self
       then windows_create_safe_tempdir (_is_windows self) prefix
       else Tempfile.mkdtemp prefix.

Definition ops (self : t) : adapter_ops :=
  mkOps (safe_rmtree self) (create_safe_tempdir self).

Definition posix : t := mk false true.
Definition windows : t := mk true true.

End PlatformAdapter.

(** ** safe_temp.py *)

(** An object (or a local variable) next to the world. *)
#[export] Instance pair_HasWorld (H : Type) : HasWorld (H * world) :=
  {| view := snd; update := fun s w => (fst s, w);
     view_update := fun _ _ => eq_refl |}.

Definition get_self {H} : M (H * world) H := fun s => (Ok (fst s), s).
Definition set_self {H} (h : H) : M (H * world) unit :=
  fun s => (Ok tt, (h, snd s)).

(** [with cm as x: body x], for a manager whose [__exit__] returns [None]:
    the body's exception is re-raised after [__exit__], unless [__exit__]
    raises itself. *)
Definition with_statement {H A B} (enter : M (H * world) A)
  (exit : M (H * world) unit) (body : A -> M world B) : M (H * world) B :=
  x <- enter ;;
  try_finally (liftW (body x)) exit.

(** [with safe_temp_directory(prefix, auto_cleanup) as temp_dir: body].
    The generator's [yield] is the place where the body runs; the local
    variable [temp_dir] is the state next to the world. *)
Definition safe_temp_directory_gen (platform_adapter : adapter_ops)
  (prefix : string) (auto_cleanup : bool) {B} (body : path -> M world B)
  : M (option path * world) B :=
  try_finally
    (try_except
       (temp_dir <- liftW (ops_create_safe_tempdir platform_adapter prefix) ;;
        set_self (Some temp_dir) ;;
        liftW (body temp_dir))
       (fun e => raise e))
    (temp_dir <- get_self ;;
     match temp_dir with
     | Some ((_ :: _) as d) =>
         if auto_cleanup then
           present <- liftW (OS.path_exists d) ;;
           if (present : bool) then
             try_except
               (liftW (ops_safe_rmtree platform_adapter d true) ;; ret tt)
               (fun _ => ret tt)
           else ret tt
         else ret tt
     | _ => ret tt
     end).

Definition safe_temp_directory (platform_adapter : adapter_ops)
  (prefix : string) (auto_cleanup : bool) {B} (body : path -> M world B)
  : M world B :=
  fun w =>
    let '(r, s) := safe_temp_directory_gen platform_adapter prefix
                     auto_cleanup body (None, w) in
    (r, snd s).

Module SafeTemporaryDirectory.

Record t : Type := mk {
  prefix : string;
  dir : option path;
  ignore_cleanup_errors : bool;
  name : option path;
  platform_adapter : adapter_ops
}.

Definition __init__ (suffix prefix : option string) (dir : option path)
  (ignore_cleanup_errors : bool) (adapter : adapter_ops) : t :=
  let prefix := match prefix with None => "tmp"%string | Some p => p end in
  let prefix := match suffix with
                | Some s => (prefix ++ s)%string
                | None => prefix
                end in
  mk prefix dir ignore_cleanup_errors None adapter.

Definition set_name (n : option path) : M (t * world) unit :=
  self <- get_self ;;
  set_self (mk (prefix self) (dir self) (ignore_cleanup_errors self) n
              (platform_adapter self)).

Definition __enter__ : M (t * world) path :=
  self <- get_self ;;
  match name self with
  | Some _ =>
      raise (Exn RuntimeError "Temporary directory already created" None)
  | None =>
      d <- liftW (ops_create_safe_tempdir (platform_adapter self)
                    (prefix self)) ;;
      set_name (Some d) ;;
      ret d
  end.

Definition cleanup_failed (n : path) : exn :=
  Exn OSError
    ("Failed to clean up temporary directory: " ++ path_str n) None.

Definition cleanup : M (t * world) unit :=
  self <- get_self ;;
  match name self with
  | None => ret tt
  | Some n =>
      try_finally
        (try_except
           (success <- liftW (ops_safe_rmtree (platform_adapter self) n
                                (ignore_cleanup_errors self)) ;;
            if (success : bool) then ret tt
            else if negb (ignore_cleanup_errors self)
                 then raise (cleanup_failed n)
                 else ret tt)
           (fun e =>
              if negb (ignore_cleanup_errors self) then raise e
              else ret tt))
        (set_name None)
  end.

Definition __exit__ : M (t * world) unit := cleanup.

Definition __del__ : M (t * world) unit :=
  self <- get_self ;;
  match name self with
  | Some _ => cleanup
  | None => ret tt
  end.

End SafeTemporaryDirectory.

Module SafeTempDir.

Record t : Type := mk {
  prefix : string;
  temp_dir : option path;
  platform_adapter : adapter_ops
}.

Definition __init__ (prefix : string) (adapter : adapter_ops) : t :=
  mk prefix None adapter.

Definition set_temp_dir (d : option path) : M (t * world) unit :=
  self <- get_self ;;
  set_self (mk (prefix self) d (platform_adapter self)).

Definition create : M (t * world) path :=
  self <- get_self ;;
  match temp_dir self with
  | Some _ =>
      raise (Exn RuntimeError "Temporary directory already created" None)
  | None =>
      d <- liftW (ops_create_safe_tempdir (platform_adapter self)
                    (prefix self)) ;;
      set_temp_dir (Some d) ;;
      ret d
  end.

Definition cleanup : M (t * world) bool :=
  self <- get_self ;;
  match temp_dir self with
  | None => ret true
  | Some d =>
      try_except
        (success <- liftW (ops_safe_rmtree (platform_adapter self) d true) ;;
         set_temp_dir None ;;
         ret success)
        (fun _ => ret false)
  end.

Definition __enter__ : M (t * world) path := create.

Definition __exit__ : M (t * world) unit := cleanup ;; ret tt.

Definition __del__ : M (t * world) unit :=
  self <- get_self ;;
  match temp_dir self with
  | Some _ => cleanup ;; ret tt
  | None => ret tt
  end.

End SafeTempDir.


From Stdlib Require Import Ascii BinInt.

(** ** Strings

    Python's [str.lower] and [str.endswith] on byte strings; [lower] acts on
    the ASCII letters, the only ones that an extension test can see. *)

Definition lower_char (c : Ascii.ascii) : Ascii.ascii :=
  let n := Ascii.nat_of_ascii c in
  if (65 <=? n) && (n <=? 90) then Ascii.ascii_of_nat (n + 32) else c.

Fixpoint lower (s : string) : string :=
  match s with
  | EmptyString => EmptyString
  | String c s' => String (lower_char c) (lower s')
  end.

Definition endswith (s suffix : string) : bool :=
  let n := String.length s in
  let m := String.length suffix in
  (m <=? n) && String.eqb (substring (n - m) m s) suffix.

(** ** windows_patches.py *)

(** The class objects that the attribute [tempfile.TemporaryDirectory] may
    name: the class of the standard library, [SafeTemporaryDirectory] of
    safe_temp.py, or any other class. *)
Inductive class_object : Type :=
| stdlib_TemporaryDirectory
| SafeTemporaryDirectory_class
| other_class (id : nat).

Module WindowsPatches.

Record t : Type := mk {
  _is_windows : bool;
  _original_temp_directory : option class_object;
  _patches_applied : bool
}.

(** A patch manager next to the module attribute it patches. *)
Record pstate : Type := mkP {
  self : t;
  tempfile_TemporaryDirectory : class_object
}.

(** [platform_system] is what [platform.system()] returns. *)
Definition __init__ (platform_system : string) : t :=
  mk (String.eqb (lower platform_system) "windows") None false.

Definition set_original (o : option class_object) : M pstate unit :=
  fun s => (Ok tt,
            mkP (mk (_is_windows (self s)) o (_patches_applied (self s)))
              (tempfile_TemporaryDirectory s)).

Definition set_applied (b : bool) : M pstate unit :=
  fun s => (Ok tt,
            mkP (mk (_is_windows (self s)) (_original_temp_directory (self s))
                   b)
              (tempfile_TemporaryDirectory s)).

Definition set_TemporaryDirectory (c : class_object) : M pstate unit :=
  fun s => (Ok tt, mkP (self s) c).

Definition get : M pstate pstate := fun s => (Ok s, s).

Definition apply_patches : M pstate bool :=
  s <- get ;;
  if negb (_is_windows (self s)) then ret false
  else if _patches_applied (self s) then ret false
  else
    try_except
      (set_original (Some (tempfile_TemporaryDirectory s)) ;;
       set_TemporaryDirectory SafeTemporaryDirectory_class ;;
       set_applied true ;;
       ret true)
      (fun _ => ret false).

Definition remove_patches : M pstate bool :=
  s <- get ;;
  if negb (_patches_applied (self s)) then ret false
  else
    try_except
      (match _original_temp_directory (self s) with
       | Some original =>
           set_TemporaryDirectory original ;;
           set_original None
       | None => ret tt
       end ;;
       set_applied false ;;
       ret true)
      (fun _ => ret false).

Definition is_patched : M pstate bool :=
  s <- get ;; ret (_patches_applied (self s)).

(** [with self.patch_context(): body] *)
Definition patch_context {B} (body : M pstate B) : M pstate B :=
  applied <- apply_patches ;;
  try_finally body
    (if (applied : bool) then remove_patches ;; ret tt else ret tt).

End WindowsPatches.

(** The module-level functions act on the one manager [_patch_manager]. *)
Definition apply_windows_patches : M WindowsPatches.pstate bool :=
  WindowsPatches.apply_patches.

Definition remove_windows_patches : M WindowsPatches.pstate bool :=
  WindowsPatches.remove_patches.

Definition is_windows_patched : M WindowsPatches.pstate bool :=
  WindowsPatches.is_patched.

Definition windows_patch_context {B} (body : M WindowsPatches.pstate B)
  : M WindowsPatches.pstate B :=
  WindowsPatches.patch_context body.

Definition auto_patch_if_needed (platform_system : string)
  : M WindowsPatches.pstate bool :=
  if String.eqb (lower platform_system) "windows" then
    patched <- WindowsPatches.is_patched ;;
    if negb patched then WindowsPatches.apply_patches
    else ret true
  else ret false.

(** What importing the module does: the manager is built, and patched at
    once on Windows. *)
Definition import_windows_patches (platform_system : string)
  (current : class_object) : result unit * WindowsPatches.pstate :=
  let s := WindowsPatches.mkP (WindowsPatches.__init__ platform_system)
             current in
  if String.eqb (lower platform_system) "windows" then
    try_except (auto_patch_if_needed platform_system ;; ret tt)
      (fun _ => ret tt) s
  else (Ok tt, s).

Local Open Scope string_scope.

(** ** Claude CLI detection and execution (platform_utils.py)

    The other half of [PlatformAdapter].  The interpreter and the operating
    system are a [host]: the environment variables, the files that exist,
    what [shutil.which] finds and what [subprocess.run] does.  The Windows
    branches use [subprocess.CREATE_NO_WINDOW], which exists on Windows. *)

Inductive pyvalue : Type :=
| PyBool (b : bool)
| PyInt (n : Z)
| PyStr (s : string).

(** Keyword arguments, in insertion order. *)
Definition kwargs : Type := list (string * pyvalue).

Definition has_key (k : string) (kw : kwargs) : bool :=
  existsb (fun kv => String.eqb (fst kv) k) kw.

Definition CREATE_NO_WINDOW : pyvalue := PyInt 134217728.

Record CompletedProcess : Type := mkCompleted {
  returncode : Z;
  stdout : string;
  stderr : string
}.

(** What a call can raise here: [subprocess.TimeoutExpired], another
    [subprocess.SubprocessError], or an exception of the classes above. *)
Inductive raised : Type :=
| TimeoutExpired (msg : string)
| SubprocessError (msg : string)
| Builtin (e : exn).

Definition raised_str (e : raised) : string :=
  match e with
  | TimeoutExpired m | SubprocessError m => m
  | Builtin e => exn_str e
  end.

Inductive outcome (A : Type) : Type :=
| Returned (a : A)
| Raised (e : raised).

Arguments Returned {A} a.
Arguments Raised {A} e.

Record host : Type := mkHost {
  (** [os.environ.get] *)
  environ : string -> option string;
  (** [os.path.exists], [os.path.join], [os.path.expandvars] on path
      strings *)
  exists_path : string -> bool;
  join_path : string -> string -> string;
  expandvars : string -> string;
  (** [shutil.which] *)
  which : string -> option string;
  (** [subprocess.run], [hasattr(subprocess.run, name)] and
      [subprocess.run.__name__] *)
  subprocess_run : list string -> kwargs -> outcome CompletedProcess;
  run_hasattr : string -> bool;
  run_name : string;
  (** [str.strip()], [str.split()], and the text of a list in an
      f-string *)
  strip : string -> string;
  split : string -> list string;
  repr_list : list string -> string
}.

(** The truth value of a string, of an optional string and of an optional
    list in a condition. *)
Definition nonempty (s : string) : bool := negb (String.eqb s "").

Definition truthy_str (o : option string) : bool :=
  match o with Some s => nonempty s | None => false end.

Definition truthy_cmd (o : option (list string)) : bool :=
  match o with Some (_ :: _) => true | _ => false end.

(** [s.split('\n')[0]] *)
Fixpoint first_line (s : string) : string :=
  match s with
  | EmptyString => EmptyString
  | String c s' =>
      if Ascii.eqb c "010" then EmptyString else String c (first_line s')
  end.

(** [sub in s] *)
Definition contains (sub s : string) : bool :=
  match String.index 0 sub s with Some _ => true | None => false end.

(** [str(n)] for an integer. *)
Definition int_str (n : Z) : string := NilZero.string_of_int (Z.to_int n).

(** [except (subprocess.SubprocessError, FileNotFoundError, OSError)] *)
Definition detection_error (e : raised) : bool :=
  match e with
  | TimeoutExpired _ | SubprocessError _ => true
  | Builtin e => is_OSError e
  end.

(** [x = e; if x: return x] followed by the rest of the function. *)
Definition return_if_found {A} (x : option A) (rest : outcome A)
  : outcome A :=
  match x with
  | Some a => Returned a
  | None => rest
  end.

Definition and_then {A B} (x : outcome A) (k : A -> outcome B)
  : outcome B :=
  match x with
  | Returned a => k a
  | Raised e => Raised e
  end.

(** An optional value under a condition that tests it. *)
Definition found_str (o : option string) : option string :=
  match o with
  | Some s => if nonempty s then Some s else None
  | None => None
  end.

Definition found_cmd (o : option (list string)) : option (list string) :=
  if truthy_cmd o then o else None.

Module PlatformCommands.

Record t : Type := mk {
  _is_windows : bool;
  _claude_command_cache : option (list string)
}.

(** [platform_system] is what [platform.system()] returns. *)
Definition __init__ (platform_system : string) : t :=
  mk (String.eqb (lower platform_system) "windows") None.

Definition is_windows (self : t) : bool := _is_windows self.

Definition _check_claude_in_path (h : host) (path : string)
  : option (list string) :=
  let claude_ps1 := join_path h path "claude.ps1" in
  let claude_cmd := join_path h path "claude.CMD" in
  let claude_bat := join_path h path "claude.bat" in
  if exists_path h claude_ps1 then
    Some ["powershell.exe"; "-ExecutionPolicy"; "Bypass"; "-File";
          claude_ps1]
  else if exists_path h claude_cmd then
    Some ["cmd.exe"; "/c"; claude_cmd]
  else if exists_path h claude_bat then
    Some ["cmd.exe"; "/c"; claude_bat]
  else None.

Definition _detect_claude_from_npm (h : host) (self : t)
  : outcome (option (list string)) :=
  match subprocess_run h ["npm"; "config"; "get"; "prefix"]
          [("capture_output", PyBool true); ("text", PyBool true);
           ("timeout", PyInt 5);
           ("creationflags",
            if _is_windows self then CREATE_NO_WINDOW else PyInt 0)]
  with
  | Returned result =>
      if Z.eqb (returncode result) 0 then
        let npm_path := strip h (stdout result) in
        Returned (_check_claude_in_path h npm_path)
      else Returned None
  | Raised e => if detection_error e then Returned None else Raised e
  end.

Definition common_npm_paths (h : host) : list string :=
  [expandvars h "%APPDATA%\npm";
   expandvars h "%USERPROFILE%\AppData\Roaming\npm";
   "C:\Program Files\nodejs";
   "C:\Program Files (x86)\nodejs";
   expandvars h "%ProgramFiles%\nodejs";
   expandvars h "%ProgramFiles(x86)%\nodejs"].

(** The loop over [common_npm_paths].  Its [except OSError: continue] has
    nothing to catch: [os.path.exists] does not raise. *)
Fixpoint first_claude_in (h : host) (paths : list string)
  : option (list string) :=
  match paths with
  | [] => None
  | npm_path :: rest =>
      if exists_path h npm_path then
        let claude_cmd := _check_claude_in_path h npm_path in
        if truthy_cmd claude_cmd then claude_cmd
        else first_claude_in h rest
      else first_claude_in h rest
  end.

Definition _detect_claude_from_common_paths (h : host)
  : option (list string) :=
  first_claude_in h (common_npm_paths h).

Definition _detect_claude_via_where (h : host)
  : outcome (option (list string)) :=
  match subprocess_run h ["where"; "claude"]
          [("capture_output", PyBool true); ("text", PyBool true);
           ("timeout", PyInt 5); ("creationflags", CREATE_NO_WINDOW)]
  with
  | Returned result =>
      if Z.eqb (returncode result) 0 && nonempty (strip h (stdout result))
      then
        let claude_path := first_line (strip h (stdout result)) in
        if exists_path h claude_path then
          if endswith (lower claude_path) ".ps1" then
            Returned (Some ["powershell.exe"; "-ExecutionPolicy"; "Bypass";
                            "-File"; claude_path])
          else if endswith (lower claude_path) ".cmd"
                  || endswith (lower claude_path) ".bat" then
            Returned (Some ["cmd.exe"; "/c"; claude_path])
          else Returned (Some [claude_path])
        else Returned None
      else Returned None
  | Raised e => if detection_error e then Returned None else Raised e
  end.

Definition _detect_windows_claude_command (h : host) (self : t)
  : outcome (list string) :=
  (* Strategy 1: manual override via environment variable *)
  return_if_found
    match found_str (environ h "CLAUDE_PS1_PATH") with
    | Some claude_override =>
        if exists_path h claude_override then
          if endswith (lower claude_override) ".ps1" then
            Some ["powershell.exe"; "-ExecutionPolicy"; "Bypass"; "-File";
                  claude_override]
          else if endswith (lower claude_override) ".cmd"
                  || endswith (lower claude_override) ".bat" then
            Some ["cmd.exe"; "/c"; claude_override]
          else Some [claude_override]
        else None
    | None => None
    end
  (* Strategy 2: what shutil.which finds *)
  (return_if_found
    match found_str (which h "claude") with
    | Some claude_path =>
        if endswith (lower claude_path) ".cmd"
           || endswith (lower claude_path) ".bat" then
          Some ["cmd.exe"; "/c"; claude_path]
        else if endswith (lower claude_path) ".ps1" then
          Some ["powershell.exe"; "-ExecutionPolicy"; "Bypass"; "-File";
                claude_path]
        else Some [claude_path]
    | None => None
    end
  (* Strategy 3: npm config get prefix *)
  (and_then (_detect_claude_from_npm h self) (fun claude_from_npm =>
   return_if_found (found_cmd claude_from_npm)
  (* Strategy 4: common npm installation paths *)
  (return_if_found (found_cmd (_detect_claude_from_common_paths h))
  (* Strategy 5: the where command *)
  (and_then (_detect_claude_via_where h) (fun claude_from_where =>
   return_if_found (found_cmd claude_from_where)
  (* Fallback: PowerShell, then cmd.exe *)
  (if truthy_str (which h "powershell")
      || truthy_str (which h "powershell.exe")
   then Returned ["powershell.exe"; "-ExecutionPolicy"; "Bypass";
                  "-Command"; "claude"]
   else Returned ["cmd.exe"; "/c"; "claude"]))))))).

Definition get_claude_command (h : host) (self : t)
  : outcome (list string) * t :=
  match _claude_command_cache self with
  | Some cached => (Returned cached, self)
  | None =>
      if _is_windows self then
        match found_str (environ h "CLAUDE_WINDOWS_CMD") with
        | Some windows_cmd =>
            (Returned (split h windows_cmd),
             mk (_is_windows self) (Some (split h windows_cmd)))
        | None =>
            match _detect_windows_claude_command h self with
            | Returned cmd =>
                (Returned cmd, mk (_is_windows self) (Some cmd))
            | Raised e => (Raised e, self)
            end
        end
      else (Returned ["claude"], mk (_is_windows self) (Some ["claude"]))
  end.

Definition _is_subprocess_mocked (h : host) : bool :=
  if run_hasattr h "_mock_name" || run_hasattr h "side_effect" then true
  else if run_hasattr h "mock" || run_hasattr h "_mock_target" then true
  else if run_hasattr h "call_count" || run_hasattr h "assert_called"
  then true
  else if run_hasattr h "__name__" && contains "mock" (lower (run_name h))
  then true
  else if existsb (run_hasattr h)
            ["called"; "call_args"; "call_args_list"; "return_value"]
  then true
  else if existsb
            (String.eqb
               (lower match environ h "CLAUDE_TEST_MODE" with
                      | Some v => v
                      | None => ""
                      end))
            ["true"; "1"; "on"]
  then true
  else false.

Definition not_a_claude_command (h : host) (args : list string) : raised :=
  Builtin (Exn ValueError ("Expected Claude command, got: " ++ repr_list h args)
             None).

Definition run_claude_command (h : host) (self : t) (args : list string)
  (kw : kwargs) : outcome CompletedProcess * t :=
  match args with
  | first :: rest =>
      if negb (String.eqb first "claude")
      then (Raised (not_a_claude_command h args), self)
      else
        let is_mocked := _is_subprocess_mocked h in
        if is_mocked || negb (_is_windows self) then
          (subprocess_run h args kw, self)
        else
          match get_claude_command h self with
          | (Returned claude_cmd, self') =>
              let full_cmd := (claude_cmd ++ rest)%list in
              let kw' := if negb (has_key "creationflags" kw)
                         then (kw ++ [("creationflags", CREATE_NO_WINDOW)])%list
                         else kw in
              (subprocess_run h full_cmd kw', self')
          | (Raised e, self') => (Raised e, self')
          end
  | [] => (Raised (not_a_claude_command h args), self)
  end.

Definition validate_claude_availability (h : host) (self : t)
  : (bool * string) * t :=
  match run_claude_command h self ["claude"; "--version"]
          [("capture_output", PyBool true); ("text", PyBool true);
           ("timeout", PyInt 10)]
  with
  | (Returned result, self') =>
      if Z.eqb (returncode result) 0 then ((true, ""), self')
      else
        let error_msg :=
          "Claude Code returned exit code " ++ int_str (returncode result) in
        let error_msg :=
          if nonempty (stderr result)
          then error_msg ++ ". Stderr: " ++ stderr result
          else error_msg in
        let error_msg :=
          if nonempty (stdout result)
          then error_msg ++ ". Stdout: " ++ stdout result
          else error_msg in
        ((false, error_msg), self')
  | (Raised (TimeoutExpired _), self') =>
      ((false, "Claude Code command timed out"), self')
  | (Raised (Builtin (Exn FileNotFoundError _ _)), self') =>
      ((false, "Claude Code is not installed or not in PATH"), self')
  | (Raised e, self') =>
      ((false, "Failed to check Claude Code: " ++ raised_str e), self')
  end.

End PlatformCommands.

Close Scope string_scope.

(** * Vocabulary of the properties, and scenarios *)

(** *** Filesystems, faults and test bodies *)

(** An empty temporary root [tmp]. *)
Definition empty_tmp : path -> option entry :=
  fun q => if path_eq_dec q ["tmp"%string] then Some (EDir []) else None.

(** No system call fails. *)
Definition no_faults : event -> nat -> option exn := fun _ _ => None.

(** A world with no fault, an empty trace and the default recursion
    limit of the interpreter. *)
Definition quiet_world (f : path -> option entry) : world :=
  mkWorld f [] no_faults 1000.


(** A directory [tmp/d] holding the file [f]. *)
Definition one_file_tree : path -> option entry :=
  fun q =>
    if path_eq_dec q ["tmp"%string] then Some (EDir ["d"%string])
    else if path_eq_dec q ["tmp"; "d"]%string then Some (EDir ["f"%string])
    else if path_eq_dec q ["tmp"; "d"; "f"]%string then Some EFile
    else None.

(** The error of a file that another process keeps open. *)
Definition locked : exn := Exn PermissionError "locked" None.

(** Every removal of a file is denied. *)
Definition remove_always_denied : event -> nat -> option exn :=
  fun ev _ => match ev with Remove _ => Some locked | _ => None end.

(** [one_file_tree] with its file locked for good. *)
Definition locked_world : world :=
  mkWorld one_file_tree [] remove_always_denied 1000.

(** No directory can be listed. *)
Definition listing_denied : event -> nat -> option exn :=
  fun ev _ =>
    match ev with
    | Listdir _ | Scandir _ => Some (Exn PermissionError "denied" None)
    | _ => None
    end.

(** What a handle sees of the adapter on a POSIX host. *)
Definition posix_ops : adapter_ops :=
  PlatformAdapter.ops PlatformAdapter.posix.

(** Calls that may follow a [cleanup] on the same handle. *)
Inductive later_call : Type := Close | ContextExit | Finalizer.

Definition run_later (calls : list later_call)
  : M (SafeTemporaryDirectory.t * world) unit :=
  for_each calls (fun c =>
    match c with
    | Close => SafeTemporaryDirectory.cleanup
    | ContextExit => SafeTemporaryDirectory.__exit__
    | Finalizer => SafeTemporaryDirectory.__del__
    end).

(** The truth value of a path in a condition: false for the empty
    string. *)
Definition truthy_path (d : path) : bool :=
  match d with [] => false | _ :: _ => true end.

(** The body of a test: it writes a file into the directory, then fails. *)
Definition create_file (d : path) (name : string) : M world unit :=
  fun w => (Ok tt, set_files w (add_entry (files w) d name EFile)).

Definition test_exception : exn := Exn ValueError "Test exception" None.

(** [open(test_file, "w")], then [raise ValueError("Test exception")]. *)
Definition failing_body (d : path) : M world unit :=
  create_file d "test.txt" ;; raise test_exception.

(** A body that removes its own directory before it fails. *)
Definition self_removing_body (d : path) : M world unit :=
  OS.rmdir d ;; raise test_exception.

(** An empty temporary root where no file can be removed. *)
Definition denied_world : world :=
  mkWorld empty_tmp [] remove_always_denied 1000.

(** *** Traces *)

(** From [s] to [s'] the trace grew by events that satisfy [P]. *)
Definition appends {S : Type} `{HasWorld S} (P : event -> Prop)
  (s s' : S) : Prop :=
  exists evs, trace (view s') = trace (view s) ++ evs /\ Forall P evs.

(** Whatever [m] does, it adds only events that satisfy [P]. *)
Definition emits {S : Type} `{HasWorld S} (P : event -> Prop) {A}
  (m : M S A) : Prop :=
  forall s r s', m s = (r, s') -> appends P s s'.

(** The system calls of [shutil.rmtree] itself. *)
Definition native_event (ev : event) : Prop :=
  match ev with
  | Scandir _ | Remove _ | Rmdir _ => True
  | _ => False
  end.

(** The file [tmp/d/f] cannot be removed at the first attempt only. *)
Definition remove_denied_once : event -> nat -> option exn :=
  fun ev k =>
    match ev, k with
    | Remove _, 0 => Some locked
    | _, _ => None
    end.

(** [one_file_tree] with its file locked once. *)
Definition flaky_world : world :=
  mkWorld one_file_tree [] remove_denied_once 1000.

(** The path a system call acts on. *)
Definition event_path (ev : event) : option path :=
  match ev with
  | Chmod p | Remove p | Rmdir p | Listdir p | Scandir p | Mkdtemp p => Some p
  | Sleep _ => None
  end.

(** The event touches a path at most [k] components below [root]. *)
Definition below (root : path) (k : nat) (ev : event) : Prop :=
  match event_path ev with
  | None => True
  | Some q => exists rest, q = root ++ rest /\ length rest <= k
  end.

(** A world without bottom: every path is a directory that lists [a]. *)
Definition bottomless : path -> option entry :=
  fun _ => Some (EDir ["a"%string]).

(** A cleaner with [max_depth=2]. *)
Definition shallow_policy : policy := mkPolicy 3 100 2.

(** How often a system call occurs in a trace. *)
Definition occurrences (ev : event) (evs : list event) : nat :=
  count_occ event_eq_dec evs ev.

(** The [try] block of [_safe_remove_file]. *)
Definition one_attempt (p : path) : M cstate ctl :=
  liftW (OS.chmod p) ;; liftW (OS.remove p) ;; ret Return.

(** The classes that [_safe_remove_file] catches. *)
Definition retried (e : exn) : bool :=
  is_PermissionError e || is_FileNotFoundError e.

(** One iteration of the loop of [_safe_remove_file]. *)
Definition file_attempt (self : policy) (p : path) (attempt : nat)
  : M cstate ctl :=
  try_except_when retried (one_attempt p)
    (fun e =>
       if attempt =? max_retries self - 1
       then raise e
       else liftW (OS.sleep (retry_delay self)) ;; ret Continue).

(** The system calls of [_safe_remove_file] on [p]. *)
Definition file_event (self : policy) (p : path) (ev : event) : Prop :=
  ev = Chmod p \/ ev = Remove p \/ ev = Sleep (retry_delay self).

(** An error that is neither a denied permission nor a missing file. *)
Definition io_error : exn := Exn OSError "[Errno 5] Input/output error" None.

(** Every removal of a file ends in an I/O error. *)
Definition remove_io_error : event -> nat -> option exn :=
  fun ev _ => match ev with Remove _ => Some io_error | _ => None end.

(** A computation is blind to the statistics when its result and the
    world it leaves depend on the world only. *)
Definition stats_blind {A} (m : M cstate A) : Prop :=
  forall s1 s2, cworld s1 = cworld s2 ->
    fst (m s1) = fst (m s2) /\ cworld (snd (m s1)) = cworld (snd (m s2)).

(** *** Directory trees *)

(** A tree of regular files and directories; the children of a directory
    are in the order in which the directory lists them. *)
#[local] Unset Elimination Schemes.
Inductive tree : Type :=
| TFile
| TDir (children : list (string * tree)).
#[local] Set Elimination Schemes.

(** Induction on a tree, with the property known of every child. *)
Fixpoint tree_induction (P : tree -> Prop) (Hfile : P TFile)
  (Hdir : forall cs, Forall (fun c => P (snd c)) cs -> P (TDir cs))
  (t : tree) : P t :=
  match t with
  | TFile => Hfile
  | TDir cs =>
      Hdir cs
        ((fix all (l : list (string * tree))
            : Forall (fun c => P (snd c)) l :=
            match l with
            | [] => Forall_nil _
            | c :: l' =>
                Forall_cons c (tree_induction P Hfile Hdir (snd c)) (all l')
            end) cs)
  end.

(** How many directory levels lie below the root of the tree. *)
Fixpoint nesting (t : tree) : nat :=
  match t with
  | TFile => 0
  | TDir cs =>
      fold_right
        (fun c acc =>
           Nat.max match snd c with
                   | TFile => 0
                   | TDir _ => S (nesting (snd c))
                   end acc)
        0 cs
  end.

(** The paths of the tree rooted at [p], children before their parent. *)
Fixpoint postorder (p : path) (t : tree) : list path :=
  match t with
  | TFile => [p]
  | TDir cs =>
      flat_map (fun c => postorder (os_path_join p (fst c)) (snd c)) cs ++ [p]
  end.


(** The paths that a trace removes, in order. *)
Definition removals (evs : list event) : list path :=
  flat_map (fun ev => match ev with
                      | Remove q | Rmdir q => [q]
                      | _ => []
                      end) evs.

(** The filesystem [f] holds the tree [t] at [p]. *)
#[local] Unset Elimination Schemes.
Inductive holds (f : path -> option entry) : path -> tree -> Prop :=
| holds_file p :
    f p = Some EFile -> holds f p TFile
| holds_dir p names cs :
    f p = Some (EDir names) ->
    listing f p names = map fst cs ->
    NoDup (map fst cs) ->
    Forall (fun c => holds f (os_path_join p (fst c)) (snd c)) cs ->
    holds f p (TDir cs).
#[local] Set Elimination Schemes.

(** [q] is [p] or lies below it. *)
Definition under (p q : path) : Prop := exists rest, q = p ++ rest.

(** No system call fails in this world. *)
Definition fault_free (w : world) : Prop := forall ev k, faults w ev k = None.




(** [a] comes before [b] in the list. *)
Definition before {A} (a b : A) (l : list A) : Prop :=
  exists l1 l2 l3, l = l1 ++ a :: l2 ++ b :: l3.

(** A scratch directory [tmp/d] with a file, and a sub-directory [sub]
    that holds two files. *)
Definition sample_tree : tree :=
  TDir [("notes.txt"%string, TFile);
        ("sub"%string, TDir [("a"%string, TFile); ("b"%string, TFile)])].

(** The filesystem that holds [sample_tree] at [tmp/d]. *)
Definition sample_files : path -> option entry :=
  fun q =>
    if path_eq_dec q ["tmp"%string] then Some (EDir ["d"%string])
    else if path_eq_dec q ["tmp"; "d"]%string
         then Some (EDir ["notes.txt"; "sub"]%string)
    else if path_eq_dec q ["tmp"; "d"; "notes.txt"]%string then Some EFile
    else if path_eq_dec q ["tmp"; "d"; "sub"]%string
         then Some (EDir ["a"; "b"]%string)
    else if path_eq_dec q ["tmp"; "d"; "sub"; "a"]%string then Some EFile
    else if path_eq_dec q ["tmp"; "d"; "sub"; "b"]%string then Some EFile
    else None.

(** *** The native delete on a tree *)

(** The system calls of [shutil.rmtree] on the tree. *)
Fixpoint native_events (p : path) (t : tree) : list event :=
  match t with
  | TFile => [Remove p]
  | TDir cs =>
      Scandir p
        :: flat_map (fun c => native_events (os_path_join p (fst c)) (snd c))
             cs
        ++ [Rmdir p]
  end.

(** From [w] to [w'] exactly the paths [gone] were removed, by the system
    calls [evs]; faults and recursion limit are as before. *)
Definition world_removes (w w' : world) (gone : list path)
  (evs : list event) : Prop :=
  (forall q, In q gone -> files w' q = None)
  /\ (forall q, ~ In q gone -> files w' q = files w q)
  /\ trace w' = trace w ++ evs
  /\ faults w' = faults w
  /\ rlimit w' = rlimit w.

(** Whatever of the state is not the world is the same in [s] and [s']. *)
Definition same_frame {S : Type} `{HasWorld S} (s s' : S) : Prop :=
  forall (X : Type) (g : S -> X),
    (forall s0 w, g (update s0 w) = g s0) -> g s' = g s.

(** The body of the loop of [_rmtree_unsafe] over the scanned entries. *)
Definition rmtree_child_step {S : Type} `{HasWorld S} (fuel : nat)
  (onerror : osfunc -> path -> exn -> M S unit) (p : path) (name : string)
  : M S unit :=
  let fullname := os_path_join p name in
  is_dir <- liftW (OS.path_isdir fullname) ;;
  if (is_dir : bool) then Shutil._rmtree_unsafe fuel onerror fullname
  else try_except_when is_OSError (liftW (OS.remove fullname))
         (fun e => onerror os_unlink fullname e).

(** The native delete removes the directory tree [t], given [fuel] nested
    calls, and never calls its error handler. *)
Definition natively_removed {S : Type} `{HasWorld S}
  (onerror : osfunc -> path -> exn -> M S unit) (fuel : nat) (t : tree)
  : Prop :=
  match t with
  | TFile => True
  | TDir _ =>
      forall p s,
        fault_free (view s) ->
        holds (files (view s)) p t ->
        nesting t < fuel ->
        exists s',
          Shutil._rmtree_unsafe fuel onerror p s = (Ok tt, s')
          /\ world_removes (view s) (view s') (postorder p t)
               (native_events p t)
          /\ same_frame s s'
  end.

(** *** Creation of the directory *)

(** The prefix that [PlatformAdapter.create_safe_tempdir] hands to
    [tempfile.mkdtemp]. *)
Definition effective_prefix (self : PlatformAdapter.t) (prefix : string)
  : string :=
  if PlatformAdapter._is_windows self
     && PlatformAdapter.windows_cleanup_importable self
     && (20 <? String.length prefix)
  then substring 0 20 prefix
  else prefix.

(** *** What teardown leaves alone *)

(** The system call acts at [p] or below it. *)
Definition inside (p : path) (ev : event) : Prop :=
  match event_path ev with
  | None => True
  | Some q => under p q
  end.

(** From [w] to [w'] nothing happened outside [p]: every path that is not
    [p] or below it is as before, every path holds what it held or
    nothing, faults and recursion limit are as before, and the system
    calls made act at [p] or below it. *)
Definition confined (p : path) (w w' : world) : Prop :=
  (forall q, ~ under p q -> files w' q = files w q)
  /\ (forall q, files w' q = files w q \/ files w' q = None)
  /\ faults w' = faults w
  /\ rlimit w' = rlimit w
  /\ exists evs, trace w' = trace w ++ evs /\ Forall (inside p) evs.

(** Whatever [m] does, the worlds before and after are related by [R]. *)
Definition keeps {S : Type} `{HasWorld S} (R : world -> world -> Prop) {A}
  (m : M S A) : Prop :=
  forall s r s', m s = (r, s') -> R (view s) (view s').

(** *** Retries *)

(** The [try] block of [_safe_remove_dir]. *)
Definition dir_attempt (self : policy) (p : path) (attempt : nat)
  : M cstate ctl :=
  try_except_when is_OSError (liftW (OS.rmdir p) ;; ret Return)
    (fun e =>
       if attempt =? max_retries self - 1
       then raise e
       else liftW (OS.sleep (retry_delay self)) ;; ret Continue).

(** The system calls of [_safe_remove_dir] on [p]. *)
Definition dir_event (self : policy) (p : path) (ev : event) : Prop :=
  ev = Rmdir p \/ ev = Sleep (retry_delay self).

(** The system call behind a function that [shutil.rmtree] hands to its
    error handler. *)
Definition osfunc_event (func : osfunc) (p : path) : event :=
  match func with
  | os_scandir => Scandir p
  | os_unlink => Remove p
  | os_rmdir => Rmdir p
  end.

(** One iteration of the loop of [retry_on_error]. *)
Definition retry_attempt (self : policy) (func : osfunc) (p : path)
  (attempt : nat) : M cstate ctl :=
  try_except
    (liftW (OS.sleep (retry_delay self)) ;;
     present <- liftW (OS.path_exists p) ;;
     (if (present : bool)
      then try_except (liftW (OS.chmod p)) (fun _ => ret tt)
      else ret tt) ;;
     liftW (call_osfunc func p) ;;
     bump_retries_used ;;
     ret Return)
    (fun retry_error =>
       if attempt =? max_retries self - 1
       then raise retry_error
       else ret Continue).

(** From [w] to [w'] no file changed, and only directories were listed. *)
Definition only_listed (w w' : world) : Prop :=
  files w' = files w
  /\ exists evs,
       trace w' = trace w ++ evs
       /\ Forall (fun ev => exists q, ev = Listdir q) evs.

(** A cleaner that allows no retry. *)
Definition no_retry_policy : policy := mkPolicy 0 100 100.

(** The [try] block of one iteration of [retry_on_error]. *)
Definition retry_try (self : policy) (func : osfunc) (p : path)
  : M cstate ctl :=
  liftW (OS.sleep (retry_delay self)) ;;
  present <- liftW (OS.path_exists p) ;;
  (if (present : bool)
   then try_except (liftW (OS.chmod p)) (fun _ => ret tt)
   else ret tt) ;;
  liftW (call_osfunc func p) ;;
  bump_retries_used ;;
  ret Return.

(** The system calls of [retry_on_error] for [func] on [p]. *)
Definition retry_event (self : policy) (func : osfunc) (p : path)
  (ev : event) : Prop :=
  ev = Sleep (retry_delay self) \/ ev = Chmod p \/ ev = osfunc_event func p.

(** The statistics after one more successful retry. *)
Definition one_more_retry (st : cleanup_stats) : cleanup_stats :=
  mkStats (files_removed st) (dirs_removed st) (retries_used st + 1)
    (errors_encountered st).

(** Every fault of the world is an [OSError]. *)
Definition os_faults (w : world) : Prop :=
  forall ev k e, faults w ev k = Some e -> is_OSError e = true.

(** Started where every fault is an [OSError], [m] keeps it so, leaves the
    statistics alone, and raises only exceptions that satisfy [Q]. *)
Definition quietly (Q : exn -> Prop) {A} (m : M cstate A) : Prop :=
  forall s r s',
    os_faults (cworld s) -> m s = (r, s') ->
    os_faults (cworld s') /\ stats s' = stats s
    /\ forall e, r = Raise e -> Q e.

Definition os_error (e : exn) : Prop := is_OSError e = true.

Definition recursion_limit (e : exn) : Prop := e = recursion_error.

(** *** Handles *)

(** The error of a second [__enter__] or [create] on a handle that holds
    a directory. *)
Definition already_created : exn :=
  Exn RuntimeError "Temporary directory already created" None.

(** *** Patches *)

(** The calls a program can make on the patch manager. *)
Inductive patch_call : Type :=
| CallApply
| CallRemove
| CallIsPatched
| CallAuto.

Definition do_call (platform_system : string) (c : patch_call)
  : M WindowsPatches.pstate bool :=
  match c with
  | CallApply => apply_windows_patches
  | CallRemove => remove_windows_patches
  | CallIsPatched => is_windows_patched
  | CallAuto => auto_patch_if_needed platform_system
  end.

Definition run_calls (platform_system : string) (calls : list patch_call)
  : M WindowsPatches.pstate unit :=
  for_each calls (fun c => do_call platform_system c ;; ret tt).

(** The state right after the manager is built. *)
Definition fresh_manager (platform_system : string) (current : class_object)
  : WindowsPatches.pstate :=
  WindowsPatches.mkP (WindowsPatches.__init__ platform_system) current.

Definition on_windows (platform_system : string) : bool :=
  String.eqb (lower platform_system) "windows".

(** The patch state is one of the two that the manager of a host
    [platform_system] moves between when the class in place at the start
    was [c0]. *)
Definition tracked (platform_system : string) (c0 : class_object)
  (s : WindowsPatches.pstate) : Prop :=
  s = fresh_manager platform_system c0
  \/ (on_windows platform_system = true
      /\ s = WindowsPatches.mkP
               (WindowsPatches.mk true (Some c0) true)
               SafeTemporaryDirectory_class).

(** A body under [patch_context] that only looks at the patch state. *)
Definition reads_class : M WindowsPatches.pstate class_object :=
  fun s => (Ok (WindowsPatches.tempfile_TemporaryDirectory s), s).

(** *** Commands *)

(** The command for a script or program found at [p]: PowerShell for a
    [.ps1] script, [cmd.exe] for a [.cmd] or [.bat] file, the path itself
    otherwise; the extension is compared without regard to case. *)
Definition by_extension (p : string) : list string :=
  (if endswith (lower p) ".ps1" then
     ["powershell.exe"; "-ExecutionPolicy"; "Bypass"; "-File"; p]
   else if endswith (lower p) ".cmd" || endswith (lower p) ".bat" then
     ["cmd.exe"; "/c"; p]
   else [p])%string.

(** The keyword arguments of the [where claude] call. *)
Definition where_kwargs : kwargs :=
  [("capture_output", PyBool true); ("text", PyBool true);
   ("timeout", PyInt 5); ("creationflags", CREATE_NO_WINDOW)]%string.

(** The call of [validate_claude_availability]. *)
Definition version_args : list string := ["claude"; "--version"]%string.

Definition version_kwargs : kwargs :=
  [("capture_output", PyBool true); ("text", PyBool true);
   ("timeout", PyInt 10)]%string.

(** A Windows host where only [CLAUDE_PS1_PATH] leads to the CLI, a script
    whose extension is in capitals; every process fails to start. *)
Definition override_host : host :=
  mkHost
    (fun k => if String.eqb k "CLAUDE_PS1_PATH"
              then Some "C:\tools\claude.PS1"%string else None)
    (fun p => String.eqb p "C:\tools\claude.PS1")
    (fun a b => (a ++ "\" ++ b)%string)
    (fun s => s)
    (fun _ => None)
    (fun _ _ => Raised (Builtin (Exn FileNotFoundError "not found" None)))
    (fun _ => false)
    "run"%string
    (fun s => s)
    (fun s => [s])
    (fun _ => "[...]"%string).

(** A host in test mode where every process exits with status 1. *)
Definition test_mode_host : host :=
  mkHost
    (fun k => if String.eqb k "CLAUDE_TEST_MODE"
              then Some "TRUE"%string else None)
    (fun _ => false)
    (fun a b => (a ++ "\" ++ b)%string)
    (fun s => s)
    (fun _ => None)
    (fun _ _ => Returned (mkCompleted 1 "" "boom"))
    (fun _ => false)
    "run"%string
    (fun s => s)
    (fun s => [s])
    (fun _ => "[...]"%string).

(** *** The second strategy on a tree *)

Definition is_tdir (t : tree) : bool :=
  match t with TDir _ => true | TFile => false end.

(** The files of the tree, and its directories without the root. *)
Fixpoint count_files (t : tree) : nat :=
  match t with
  | TFile => 1
  | TDir cs => fold_right (fun c acc => count_files (snd c) + acc) 0 cs
  end.

Fixpoint count_dirs (t : tree) : nat :=
  match t with
  | TFile => 0
  | TDir cs =>
      fold_right
        (fun c acc =>
           match snd c with
           | TFile => 0
           | TDir _ => S (count_dirs (snd c))
           end + acc)
        0 cs
  end.

Definition add_counts (st : cleanup_stats) (nf nd : nat) : cleanup_stats :=
  mkStats (files_removed st + nf) (dirs_removed st + nd) (retries_used st)
    (errors_encountered st).

(** What the first pass of [_force_rmtree] does at one directory. *)
Definition make_writable (root : path) (dirs files_ : list string)
  : M cstate unit :=
  for_each files_ (fun file =>
    let file_path := os_path_join root file in
    try_except (liftW (OS.chmod file_path) ;; bump_files_removed)
      (fun _ => ret tt)) ;;
  for_each dirs (fun dir =>
    let dir_path := os_path_join root dir in
    try_except (liftW (OS.chmod dir_path) ;; bump_dirs_removed)
      (fun _ => ret tt)).

(** The system calls of the first pass on the tree: below each directory
    first, then its files and its sub-directories. *)
Fixpoint walk_events (p : path) (t : tree) : list event :=
  match t with
  | TFile => []
  | TDir cs =>
      Scandir p
        :: flat_map (fun c => walk_events (os_path_join p (fst c)) (snd c)) cs
        ++ map (fun c => Chmod (os_path_join p (fst c)))
             (filter (fun c => negb (is_tdir (snd c))) cs)
        ++ map (fun c => Chmod (os_path_join p (fst c)))
             (filter (fun c => is_tdir (snd c)) cs)
  end.

(** The state after a pass that changed no file: new counters, more
    trace. *)
Definition after_pass (s : cstate) (nf nd : nat) (evs : list event)
  : cstate :=
  mkCState (add_counts (stats s) nf nd)
    (mkWorld (files (cworld s)) (trace (cworld s) ++ evs)
       (faults (cworld s)) (rlimit (cworld s))).

(** The first pass walks the tree [t], given [fuel] nested calls. *)
Definition made_writable (fuel : nat) (t : tree) : Prop :=
  match t with
  | TFile => True
  | TDir _ =>
      forall p s,
        fault_free (cworld s) ->
        holds (files (cworld s)) p t ->
        nesting t < fuel ->
        Shutil.walk_bottom_up fuel p make_writable s
        = (Ok tt,
           after_pass s (count_files t) (count_dirs t) (walk_events p t))
  end.

(** The names under which the CLI is looked for in a directory, in the
    order of preference. *)
Definition claude_file_names : list string :=
  ["claude.ps1"; "claude.CMD"; "claude.bat"]%string.

(** The directory [dir] holds none of them. *)
Definition holds_no_claude (h : host) (dir : string) : Prop :=
  forall file, In file claude_file_names ->
    exists_path h (join_path h dir file) = false.

(** A host with one npm directory, which holds the two kinds of script. *)
Definition npm_host : host :=
  mkHost
    (fun _ => None)
    (fun p => String.eqb p "C:\Program Files\nodejs"
              || String.eqb p "C:\Program Files\nodejs\claude.ps1"
              || String.eqb p "C:\Program Files\nodejs\claude.CMD")
    (fun a b => (a ++ "\" ++ b)%string)
    (fun s => s)
    (fun _ => None)
    (fun _ _ => Raised (Builtin (Exn FileNotFoundError "not found" None)))
    (fun _ => false)
    "run"%string
    (fun s => s)
    (fun s => [s])
    (fun _ => "[...]"%string).

(** The prefix that [SafeTemporaryDirectory.__init__] builds from its
    arguments. *)
Definition built_prefix (suffix prefix : option string) : string :=
  (match prefix with Some p => p | None => "tmp" end
   ++ match suffix with Some s => s | None => "" end)%string.

(** *** Retry loops, attempt by attempt *)

(** The state after [time.sleep(delay)]. *)
Definition slept (delay : nat) (s : cstate) : cstate :=
  mkCState (stats s) (record_event (Sleep delay) (cworld s)).

(** The state in which attempt [i] (from 0) of a retry loop starts: each
    earlier attempt ran [body] and was followed by a sleep. *)
Fixpoint attempt_start (body : M cstate ctl) (delay : nat) (i : nat)
  (s : cstate) : cstate :=
  match i with
  | 0 => s
  | S i' => attempt_start body delay i' (slept delay (snd (body s)))
  end.

(** The system calls of a run of attempts, with a sleep between two
    attempts. *)
Fixpoint with_sleeps (delay : nat) (blocks : list (list event))
  : list event :=
  match blocks with
  | [] => []
  | b :: rest =>
      match rest with
      | [] => b
      | _ :: _ => b ++ Sleep delay :: with_sleeps delay rest
      end
  end.

(** A loop [for attempt in range(max): try: body  except <catches>: raise
    at the last attempt, else sleep] went from [s] to the outcome [r] in
    [s'] by [k] attempts: every attempt but the last raised an exception
    of a caught class, the last attempt gave the outcome, and an exception
    of a caught class is the outcome only when the [max] attempts are used
    up. *)
Definition ran_attempts (catches : exn -> bool) (body : M cstate ctl)
  (delay max : nat) (s : cstate) (r : result unit) (s' : cstate) (k : nat)
  : Prop :=
  k <= max
  /\ (0 < max -> 0 < k)
  /\ (k = 0 -> r = Ok tt /\ s' = s)
  /\ (forall i, S i < k ->
        exists e, fst (body (attempt_start body delay i s)) = Raise e
                  /\ catches e = true)
  /\ (0 < k ->
      body (attempt_start body delay (k - 1) s)
      = (match r with Ok _ => Ok Return | Raise e => Raise e end, s'))
  /\ (forall e, r = Raise e -> catches e = false \/ k = max).

(** An exception of a class that the loop does not catch ends the run in
    the attempt where it occurs. *)
Definition raised_at_once (catches : exn -> bool) (body : M cstate ctl)
  (delay : nat) (s : cstate) (r : result unit) (k : nat) : Prop :=
  forall i e,
    i < k ->
    fst (body (attempt_start body delay i s)) = Raise e ->
    catches e = false ->
    S i = k /\ r = Raise e.

(** The [try] block of [_safe_remove_dir]. *)
Definition dir_try (p : path) : M cstate ctl :=
  liftW (OS.rmdir p) ;; ret Return.

(** * Properties *)

(** ** Teardown of a path that does not exist *)

Section Nonexistent.

Import WindowsFileSystemCleaner.

(** The Windows engine checks [os.path.exists] first: success, and the
    cleaner and the world are untouched. *)
Lemma cleaner_safe_rmtree_nonexistent (self : policy) p ignore_errors s :
  files (cworld s) p = None ->
  safe_rmtree self p ignore_errors s = (Ok true, s).
Proof.
  intros Hp. destruct s as [st w]. simpl in Hp.
  unfold safe_rmtree, bind, liftW, OS.path_exists, exists_in. simpl.
  rewrite Hp. reflexivity.
Qed.

Lemma safe_windows_rmtree_nonexistent p ignore_errors w :
  files w p = None ->
  safe_windows_rmtree p ignore_errors w = (Ok true, w).
Proof.
  intros Hp. unfold safe_windows_rmtree.
  rewrite cleaner_safe_rmtree_nonexistent by exact Hp. reflexivity.
Qed.

(** [shutil.rmtree] on a path that does not exist raises, whatever the
    faults: the scan of the directory cannot succeed. *)
Lemma rmtree_nonexistent_raises p (w : world) :
  files w p = None ->
  exists e w', Shutil.rmtree p Shutil.onerror_raise w = (Raise e, w').
Proof.
  intros Hp. unfold Shutil.rmtree. simpl.
  destruct (rlimit w) as [|n]; simpl.
  - eexists _, _. reflexivity.
  - unfold bind, try_except_when, try_except, liftW, OS.scandir,
      OS.read_dir, OS.syscall. simpl.
    destruct (faults w (Scandir p) (attempts_so_far w (Scandir p)))
      as [e|].
    + unfold Shutil.onerror_raise, raise.
      destruct (is_OSError e); eexists _, _; reflexivity.
    + rewrite Hp. simpl. eexists _, _. reflexivity.
Qed.

End Nonexistent.

(** C1.  Teardown of a path that does not exist returns [True] with no
    side effect on the Windows branch only.  On the POSIX branch, and on
    the Windows branch without the cleanup module, [shutil.rmtree] is
    called with no existence check and raises: teardown returns [False]
    under [ignore_errors=True] and raises under [ignore_errors=False]. *)
Theorem safe_rmtree_nonexistent_by_branch (p : path) (w : world) :
  files w p = None ->
  PlatformAdapter.safe_rmtree PlatformAdapter.windows p true w = (Ok true, w)
  /\ PlatformAdapter.safe_rmtree PlatformAdapter.windows p false w
     = (Ok true, w)
  /\ (forall self,
        PlatformAdapter._is_windows self = false
        \/ PlatformAdapter.windows_cleanup_importable self = false ->
        (exists w', PlatformAdapter.safe_rmtree self p true w = (Ok false, w'))
        /\ (exists e w',
              PlatformAdapter.safe_rmtree self p false w = (Raise e, w'))).
Proof.
  intros Hp. split; [|split].
  - apply safe_windows_rmtree_nonexistent; exact Hp.
  - apply safe_windows_rmtree_nonexistent; exact Hp.
  - intros self Hbranch.
    assert (Hstd : forall ie,
      PlatformAdapter.safe_rmtree self p ie w
      = PlatformAdapter.standard_rmtree p ie w).
    { intros ie. unfold PlatformAdapter.safe_rmtree.
      destruct Hbranch as [-> | ->]; simpl; [reflexivity|].
      destruct (PlatformAdapter._is_windows self); reflexivity. }
    destruct (rmtree_nonexistent_raises p w Hp) as (e & w' & Hr).
    split.
    + exists w'. rewrite Hstd.
      unfold PlatformAdapter.standard_rmtree, try_except, bind.
      rewrite Hr. reflexivity.
    + exists e, w'. rewrite Hstd.
      unfold PlatformAdapter.standard_rmtree, try_except, bind.
      rewrite Hr. reflexivity.
Qed.

Lemma safe_rmtree_nonexistent_by_branch_witness :
  PlatformAdapter.safe_rmtree PlatformAdapter.windows
    ["tmp"; "non_existent_dir_12345"]%string true (quiet_world empty_tmp)
  = (Ok true, quiet_world empty_tmp)
  /\ exists w',
       PlatformAdapter.safe_rmtree PlatformAdapter.posix
         ["tmp"; "non_existent_dir_12345"]%string true (quiet_world empty_tmp)
       = (Ok false, w').
Proof.
  destruct (@safe_rmtree_nonexistent_by_branch
              ["tmp"; "non_existent_dir_12345"]%string
              (quiet_world empty_tmp) eq_refl) as (Hw & _ & Hposix).
  split; [exact Hw|].
  exact (proj1 (Hposix PlatformAdapter.posix (or_introl eq_refl))).
Defined.

(** The POSIX adapter on a missing path, evaluated: it reports failure
    after one attempted directory scan. *)
Example posix_safe_rmtree_missing_path :
  let p := ["tmp"; "non_existent_dir_12345"]%string in
  let '(r, w') := PlatformAdapter.safe_rmtree PlatformAdapter.posix p true
                    (quiet_world empty_tmp) in
  r = Ok false /\ trace w' = [Scandir p]
  /\ fst (PlatformAdapter.safe_rmtree PlatformAdapter.posix p false
            (quiet_world empty_tmp)) = Raise (OS.ENOENT p).
Proof. vm_compute. repeat split. Qed.

(** ** The outcome of a failed teardown *)

Section FailureOutcome.

Import WindowsFileSystemCleaner.

Variable self : policy.

Lemma cleaner_safe_rmtree_never_raises p s :
  exists b s', safe_rmtree self p true s = (Ok b, s').
Proof.
  unfold safe_rmtree, bind, try_except, liftW, OS.path_exists. simpl.
  destruct (negb (exists_in (files (cworld s)) p)).
  - eexists _, _; reflexivity.
  - destruct (_rmtree_with_retries self p _) as [[[]|e1] s1].
    + eexists _, _; reflexivity.
    + destruct (_force_rmtree p s1) as [[[]|e2] s2].
      * eexists _, _; reflexivity.
      * destruct (_manual_rmtree self p 0 s2) as [[[]|e3] s3];
          eexists _, _; reflexivity.
Qed.


End FailureOutcome.

Lemma standard_rmtree_never_raises p w :
  exists b w', PlatformAdapter.standard_rmtree p true w = (Ok b, w').
Proof.
  unfold PlatformAdapter.standard_rmtree, try_except, bind.
  destruct (Shutil.rmtree p Shutil.onerror_raise w) as [[[]|e] w'];
    eexists _, _; reflexivity.
Qed.

Lemma adapter_safe_rmtree_never_raises self p w :
  exists b w', PlatformAdapter.safe_rmtree self p true w = (Ok b, w').
Proof.
  unfold PlatformAdapter.safe_rmtree.
  destruct (negb _); [apply standard_rmtree_never_raises|].
  destruct (PlatformAdapter.windows_cleanup_importable self);
    [|apply standard_rmtree_never_raises].
  unfold safe_windows_rmtree.
  destruct (cleaner_safe_rmtree_never_raises default_policy p
              (mkCState zero_stats w)) as (b & s' & ->).
  eexists _, _; reflexivity.
Qed.



(** A strategy that returns normally ends the chain, whatever is left on
    disk.  When no directory can be listed, the first two strategies
    raise and the manual strategy returns at its listing error: teardown
    returns [True] and the directory is still in place. *)
Example listing_denied_reports_success :
  let p := ["tmp"; "d"]%string in
  let '(r, s') := WindowsFileSystemCleaner.safe_rmtree default_policy p true
                    (mkCState zero_stats
                       (mkWorld one_file_tree [] listing_denied 1000)) in
  r = Ok true
  /\ files (cworld s') p = Some (EDir ["f"%string])
  /\ errors_encountered (stats s') = 0.
Proof. vm_compute. repeat split. Qed.

(** ** The scoped handles *)

Lemma pair_eta {A B} (s : A * B) : (fst s, snd s) = s.
Proof. destruct s; reflexivity. Qed.

Section Handles.

Import SafeTemporaryDirectory.

(** What [cleanup] does to a handle that holds a directory. *)
Lemma cleanup_live (h : t) (w : world) (n : path) :
  name h = Some n ->
  cleanup (h, w)
  = (let '(r, w') := ops_safe_rmtree (platform_adapter h) n
                       (ignore_cleanup_errors h) w in
     (match r with
      | Ok true => Ok tt
      | Ok false =>
          if ignore_cleanup_errors h then Ok tt
          else Raise (cleanup_failed n)
      | Raise e => if ignore_cleanup_errors h then Ok tt else Raise e
      end,
      (mk (prefix h) (dir h) (ignore_cleanup_errors h) None
         (platform_adapter h), w'))).
Proof.
  destruct h as [pre di ign nm pa]. simpl. intros ->.
  unfold cleanup, bind, get_self. simpl.
  unfold try_finally, try_except, bind, liftW, set_name, get_self,
    set_self, bind. simpl.
  destruct (ops_safe_rmtree pa n ign w) as [[[|]|e] w'];
    destruct ign; reflexivity.
Qed.

Lemma cleanup_torn_down (h : t) (w : world) :
  name h = None -> cleanup (h, w) = (Ok tt, (h, w)).
Proof.
  intros Hn. unfold cleanup, bind, get_self. simpl. rewrite Hn.
  reflexivity.
Qed.

Lemma del_torn_down (h : t) (w : world) :
  name h = None -> __del__ (h, w) = (Ok tt, (h, w)).
Proof.
  intros Hn. unfold __del__, bind, get_self. simpl. rewrite Hn.
  reflexivity.
Qed.

Lemma cleanup_clears (h : t) (w : world) :
  name (fst (snd (cleanup (h, w)))) = None.
Proof.
  destruct (name h) as [n|] eqn:Hn.
  - rewrite (cleanup_live h w Hn).
    destruct (ops_safe_rmtree _ n _ w) as [r w']. reflexivity.
  - rewrite cleanup_torn_down by exact Hn. exact Hn.
Qed.

End Handles.

Lemma tempdir_cleanup_torn_down (d : SafeTempDir.t) (w : world) :
  SafeTempDir.temp_dir d = None ->
  SafeTempDir.cleanup (d, w) = (Ok true, (d, w)).
Proof.
  intros Hd. unfold SafeTempDir.cleanup, bind, get_self. simpl.
  rewrite Hd. reflexivity.
Qed.

(** With the platform adapter of the repository, [SafeTempDir.cleanup]
    always leaves [temp_dir] empty. *)
Lemma tempdir_cleanup_clears (pa : PlatformAdapter.t) prefix td (w : world) :
  SafeTempDir.temp_dir
    (fst (snd (SafeTempDir.cleanup
                 (SafeTempDir.mk prefix td (PlatformAdapter.ops pa), w))))
  = None.
Proof.
  unfold SafeTempDir.cleanup, bind, get_self. simpl.
  destruct td as [d|]; [|reflexivity].
  unfold try_except, bind, liftW, SafeTempDir.set_temp_dir, get_self,
    set_self, bind. simpl.
  destruct (adapter_safe_rmtree_never_raises pa d w) as (b & w' & ->).
  reflexivity.
Qed.

(** C8.  On a handle that is torn down ([name], resp. [temp_dir], is
    [None]), [cleanup], [__exit__] and [__del__] return normally and leave
    the handle and the world as they are: no teardown is invoked.  A
    handle is in that state after any earlier [cleanup]. *)
Theorem cleanup_again_is_noop (h : SafeTemporaryDirectory.t)
  (d : SafeTempDir.t) (w : world) :
  SafeTemporaryDirectory.name h = None ->
  SafeTempDir.temp_dir d = None ->
  SafeTemporaryDirectory.cleanup (h, w) = (Ok tt, (h, w))
  /\ SafeTemporaryDirectory.__exit__ (h, w) = (Ok tt, (h, w))
  /\ SafeTemporaryDirectory.__del__ (h, w) = (Ok tt, (h, w))
  /\ SafeTempDir.cleanup (d, w) = (Ok true, (d, w))
  /\ SafeTempDir.__exit__ (d, w) = (Ok tt, (d, w))
  /\ SafeTempDir.__del__ (d, w) = (Ok tt, (d, w))
  /\ (forall h0 w0,
        let s1 := snd (SafeTemporaryDirectory.cleanup (h0, w0)) in
        SafeTemporaryDirectory.cleanup s1 = (Ok tt, s1))
  /\ (forall pa prefix td w0,
        let s1 := snd (SafeTempDir.cleanup
                         (SafeTempDir.mk prefix td (PlatformAdapter.ops pa),
                          w0)) in
        SafeTempDir.cleanup s1 = (Ok true, s1)).
Proof.
  intros Hh Hd.
  repeat match goal with |- _ /\ _ => split end.
  - apply cleanup_torn_down; exact Hh.
  - apply cleanup_torn_down; exact Hh.
  - apply del_torn_down; exact Hh.
  - apply tempdir_cleanup_torn_down; exact Hd.
  - unfold SafeTempDir.__exit__, bind.
    rewrite tempdir_cleanup_torn_down by exact Hd. reflexivity.
  - unfold SafeTempDir.__del__, bind, get_self. simpl. rewrite Hd.
    reflexivity.
  - intros h0 w0 s1. rewrite <- (pair_eta s1).
    apply cleanup_torn_down. apply cleanup_clears.
  - intros pa prefix td w0 s1. rewrite <- (pair_eta s1).
    apply tempdir_cleanup_torn_down. apply tempdir_cleanup_clears.
Qed.

Lemma cleanup_again_is_noop_witness :
  let h := SafeTemporaryDirectory.__init__ None None None true posix_ops in
  SafeTemporaryDirectory.cleanup (h, quiet_world one_file_tree)
  = (Ok tt, (h, quiet_world one_file_tree)).
Proof.
  exact (proj1 (@cleanup_again_is_noop
                  (SafeTemporaryDirectory.__init__ None None None true
                     posix_ops)
                  (SafeTempDir.__init__ "claude_temp_" posix_ops)
                  (quiet_world one_file_tree) eq_refl eq_refl)).
Defined.

(** C10.  [SafeTemporaryDirectory.cleanup] leaves [name] at [None]
    whatever the teardown returned or raised; the world it leaves is the
    world of one call of the adapter's [safe_rmtree] (of none when the
    handle held no directory), and any later [cleanup], [__exit__] or
    [__del__] changes neither the handle nor the world. *)
Theorem cleanup_always_clears_name (h : SafeTemporaryDirectory.t)
  (w : world) (later : list later_call) :
  let s1 := snd (SafeTemporaryDirectory.cleanup (h, w)) in
  SafeTemporaryDirectory.name (fst s1) = None
  /\ snd s1
     = match SafeTemporaryDirectory.name h with
       | None => w
       | Some n =>
           snd (ops_safe_rmtree (SafeTemporaryDirectory.platform_adapter h) n
                  (SafeTemporaryDirectory.ignore_cleanup_errors h) w)
       end
  /\ run_later later s1 = (Ok tt, s1).
Proof.
  intros s1.
  assert (Hn : SafeTemporaryDirectory.name (fst s1) = None)
    by apply cleanup_clears.
  split; [exact Hn|split].
  - subst s1. destruct (SafeTemporaryDirectory.name h) as [n|] eqn:Hh.
    + rewrite (cleanup_live h w Hh).
      destruct (ops_safe_rmtree _ n _ w) as [r w']. reflexivity.
    + rewrite cleanup_torn_down by exact Hh. reflexivity.
  - clearbody s1. destruct s1 as [h1 w1]. simpl in Hn.
    induction later as [|c later IH]; [reflexivity|].
    unfold run_later in *. simpl. unfold bind at 1.
    assert (Hc : match c with
                 | Close => SafeTemporaryDirectory.cleanup
                 | ContextExit => SafeTemporaryDirectory.__exit__
                 | Finalizer => SafeTemporaryDirectory.__del__
                 end (h1, w1) = (Ok tt, (h1, w1))).
    { destruct c;
        [apply cleanup_torn_down | apply cleanup_torn_down
         | apply del_torn_down]; exact Hn. }
    rewrite Hc. exact IH.
Qed.

(** ** A protected body that raises *)

Lemma enter_fresh (h : SafeTemporaryDirectory.t) (w w1 : world) (d : path) :
  SafeTemporaryDirectory.name h = None ->
  ops_create_safe_tempdir (SafeTemporaryDirectory.platform_adapter h)
    (SafeTemporaryDirectory.prefix h) w = (Ok d, w1) ->
  SafeTemporaryDirectory.__enter__ (h, w)
  = (Ok d,
     (SafeTemporaryDirectory.mk (SafeTemporaryDirectory.prefix h)
        (SafeTemporaryDirectory.dir h)
        (SafeTemporaryDirectory.ignore_cleanup_errors h) (Some d)
        (SafeTemporaryDirectory.platform_adapter h), w1)).
Proof.
  destruct h as [pre di ign nm pa]. simpl. intros -> Hc.
  unfold SafeTemporaryDirectory.__enter__, bind, get_self, liftW. simpl.
  rewrite Hc. reflexivity.
Qed.

(** C3, as the code has it.  When the protected body raises [e]:
    [SafeTemporaryDirectory] invokes the adapter's [safe_rmtree] exactly
    once, with [ignore_errors = ignore_cleanup_errors] ([True] by
    default); with [ignore_cleanup_errors=True] the caller gets [e] whatever
    the teardown did, with [ignore_cleanup_errors=False] a teardown failure
    is raised in place of [e].  [safe_temp_directory] always hands [e] to
    the caller, and invokes [safe_rmtree] with [ignore_errors=True] exactly
    once when [auto_cleanup] is set and the directory still exists at
    scope exit, and not at all otherwise. *)
Theorem body_exception_and_teardown (pa : adapter_ops) (B : Type)
  (body : path -> M world B) (e : exn) (pre : string) (di : option path)
  (ign auto_cleanup : bool) (w w1 w2 : world) (d : path) :
  ops_create_safe_tempdir pa pre w = (Ok d, w1) ->
  body d w1 = (Raise e, w2) ->
  with_statement SafeTemporaryDirectory.__enter__
    SafeTemporaryDirectory.__exit__ body
    (SafeTemporaryDirectory.mk pre di ign None pa, w)
  = (match ign, fst (ops_safe_rmtree pa d ign w2) with
     | true, _ => Raise e
     | false, Ok true => Raise e
     | false, Ok false => Raise (SafeTemporaryDirectory.cleanup_failed d)
     | false, Raise e' => Raise e'
     end,
     (SafeTemporaryDirectory.mk pre di ign None pa,
      snd (ops_safe_rmtree pa d ign w2)))
  /\ safe_temp_directory pa pre auto_cleanup body w
     = (Raise e,
        if auto_cleanup && truthy_path d && exists_in (files w2) d
        then snd (ops_safe_rmtree pa d true w2)
        else w2).
Proof.
  intros Hc Hb. split.
  - unfold with_statement, bind.
    rewrite (@enter_fresh (SafeTemporaryDirectory.mk pre di ign None pa)
               w w1 d eq_refl Hc). simpl.
    unfold try_finally, liftW. simpl. rewrite Hb.
    unfold SafeTemporaryDirectory.__exit__.
    rewrite (@cleanup_live
               (SafeTemporaryDirectory.mk pre di ign (Some d) pa) w2 d
               eq_refl). simpl.
    destruct ign;
      destruct (ops_safe_rmtree pa d _ w2) as [[[|]|e'] w3]; reflexivity.
  - unfold safe_temp_directory, safe_temp_directory_gen, try_finally,
      try_except, bind, liftW, set_self, get_self, raise, OS.path_exists.
    simpl. rewrite Hc. simpl. rewrite Hb. simpl.
    destruct d as [|c d']; simpl.
    + rewrite andb_false_r. reflexivity.
    + destruct auto_cleanup; simpl; [|reflexivity].
      destruct (exists_in (files w2) (c :: d')); simpl; [|reflexivity].
      destruct (ops_safe_rmtree pa (c :: d') true w2) as [[b|e'] w3];
        reflexivity.
Qed.

Lemma body_exception_and_teardown_witness :
  fst (with_statement SafeTemporaryDirectory.__enter__
         SafeTemporaryDirectory.__exit__ failing_body
         (SafeTemporaryDirectory.__init__ None None None true posix_ops,
          denied_world))
  = Raise test_exception
  /\ fst (safe_temp_directory posix_ops "exception_test_" true
            failing_body (quiet_world empty_tmp))
     = Raise test_exception.
Proof.
  split.
  - pose (r1 := ops_create_safe_tempdir posix_ops "tmp" denied_world).
    pose (d := ["tmp"; "tmp0"]%string).
    pose (r2 := failing_body d (snd r1)).
    exact (f_equal fst
             (proj1 (@body_exception_and_teardown posix_ops unit
                       failing_body test_exception "tmp" None true true
                       denied_world (snd r1) (snd r2) d
                       eq_refl eq_refl))).
  - pose (r1 := ops_create_safe_tempdir posix_ops "exception_test_"
                  (quiet_world empty_tmp)).
    pose (d := ["tmp"; "exception_test_0"]%string).
    pose (r2 := failing_body d (snd r1)).
    exact (f_equal fst
             (proj2 (@body_exception_and_teardown posix_ops unit
                       failing_body test_exception "exception_test_" None
                       true true (quiet_world empty_tmp) (snd r1) (snd r2) d
                       eq_refl eq_refl))).
Defined.

(** The claim of C3 read for every handle fails twice.  In strict mode
    ([ignore_cleanup_errors=False]) a teardown that fails replaces the
    body's exception; and [safe_temp_directory] invokes no teardown when
    the body has removed the directory itself (one call of [safe_rmtree]
    would have scanned the directory). *)
Lemma strict_teardown_replaces_body_exception :
  (let h := SafeTemporaryDirectory.__init__ None None None false
              posix_ops in
   fst (failing_body ["tmp"; "tmp0"]%string
          (snd (ops_create_safe_tempdir posix_ops "tmp" denied_world)))
   = Raise test_exception
   /\ fst (with_statement SafeTemporaryDirectory.__enter__
             SafeTemporaryDirectory.__exit__ failing_body (h, denied_world))
      = Raise locked
   /\ Raise (A := unit) locked <> Raise test_exception)
  /\ (let d := ["tmp"; "exception_test_0"]%string in
      let '(r, w') := safe_temp_directory posix_ops "exception_test_"
                        true self_removing_body (quiet_world empty_tmp) in
      r = Raise test_exception
      /\ trace w' = [Mkdtemp d; Rmdir d]
      /\ trace (snd (ops_safe_rmtree posix_ops d true w'))
         = [Mkdtemp d; Rmdir d; Scandir d]).
Proof.
  split.
  - cbv zeta. split; [vm_compute; reflexivity|].
    split; [vm_compute; reflexivity|]. discriminate.
  - vm_compute. repeat split.
Qed.

(** ** What a computation adds to the trace *)

Section Emits.

Context {S : Type} `{HasWorld S}.

Variable P : event -> Prop.

Lemma appends_refl s : appends P s s.
Proof. exists []. rewrite app_nil_r. auto. Qed.

Lemma appends_trans s1 s2 s3 :
  appends P s1 s2 -> appends P s2 s3 -> appends P s1 s3.
Proof.
  intros (e1 & H1 & F1) (e2 & H2 & F2). exists (e1 ++ e2).
  rewrite H2, H1, app_assoc. split; [reflexivity|].
  apply Forall_app; auto.
Qed.

Lemma emits_ret {A} (a : A) : emits P (ret a).
Proof. intros s r s' E. inversion E; subst. apply appends_refl. Qed.

Lemma emits_raise {A} e : emits P (raise (A := A) e).
Proof. intros s r s' E. inversion E; subst. apply appends_refl. Qed.

Lemma emits_bind {A B} (m : M S A) (k : A -> M S B) :
  emits P m -> (forall a, emits P (k a)) -> emits P (bind m k).
Proof.
  intros Hm Hk s r s' E. unfold bind in E.
  destruct (m s) as [[a|e] s1] eqn:Em.
  - eapply appends_trans; [eapply Hm; eauto | eapply Hk; eauto].
  - inversion E; subst. eapply Hm; eauto.
Qed.

Lemma emits_try_except {A} (m : M S A) h :
  emits P m -> (forall e, emits P (h e)) -> emits P (try_except m h).
Proof.
  intros Hm Hh s r s' E. unfold try_except in E.
  destruct (m s) as [[a|e] s1] eqn:Em.
  - inversion E; subst. eapply Hm; eauto.
  - eapply appends_trans; [eapply Hm; eauto | eapply Hh; eauto].
Qed.

Lemma emits_try_except_when {A} c (m : M S A) h :
  emits P m -> (forall e, emits P (h e)) -> emits P (try_except_when c m h).
Proof.
  intros Hm Hh. apply emits_try_except; [exact Hm|].
  intros e. destruct (c e); [apply Hh | apply emits_raise].
Qed.

Lemma emits_for_each {A} (xs : list A) body :
  (forall x, emits P (body x)) -> emits P (for_each xs body).
Proof.
  intros Hb. induction xs as [|x xs IH]; simpl.
  - apply emits_ret.
  - apply emits_bind; auto.
Qed.

Lemma emits_for_attempts (l : list nat) body :
  (forall a, emits P (body a)) -> emits P (for_attempts l body).
Proof.
  intros Hb. induction l as [|a l IH]; simpl.
  - apply emits_ret.
  - apply emits_bind; [apply Hb|]. intros [|]; [exact IH|apply emits_ret].
Qed.

Lemma emits_if {A} (b : bool) (m1 m2 : M S A) :
  emits P m1 -> emits P m2 -> emits P (if b then m1 else m2).
Proof. destruct b; auto. Qed.

(** A computation on the world, run inside a larger state. *)
Lemma emits_liftW {A} (m : M world A) :
  (forall w r w', m w = (r, w') ->
     exists evs, trace w' = trace w ++ evs /\ Forall P evs) ->
  emits P (liftW m).
Proof.
  intros Hm s r s' E. unfold liftW in E.
  destruct (m (view s)) as [r0 w'] eqn:Em. inversion E; subst.
  unfold appends. rewrite view_update. eapply Hm; eauto.
Qed.

Lemma emits_syscall {A} ev act :
  P ev -> emits P (liftW (OS.syscall (A := A) ev act)).
Proof.
  intros Hev. apply emits_liftW. intros w r w' E.
  unfold OS.syscall in E. exists [ev]. split; [|auto].
  destruct (faults w ev _).
  - inversion E; subst. reflexivity.
  - destruct (act (files w)) as [r0 f']. inversion E; subst. reflexivity.
Qed.

Lemma emits_query {A} (q : world -> A) :
  emits P (liftW (fun w => (Ok (q w), w))).
Proof.
  apply emits_liftW. intros w r w' E. inversion E; subst.
  exists []. rewrite app_nil_r. auto.
Qed.

End Emits.

(** ** The POSIX branch of the adapter *)

Lemma rmtree_unsafe_emits_native fuel (p : path) :
  emits (S := world) native_event
    (Shutil._rmtree_unsafe fuel Shutil.onerror_raise p).
Proof.
  revert p. induction fuel as [|fuel IH]; intros p; simpl.
  - apply emits_raise.
  - apply emits_bind.
    + apply emits_try_except_when.
      * apply emits_syscall. exact I.
      * intros e. apply emits_bind; [apply emits_raise|].
        intros _. apply emits_ret.
    + intros entries. apply emits_bind.
      * apply emits_for_each. intros name. apply emits_bind.
        -- apply (emits_query (S := world)).
        -- intros b. apply emits_if; [apply IH|].
           apply emits_try_except_when.
           ++ apply emits_syscall. exact I.
           ++ intros e. apply emits_raise.
      * intros _. apply emits_try_except_when.
        -- apply emits_syscall. exact I.
        -- intros e. apply emits_raise.
Qed.

(** C6, as the code has it.  Off Windows the adapter runs the native
    recursive delete and nothing else: its outcome decides the result at
    once ([False] under [ignore_errors], the native error otherwise), and
    the only system calls are those of the native delete, with no
    attribute change, no directory listing of the manual strategy and no
    retry delay. *)
Theorem posix_teardown_is_native_only (self : PlatformAdapter.t) (p : path)
  (ignore_errors : bool) (w : world) :
  PlatformAdapter._is_windows self = false ->
  PlatformAdapter.safe_rmtree self p ignore_errors w
  = (let '(r, w1) := Shutil.rmtree p Shutil.onerror_raise w in
     (match r with
      | Ok _ => Ok true
      | Raise e => if ignore_errors then Ok false else Raise e
      end, w1))
  /\ exists evs,
       trace (snd (PlatformAdapter.safe_rmtree self p ignore_errors w))
       = trace w ++ evs
       /\ Forall native_event evs.
Proof.
  intros Hw.
  assert (E : PlatformAdapter.safe_rmtree self p ignore_errors w
              = (let '(r, w1) := Shutil.rmtree p Shutil.onerror_raise w in
                 (match r with
                  | Ok _ => Ok true
                  | Raise e => if ignore_errors then Ok false else Raise e
                  end, w1))).
  { unfold PlatformAdapter.safe_rmtree. rewrite Hw. simpl.
    unfold PlatformAdapter.standard_rmtree, try_except, bind.
    destruct (Shutil.rmtree p Shutil.onerror_raise w) as [[[]|e] w1];
      [reflexivity|]. destruct ignore_errors; reflexivity. }
  split; [exact E|]. rewrite E.
  destruct (Shutil.rmtree p Shutil.onerror_raise w) as [r w1] eqn:Er.
  simpl. unfold Shutil.rmtree in Er.
  exact (@rmtree_unsafe_emits_native _ p w r w1 Er).
Qed.

Lemma posix_teardown_is_native_only_witness :
  PlatformAdapter.safe_rmtree PlatformAdapter.posix ["tmp"; "d"]%string true
    flaky_world
  = (let '(r, w1) := Shutil.rmtree ["tmp"; "d"]%string Shutil.onerror_raise
                       flaky_world in
     (match r with
      | Ok _ => Ok true
      | Raise e => Ok false
      end, w1)).
Proof.
  exact (proj1 (@posix_teardown_is_native_only PlatformAdapter.posix
                  ["tmp"; "d"]%string true flaky_world eq_refl)).
Defined.

(** The claim of C6 fails on the POSIX adapter: the native delete fails on
    a file that is locked once, the manual strategy run from there would
    remove the whole directory, and teardown reports failure without
    running it, the directory still in place. *)
Lemma posix_reports_failure_without_manual :
  let p := ["tmp"; "d"]%string in
  let '(r1, w1) := Shutil.rmtree p Shutil.onerror_raise flaky_world in
  let '(r3, s3) := WindowsFileSystemCleaner._manual_rmtree default_policy p 0
                     (mkCState zero_stats w1) in
  r1 = Raise locked
  /\ r3 = Ok tt
  /\ files (cworld s3) p = None
  /\ fst (PlatformAdapter.safe_rmtree PlatformAdapter.posix p true flaky_world)
     = Ok false
  /\ trace (snd (PlatformAdapter.safe_rmtree PlatformAdapter.posix p true
                   flaky_world))
     = [Scandir p; Remove (p ++ ["f"%string])]
  /\ files (snd (PlatformAdapter.safe_rmtree PlatformAdapter.posix p true
                   flaky_world)) p
     = Some (EDir ["f"%string]).
Proof. vm_compute. repeat split. Qed.

(** ** The depth guard of the manual strategy *)

Lemma bind_congr {S A B} (m : M S A) (k1 k2 : A -> M S B) s :
  (forall a s', k1 a s' = k2 a s') -> bind m k1 s = bind m k2 s.
Proof.
  intros Hk. unfold bind. destruct (m s) as [[a|e] s']; [apply Hk|reflexivity].
Qed.

Lemma bind_congr_l {S A B} (m1 m2 : M S A) (k : A -> M S B) s :
  m1 s = m2 s -> bind m1 k s = bind m2 k s.
Proof. intros Hm. unfold bind. rewrite Hm. reflexivity. Qed.

Lemma for_each_ext {S A} (xs : list A) (f g : A -> M S unit) :
  (forall x s, f x s = g x s) -> forall s, for_each xs f s = for_each xs g s.
Proof.
  intros Hfg. induction xs as [|x xs IH]; intros s; simpl; [reflexivity|].
  unfold bind. rewrite Hfg. destruct (g x s) as [[[]|e] s']; [apply IH|reflexivity].
Qed.

Lemma below_root root k ev :
  event_path ev = Some root -> below root k ev.
Proof.
  intros E. unfold below. rewrite E. exists []. rewrite app_nil_r.
  split; [reflexivity|simpl; lia].
Qed.

Lemma below_child root n k ev :
  event_path ev = Some (os_path_join root n) -> below root (S k) ev.
Proof.
  intros E. unfold below. rewrite E. exists [n]. split; [reflexivity|simpl; lia].
Qed.

Lemma below_step root n k ev :
  below (os_path_join root n) k ev -> below root (S k) ev.
Proof.
  unfold below. destruct (event_path ev) as [q|]; [|auto].
  intros (rest & -> & Hl). exists (n :: rest). unfold os_path_join.
  rewrite <- app_assoc. split; [reflexivity|simpl; lia].
Qed.

Lemma emits_weaken {S} `{HasWorld S} (P Q : event -> Prop) {A} (m : M S A) :
  (forall ev, P ev -> Q ev) -> emits P m -> emits Q m.
Proof.
  intros HPQ Hm s r s' E. destruct (Hm s r s' E) as (evs & Ht & HF).
  exists evs. split; [exact Ht|]. eapply Forall_impl; eauto.
Qed.

Lemma emits_sleep {S} `{HasWorld S} (P : event -> Prop) ms :
  P (Sleep ms) -> emits P (liftW (S := S) (OS.sleep ms)).
Proof.
  intros HP. apply emits_liftW. intros w r w' E. inversion E; subst.
  exists [Sleep ms]. split; [reflexivity|auto].
Qed.

Lemma emits_modify_stats (P : event -> Prop) f : emits P (modify_stats f).
Proof.
  intros s r s' E. inversion E; subst. exists []. simpl.
  rewrite app_nil_r. auto.
Qed.

Section DepthGuard.

Import WindowsFileSystemCleaner.

Variable self : policy.

Lemma safe_remove_file_emits (P : event -> Prop) q :
  P (Chmod q) -> P (Remove q) -> P (Sleep (retry_delay self)) ->
  emits P (_safe_remove_file self q).
Proof.
  intros Hc Hr Hs. apply emits_for_attempts. intros a.
  apply emits_try_except_when.
  - apply emits_bind; [apply emits_syscall; exact Hc|]. intros _.
    apply emits_bind; [apply emits_syscall; exact Hr|]. intros _.
    apply emits_ret.
  - intros e. apply emits_if; [apply emits_raise|].
    apply emits_bind; [apply emits_sleep; exact Hs|]. intros _.
    apply emits_ret.
Qed.

Lemma safe_remove_dir_emits (P : event -> Prop) q :
  P (Rmdir q) -> P (Sleep (retry_delay self)) ->
  emits P (_safe_remove_dir self q).
Proof.
  intros Hr Hs. apply emits_for_attempts. intros a.
  apply emits_try_except_when.
  - apply emits_bind; [apply emits_syscall; exact Hr|]. intros _.
    apply emits_ret.
  - intros e. apply emits_if; [apply emits_raise|].
    apply emits_bind; [apply emits_sleep; exact Hs|]. intros _.
    apply emits_ret.
Qed.

Lemma manual_body_ext rec1 rec2 p d s :
  (forall q s', rec1 q (d + 1) s' = rec2 q (d + 1) s') ->
  _manual_rmtree_body self rec1 p d s = _manual_rmtree_body self rec2 p d s.
Proof.
  intros Hrec. unfold _manual_rmtree_body.
  destruct (max_depth self <? d); [reflexivity|].
  apply bind_congr. intros present s1.
  destruct (negb present); [reflexivity|].
  apply bind_congr. intros is_file s2. destruct is_file; [reflexivity|].
  apply bind_congr. intros [entries|] s3; [|reflexivity].
  apply bind_congr_l. apply for_each_ext. intros entry s4.
  apply bind_congr. intros [|] s5; [|reflexivity].
  apply bind_congr_l. apply Hrec.
Qed.

(** Once the nested calls allowed exceed what the guard lets through,
    their number no longer matters. *)
Lemma manual_rec_fuel_irrelevant n :
  forall fuel1 fuel2 p d s,
    S (max_depth self) - d <= n -> n < fuel1 -> n < fuel2 ->
    manual_rmtree_rec self fuel1 p d s = manual_rmtree_rec self fuel2 p d s.
Proof.
  induction n as [|n IH]; intros fuel1 fuel2 p d s Hn H1 H2;
    destruct fuel1 as [|f1]; try lia; destruct fuel2 as [|f2]; try lia;
    simpl.
  - unfold _manual_rmtree_body.
    replace (max_depth self <? d) with true; [reflexivity|].
    symmetry. apply Nat.ltb_lt. lia.
  - destruct (max_depth self <? d) eqn:G.
    + unfold _manual_rmtree_body. rewrite G. reflexivity.
    + apply Nat.ltb_ge in G. apply manual_body_ext. intros q s'.
      apply IH; lia.
Qed.

Lemma manual_rec_footprint fuel :
  forall p d,
    emits (below p (S (max_depth self) - d)) (manual_rmtree_rec self fuel p d).
Proof.
  induction fuel as [|fuel IH]; intros p d.
  - apply emits_raise.
  - change (manual_rmtree_rec self (S fuel) p d)
      with (_manual_rmtree_body self (manual_rmtree_rec self fuel) p d).
    unfold _manual_rmtree_body.
    destruct (max_depth self <? d) eqn:G; [apply emits_raise|].
    apply Nat.ltb_ge in G.
    replace (S (max_depth self) - d) with (S (max_depth self - d)) by lia.
    apply emits_bind; [apply (emits_query (S := cstate))|]. intros present.
    apply emits_if; [apply emits_ret|].
    apply emits_bind; [apply (emits_query (S := cstate))|]. intros is_file.
    apply emits_if.
    { apply safe_remove_file_emits;
        solve [eapply below_root; reflexivity | exact I]. }
    apply emits_bind.
    { apply emits_try_except_when.
      - apply emits_bind.
        + apply emits_syscall. eapply below_root; reflexivity.
        + intros entries. apply emits_ret.
      - intros e. apply emits_ret. }
    intros [entries|]; [|apply emits_ret].
    apply emits_bind.
    { apply emits_for_each. intros entry.
      apply emits_bind; [apply (emits_query (S := cstate))|]. intros is_dir.
      apply emits_if.
      - apply emits_bind; [|intros _; apply emits_modify_stats].
        eapply emits_weaken; [|apply IH].
        intros ev Hev. apply (@below_step p entry).
        replace (S (max_depth self) - (d + 1)) with (max_depth self - d)
          in Hev by lia.
        exact Hev.
      - apply emits_bind; [|intros _; apply emits_modify_stats].
        apply safe_remove_file_emits;
          solve [eapply below_child; reflexivity | exact I]. }
    intros _. apply safe_remove_dir_emits;
      solve [eapply below_root; reflexivity | exact I].
Qed.

End DepthGuard.

(** C5.  A call of [_manual_rmtree] at a depth above [max_depth] raises
    the depth-limit error at once, without touching the filesystem or
    recursing.  Hence on every world, however deep, the recursion stops
    after [max_depth + 1] nested calls (more allowed calls change
    nothing), and no system call reaches a path more than
    [max_depth + 1] components below the start. *)
Theorem manual_rmtree_depth_guard (self : policy) (p : path) (d : nat)
  (s : cstate) :
  max_depth self < d ->
  (forall fuel,
     WindowsFileSystemCleaner.manual_rmtree_rec self (S fuel) p d s
     = (Raise (Exn WindowsCleanupError
                 ("Recursion depth limit exceeded: " ++ path_str p) None),
        s))
  /\ (forall q d0 s0 fuel,
        S (max_depth self) - d0 < fuel ->
        WindowsFileSystemCleaner.manual_rmtree_rec self fuel q d0 s0
        = WindowsFileSystemCleaner._manual_rmtree self q d0 s0)
  /\ (forall q d0 s0,
        exists evs,
          trace (cworld (snd (WindowsFileSystemCleaner._manual_rmtree self q
                                d0 s0)))
          = trace (cworld s0) ++ evs
          /\ Forall (below q (S (max_depth self) - d0)) evs).
Proof.
  intros Hd. split; [|split].
  - intros fuel. simpl. unfold WindowsFileSystemCleaner._manual_rmtree_body.
    replace (max_depth self <? d) with true; [reflexivity|].
    symmetry. apply Nat.ltb_lt. exact Hd.
  - intros q d0 s0 fuel Hf. unfold WindowsFileSystemCleaner._manual_rmtree.
    apply manual_rec_fuel_irrelevant with (n := S (max_depth self) - d0); lia.
  - intros q d0 s0. unfold WindowsFileSystemCleaner._manual_rmtree.
    destruct (WindowsFileSystemCleaner.manual_rmtree_rec self
                (S (S (max_depth self) - d0)) q d0 s0) as [r s'] eqn:E.
    exact (@manual_rec_footprint self _ q d0 s0 r s' E).
Qed.

Lemma manual_rmtree_depth_guard_witness :
  WindowsFileSystemCleaner.manual_rmtree_rec shallow_policy 1
    ["a"; "a"; "a"]%string 3 (mkCState zero_stats (quiet_world bottomless))
  = (Raise (Exn WindowsCleanupError "Recursion depth limit exceeded: a/a/a"
              None),
     mkCState zero_stats (quiet_world bottomless)).
Proof.
  refine (proj1 (@manual_rmtree_depth_guard shallow_policy
                   ["a"; "a"; "a"]%string 3
                   (mkCState zero_stats (quiet_world bottomless)) _) 0).
  simpl. lia.
Defined.

(** On the bottomless world the manual strategy, started at depth 0 with
    [max_depth = 2], lists three directories and aborts at the fourth. *)
Example manual_rmtree_on_bottomless_world :
  let '(r, s) := WindowsFileSystemCleaner._manual_rmtree shallow_policy []
                   0 (mkCState zero_stats (quiet_world bottomless)) in
  r = Raise (Exn WindowsCleanupError "Recursion depth limit exceeded: a/a/a"
               None)
  /\ trace (cworld s)
     = [Listdir []; Listdir ["a"]; Listdir ["a"; "a"]]%string.
Proof. vm_compute. split; reflexivity. Qed.

(** ** Removal of one file, with retries *)

Lemma occurrences_app ev l1 l2 :
  occurrences ev (l1 ++ l2) = occurrences ev l1 + occurrences ev l2.
Proof. apply count_occ_app. Qed.

Lemma syscall_trace {A} ev act (w : world) (r : result A) w' :
  OS.syscall ev act w = (r, w') -> trace w' = trace w ++ [ev].
Proof.
  unfold OS.syscall. destruct (faults w ev _).
  - intros E; inversion E; reflexivity.
  - destruct (act (files w)) as [r0 f']. intros E; inversion E; reflexivity.
Qed.

Lemma remove_success p (w w' : world) :
  OS.remove p w = (Ok tt, w') -> files w' p = None.
Proof.
  unfold OS.remove, OS.syscall. destruct (faults w _ _); [discriminate|].
  destruct (files w p) as [[|names]|]; try discriminate.
  intros E; inversion E; subst. simpl. unfold unlink_entry.
  destruct (path_eq_dec p p); [reflexivity|contradiction].
Qed.

Section RemoveFile.

Import WindowsFileSystemCleaner.

Variable self : policy.
Variable p : path.

(** One pass through the [try] block: the attribute change fails, or the
    removal fails, or the file is gone. *)
Lemma one_attempt_cases s r s1 :
  (one_attempt p) s = (r, s1) ->
  (exists e, r = Raise e /\ trace (cworld s1) = trace (cworld s) ++ [Chmod p])
  \/ (exists e, r = Raise e
        /\ trace (cworld s1) = trace (cworld s) ++ [Chmod p; Remove p])
  \/ (r = Ok Return
        /\ trace (cworld s1) = trace (cworld s) ++ [Chmod p; Remove p]
        /\ files (cworld s1) p = None).
Proof.
  unfold one_attempt, bind, liftW. simpl.
  destruct (OS.chmod p (cworld s)) as [[[]|e] w1] eqn:Ec.
  - apply syscall_trace in Ec. simpl.
    destruct (OS.remove p w1) as [[[]|e] w2] eqn:Er.
    + pose proof (remove_success _ _ Er) as Hgone.
      apply syscall_trace in Er. intros E; inversion E; subst. simpl.
      right; right. rewrite Er, Ec, <- app_assoc. auto.
    + apply syscall_trace in Er. intros E; inversion E; subst. simpl.
      right; left. exists e. rewrite Er, Ec, <- app_assoc. auto.
  - apply syscall_trace in Ec. intros E; inversion E; subst. simpl.
    left. exists e. auto.
Qed.

Ltac count_events :=
  unfold occurrences;
  repeat first [ rewrite count_occ_cons_eq by reflexivity
               | rewrite count_occ_cons_neq by discriminate ];
  reflexivity.

Lemma occ_chmod : occurrences (Chmod p) [Chmod p] = 1.
Proof. count_events. Qed.

Lemma occ_chmod_remove :
  occurrences (Chmod p) [Chmod p; Remove p] = 1
  /\ occurrences (Remove p) [Chmod p; Remove p] = 1
  /\ occurrences (Sleep (retry_delay self)) [Chmod p; Remove p] = 0
  /\ occurrences (Remove p) [Chmod p] = 0
  /\ occurrences (Sleep (retry_delay self)) [Chmod p] = 0.
Proof. repeat split; count_events. Qed.

Lemma occ_sleep :
  occurrences (Chmod p) [Sleep (retry_delay self)] = 0
  /\ occurrences (Remove p) [Sleep (retry_delay self)] = 0
  /\ occurrences (Sleep (retry_delay self)) [Sleep (retry_delay self)] = 1.
Proof. repeat split; count_events. Qed.

(** The loop from attempt [a], with [n] attempts left. *)
Lemma file_loop n :
  forall a s r s',
    a + n = max_retries self ->
    for_attempts (seq a n) (file_attempt self p) s = (r, s') ->
    exists evs,
      trace (cworld s') = trace (cworld s) ++ evs
      /\ Forall (file_event self p) evs
      /\ occurrences (Remove p) evs <= occurrences (Chmod p) evs
      /\ occurrences (Chmod p) evs <= n
      /\ (n = 0
          \/ occurrences (Sleep (retry_delay self)) evs + 1
             = occurrences (Chmod p) evs)
      /\ (forall e, r = Raise e -> retried e = true ->
            occurrences (Chmod p) evs = n)
      /\ (r = Ok tt -> 0 < n -> files (cworld s') p = None).
Proof.
  destruct occ_chmod_remove as (O1 & O2 & O3 & O4 & O5).
  destruct occ_sleep as (P1 & P2 & P3). pose proof occ_chmod as O0.
  induction n as [|n IH]; intros a s r s' Han E.
  - simpl in E. inversion E; subst. exists []. rewrite app_nil_r.
    repeat split; auto; try (intros; discriminate); try lia.
  - simpl in E. unfold bind in E.
    destruct ((file_attempt self p) a s) as [[c|e] s1] eqn:Ea.
    + (* the attempt returned normally *)
      unfold file_attempt, try_except_when, try_except in Ea.
      destruct ((one_attempt p) s) as [[c0|e0] s0] eqn:E1.
      * inversion Ea; subst.
        destruct (one_attempt_cases _ E1)
          as [(e & Hr & _) | [(e & Hr & _) | (Hr & Ht & Hg)]];
          try discriminate.
        inversion Hr; subst. inversion E; subst.
        exists [Chmod p; Remove p]. unfold file_event.
        repeat split; auto; try (intros; discriminate); try lia.
      * destruct (retried e0) eqn:Hre; [|discriminate].
        destruct (a =? max_retries self - 1) eqn:Hlast; [discriminate|].
        unfold bind, liftW, OS.sleep in Ea. simpl in Ea.
        inversion Ea; subst. clear Ea.
        apply Nat.eqb_neq in Hlast.
        destruct (IH (S a) _ r s' ltac:(lia) E)
          as (evs & Ht & HF & Hle & Hn & Hsl & Hex & Hok).
        simpl in Ht.
        assert (Hn0 : n <> 0) by lia.
        destruct Hsl as [Hz | Hsl]; [contradiction|].
        destruct (one_attempt_cases _ E1)
          as [(e & Hr & Ht1) | [(e & Hr & Ht1) | (Hr & _)]];
          try discriminate.
        -- exists ([Chmod p] ++ [Sleep (retry_delay self)] ++ evs).
           rewrite Ht, Ht1, <- !app_assoc.
           rewrite !occurrences_app, O0, O4, O5, P1, P2, P3.
           repeat split; auto; try lia;
             try (simpl;
                  repeat (constructor; [unfold file_event; auto|]);
                  exact HF);
             try (intros e1 Hr1 Hre1; specialize (Hex e1 Hr1 Hre1); lia);
             try (intros Hr1 _; apply Hok; [exact Hr1|lia]).
        -- exists ([Chmod p; Remove p] ++ [Sleep (retry_delay self)] ++ evs).
           rewrite Ht, Ht1, <- !app_assoc.
           rewrite !occurrences_app, O1, O2, O3, P1, P2, P3.
           repeat split; auto; try lia;
             try (simpl;
                  repeat (constructor; [unfold file_event; auto|]);
                  exact HF);
             try (intros e1 Hr1 Hre1; specialize (Hex e1 Hr1 Hre1); lia);
             try (intros Hr1 _; apply Hok; [exact Hr1|lia]).
    + (* the attempt raised *)
      inversion E; subst. clear E.
      unfold file_attempt, try_except_when, try_except in Ea.
      destruct ((one_attempt p) s) as [[c0|e0] s0] eqn:E1; [discriminate|].
      assert (Hs : exists blk,
                 trace (cworld s0) = trace (cworld s) ++ blk
                 /\ (blk = [Chmod p] \/ blk = [Chmod p; Remove p])).
      { destruct (one_attempt_cases _ E1)
          as [(e1 & _ & Ht1) | [(e1 & _ & Ht1) | (Hr & _)]];
          try discriminate; eauto. }
      destruct Hs as (blk & Ht1 & Hblk).
      destruct (retried e0) eqn:Hre.
      * destruct (a =? max_retries self - 1) eqn:Hlast.
        -- apply Nat.eqb_eq in Hlast. inversion Ea; subst.
           assert (n = 0) by lia. subst n.
           exists blk. split; [exact Ht1|].
           destruct Hblk as [-> | ->]; rewrite ?O0, ?O1, ?O2, ?O3, ?O4, ?O5;
             unfold file_event;
             repeat split; auto; try (intros; discriminate); try lia.
        -- unfold bind, liftW, OS.sleep in Ea. discriminate.
      * inversion Ea; subst.
        exists blk. split; [exact Ht1|].
        destruct Hblk as [-> | ->]; rewrite ?O0, ?O1, ?O2, ?O3, ?O4, ?O5;
          unfold file_event;
          repeat split; auto; try (intros; discriminate); try lia;
          intros e1 Hr1 Hre1; inversion Hr1; subst; congruence.
Qed.

End RemoveFile.

(** ** Retry loops, attempt by attempt *)

Section RetryLoop.

Variable catches : exn -> bool.
Variable body : M cstate ctl.
Variable delay : nat.
Variable block : list event -> Prop.

Hypothesis body_returns : forall s c s1, body s = (Ok c, s1) -> c = Return.

Hypothesis body_block :
  forall s r s1, body s = (r, s1) ->
    exists b, block b /\ trace (cworld s1) = trace (cworld s) ++ b.

Lemma ran_attempts_at_once max s r s' k :
  ran_attempts catches body delay max s r s' k ->
  raised_at_once catches body delay s r k.
Proof.
  intros (_ & _ & _ & Hearlier & Hlast & _) i e Hi He Hc.
  assert (Hk : S i = k).
  { destruct (Nat.eq_dec (S i) k) as [Heq|Hne]; [exact Heq|].
    destruct (Hearlier i ltac:(lia)) as (e' & He' & Hc').
    rewrite He in He'. inversion He'; subst. congruence. }
  split; [exact Hk|].
  specialize (Hlast ltac:(lia)).
  replace (k - 1) with i in Hlast by lia.
  rewrite Hlast in He. simpl in He.
  destruct r as [u|e0]; [discriminate|]. inversion He; subst. reflexivity.
Qed.

(** The attempts determine the outcome: no other result, final state or
    number of attempts fits the same start. *)
Lemma ran_attempts_unique max s r1 s1 k1 r2 s2 k2 :
  ran_attempts catches body delay max s r1 s1 k1 ->
  ran_attempts catches body delay max s r2 s2 k2 ->
  k1 = k2 /\ r1 = r2 /\ s1 = s2.
Proof.
  assert (Hlt : forall ra sa ka rb sb kb,
    ran_attempts catches body delay max s ra sa ka ->
    ran_attempts catches body delay max s rb sb kb ->
    0 < ka -> ka < kb -> False).
  { intros ra sa ka rb sb kb (_ & _ & _ & _ & Hlast & Hwhy)
      (Hle & _ & _ & Hearlier & _ & _) Hpos Hlt.
    specialize (Hlast Hpos).
    destruct (Hearlier (ka - 1) ltac:(lia)) as (e & He & Hc).
    rewrite Hlast in He. simpl in He.
    destruct ra as [u|e0]; [discriminate|]. inversion He; subst.
    destruct (Hwhy e eq_refl) as [Hf|Hf]; [congruence|lia]. }
  intros H1 H2.
  pose proof H1 as (Hle1 & Hpos1 & Hz1 & _ & Hlast1 & _).
  pose proof H2 as (Hle2 & Hpos2 & Hz2 & _ & Hlast2 & _).
  destruct (Nat.eq_dec k1 0) as [->|Hk1].
  { assert (k2 = 0) by lia. subst k2.
    destruct (Hz1 eq_refl) as [-> ->]. destruct (Hz2 eq_refl) as [-> ->].
    auto. }
  destruct (Nat.eq_dec k2 0) as [->|Hk2]; [lia|].
  destruct (Nat.lt_trichotomy k1 k2) as [Hlt12|[Heq|Hlt21]].
  - exfalso. exact (Hlt _ _ _ _ _ _ H1 H2 ltac:(lia) Hlt12).
  - subst k2. split; [reflexivity|].
    specialize (Hlast1 ltac:(lia)). specialize (Hlast2 ltac:(lia)).
    rewrite Hlast1 in Hlast2. inversion Hlast2; subst.
    split; [|reflexivity].
    destruct r1 as [[]|e1], r2 as [[]|e2]; try discriminate;
      try reflexivity.
    match goal with H : Raise _ = Raise _ |- _ => inversion H end.
    reflexivity.
  - exfalso. exact (Hlt _ _ _ _ _ _ H2 H1 ltac:(lia) Hlt21).
Qed.

(** The loop from attempt [a], with [n] attempts left. *)
Lemma retry_loop_runs max n :
  forall a s r s',
    a + n = max ->
    for_attempts (seq a n)
      (fun attempt =>
         try_except_when catches body
           (fun e =>
              if attempt =? max - 1
              then raise e
              else liftW (OS.sleep delay) ;; ret Continue)) s
    = (r, s') ->
    exists blocks,
      Forall block blocks
      /\ trace (cworld s') = trace (cworld s) ++ with_sleeps delay blocks
      /\ ran_attempts catches body delay n s r s' (length blocks).
Proof.
  induction n as [|n IH]; intros a s r s' Han E.
  - cbn [seq for_attempts] in E. inversion E; subst.
    exists []. split; [constructor|]. split; [simpl; rewrite app_nil_r; auto|].
    unfold ran_attempts. simpl.
    repeat split; auto; try lia; intros; try lia; discriminate.
  - cbn [seq for_attempts] in E. unfold bind at 1 in E.
    unfold try_except_when, try_except in E.
    destruct (body s) as [[c|e] s1] eqn:Eb.
    + (* the attempt returned *)
      pose proof (body_returns Eb) as ->.
      destruct (body_block Eb) as (b & Hb & Ht).
      inversion E; subst. exists [b].
      split; [repeat constructor; exact Hb|]. split; [exact Ht|].
      unfold ran_attempts. cbn [length attempt_start Nat.sub].
      repeat split; auto; try lia; intros; try lia; try discriminate;
        try exact Eb.
    + (* the attempt raised *)
      destruct (body_block Eb) as (b & Hb & Ht).
      assert (Hone : forall e0,
        (catches e0 = false \/ 1 = S n) ->
        (r, s') = (Raise e0 : result unit, s1) -> e0 = e ->
        exists blocks,
          Forall block blocks
          /\ trace (cworld s') = trace (cworld s) ++ with_sleeps delay blocks
          /\ ran_attempts catches body delay (S n) s r s' (length blocks)).
      { intros e0 Hwhy Er ->. inversion Er; subst. exists [b].
        split; [repeat constructor; exact Hb|]. split; [exact Ht|].
        unfold ran_attempts. cbn [length attempt_start Nat.sub].
        repeat split; auto; try lia; intros; try lia; try discriminate;
          try exact Eb.
        match goal with H : Raise _ = Raise _ |- _ =>
          inversion H; subst end.
        exact Hwhy. }
      destruct (catches e) eqn:Hc.
      * destruct (a =? max - 1) eqn:Hlast.
        -- apply Nat.eqb_eq in Hlast.
           apply (Hone e); [right; lia|symmetry; exact E|reflexivity].
        -- apply Nat.eqb_neq in Hlast.
           unfold bind at 1 in E. unfold liftW, OS.sleep in E.
           cbn [view update cstate_HasWorld] in E. unfold ret at 1 in E.
           change (mkCState (stats s1) (record_event (Sleep delay) (cworld s1)))
             with (slept delay s1) in E.
           destruct (IH (S a) (slept delay s1) r s' ltac:(lia) E)
             as (blocks & HF & Ht' & Hk & Hpos & Hzero & Hearlier & Hfinal
                 & Hwhy).
           assert (Hn : 0 < n) by lia.
           specialize (Hpos Hn).
           destruct blocks as [|b' rest]; [simpl in Hpos; lia|].
           exists (b :: b' :: rest).
           split; [constructor; [exact Hb|exact HF]|].
           split.
           { rewrite Ht'. unfold slept. cbn [cworld record_event trace].
             rewrite Ht. cbn [with_sleeps].
             rewrite <- !app_assoc. reflexivity. }
           unfold ran_attempts.
           change (length (b :: b' :: rest)) with (S (length (b' :: rest))).
           set (k := length (b' :: rest)) in *.
           repeat split.
           ++ lia.
           ++ lia.
           ++ lia.
           ++ lia.
           ++ intros [|i] Hi.
              ** exists e. cbn [attempt_start]. rewrite Eb. auto.
              ** cbn [attempt_start]. rewrite Eb. cbn [snd].
                 apply Hearlier. lia.
           ++ intros _. replace (S k - 1) with (S (k - 1)) by lia.
              cbn [attempt_start]. rewrite Eb. cbn [snd].
              apply Hfinal. exact Hpos.
           ++ intros e0 Hr. destruct (Hwhy e0 Hr) as [Hf|Hf]; [left|right];
                [exact Hf|lia].
      * apply (Hone e); [left; exact Hc|symmetry; exact E|reflexivity].
Qed.

End RetryLoop.

(** One pass through the [try] block of [_safe_remove_file] changes the
    attribute first and removes second. *)
Lemma one_attempt_block (p : path) (s : cstate) (r : result ctl)
  (s1 : cstate) :
  one_attempt p s = (r, s1) ->
  exists b,
    (b = [Chmod p] \/ b = [Chmod p; Remove p])
    /\ trace (cworld s1) = trace (cworld s) ++ b.
Proof.
  intros E.
  destruct (@one_attempt_cases p s r s1 E)
    as [(e & _ & Ht) | [(e & _ & Ht) | (_ & Ht & _)]]; eauto.
Qed.

Lemma one_attempt_returns (p : path) (s : cstate) (c : ctl) (s1 : cstate) :
  one_attempt p s = (Ok c, s1) -> c = Return.
Proof.
  unfold one_attempt, bind, ret.
  destruct (liftW (OS.chmod p) s) as [[[]|e] s0]; [|discriminate].
  destruct (liftW (OS.remove p) s0) as [[[]|e] s2]; [|discriminate].
  intros E. inversion E. reflexivity.
Qed.

(** C7, as the code has it.  [_safe_remove_file] makes at most
    [max_retries] attempts in all, not [1 + max_retries]; every attempt
    first changes the attribute ([os.chmod]) and then removes
    ([os.remove]), and [retry_delay] is slept between two attempts: the
    system calls are the blocks of the attempts, [Chmod p] when the change
    raised and [Chmod p; Remove p] otherwise, with one sleep between two
    blocks.  Every attempt but the last raised a [PermissionError] or a
    [FileNotFoundError], and the last attempt gives the outcome; such an
    exception reaches the caller only when the [max_retries] attempts are
    used up; any other exception is raised at once by the attempt where it
    occurs.  When it returns after at least one allowed attempt, the file
    is gone. *)
Theorem safe_remove_file_attempts (self : policy) (p : path)
  (s s' : cstate) (r : result unit) :
  WindowsFileSystemCleaner._safe_remove_file self p s = (r, s') ->
  exists evs,
    trace (cworld s') = trace (cworld s) ++ evs
    /\ Forall (file_event self p) evs
    /\ occurrences (Remove p) evs <= occurrences (Chmod p) evs
    /\ occurrences (Chmod p) evs <= max_retries self
    /\ (max_retries self = 0
        \/ occurrences (Sleep (retry_delay self)) evs + 1
           = occurrences (Chmod p) evs)
    /\ (forall e, r = Raise e -> retried e = true ->
          occurrences (Chmod p) evs = max_retries self)
    /\ (r = Ok tt -> 0 < max_retries self -> files (cworld s') p = None)
    /\ exists blocks,
         evs = with_sleeps (retry_delay self) blocks
         /\ Forall (fun b => b = [Chmod p] \/ b = [Chmod p; Remove p]) blocks
         /\ ran_attempts retried (one_attempt p) (retry_delay self)
              (max_retries self) s r s' (length blocks)
         /\ raised_at_once retried (one_attempt p) (retry_delay self) s r
              (length blocks).
Proof.
  intros E.
  destruct (@file_loop self p (max_retries self) 0 s r s' eq_refl E)
    as (evs & Ht & HF & Hle & Hn & Hsl & Hex & Hok).
  destruct (@retry_loop_runs retried (one_attempt p) (retry_delay self)
              (fun b => b = [Chmod p] \/ b = [Chmod p; Remove p])
              (@one_attempt_returns p) (@one_attempt_block p)
              (max_retries self) (max_retries self) 0 s r s' eq_refl E)
    as (blocks & HB & Ht' & Hran).
  exists evs. repeat (split; [assumption|]).
  exists blocks. split.
  - rewrite Ht in Ht'. apply app_inv_head in Ht'. exact Ht'.
  - split; [exact HB|]. split; [exact Hran|].
    exact (@ran_attempts_at_once retried (one_attempt p) (retry_delay self)
             (max_retries self) s r s' (length blocks) Hran).
Qed.

Lemma safe_remove_file_attempts_witness :
  exists evs,
    trace (cworld (snd (WindowsFileSystemCleaner._safe_remove_file
                          default_policy ["tmp"; "d"; "f"]%string
                          (mkCState zero_stats locked_world))))
    = [] ++ evs
    /\ occurrences (Remove ["tmp"; "d"; "f"]%string) evs <= 3.
Proof.
  pose (p := ["tmp"; "d"; "f"]%string).
  pose (s := mkCState zero_stats locked_world).
  pose (x := WindowsFileSystemCleaner._safe_remove_file default_policy p s).
  destruct (@safe_remove_file_attempts default_policy p s (snd x) (fst x)
              (surjective_pairing x))
    as (evs & Ht & _ & Hle & Hn & _).
  exists evs. split; [exact Ht|].
  change (max_retries default_policy) with 3 in Hn.
  exact (Nat.le_trans _ _ _ Hle Hn).
Defined.

(** The claim of C7 fails on [_safe_remove_file]: with [max_retries = 3]
    and a file that stays locked, the error is raised after 3 removal
    attempts, not 4; and an [OSError] of another kind is raised by the
    first attempt, with no retry. *)
Lemma safe_remove_file_attempts_not_one_more :
  let p := ["tmp"; "d"; "f"]%string in
  (let '(r, s') := WindowsFileSystemCleaner._safe_remove_file default_policy
                     p (mkCState zero_stats locked_world) in
   r = Raise locked
   /\ trace (cworld s')
      = [Chmod p; Remove p; Sleep 100; Chmod p; Remove p; Sleep 100;
         Chmod p; Remove p]
   /\ occurrences (Remove p) (trace (cworld s')) = 3
   /\ occurrences (Remove p) (trace (cworld s'))
      <> 1 + max_retries default_policy)
  /\ (let '(r, s') := WindowsFileSystemCleaner._safe_remove_file
                        default_policy p
                        (mkCState zero_stats
                           (mkWorld one_file_tree [] remove_io_error 1000)) in
      r = Raise io_error /\ trace (cworld s') = [Chmod p; Remove p]).
Proof. vm_compute. repeat split. discriminate. Qed.

(** ** The statistics *)

Section StatsBlind.

Lemma blind_ret {A} (a : A) : stats_blind (ret a).
Proof. intros s1 s2 Hw. simpl. auto. Qed.

Lemma blind_raise {A} e : stats_blind (raise (A := A) e).
Proof. intros s1 s2 Hw. simpl. auto. Qed.

Lemma blind_bind {A B} (m : M cstate A) (k : A -> M cstate B) :
  stats_blind m -> (forall a, stats_blind (k a)) -> stats_blind (bind m k).
Proof.
  intros Hm Hk s1 s2 Hw. unfold bind. specialize (Hm s1 s2 Hw).
  destruct (m s1) as [[a1|e1] t1], (m s2) as [[a2|e2] t2];
    simpl in Hm; destruct Hm as [Hr Ht]; inversion Hr; subst.
  - apply Hk. exact Ht.
  - simpl. auto.
Qed.

Lemma blind_try_except {A} (m : M cstate A) h :
  stats_blind m -> (forall e, stats_blind (h e)) ->
  stats_blind (try_except m h).
Proof.
  intros Hm Hh s1 s2 Hw. unfold try_except. specialize (Hm s1 s2 Hw).
  destruct (m s1) as [[a1|e1] t1], (m s2) as [[a2|e2] t2];
    simpl in Hm; destruct Hm as [Hr Ht]; inversion Hr; subst.
  - simpl. auto.
  - apply Hh. exact Ht.
Qed.

Lemma blind_try_except_when {A} c (m : M cstate A) h :
  stats_blind m -> (forall e, stats_blind (h e)) ->
  stats_blind (try_except_when c m h).
Proof.
  intros Hm Hh. apply blind_try_except; [exact Hm|].
  intros e. destruct (c e); [apply Hh|apply blind_raise].
Qed.

Lemma blind_for_each {A} (xs : list A) body :
  (forall x, stats_blind (body x)) -> stats_blind (for_each xs body).
Proof.
  intros Hb. induction xs as [|x xs IH]; simpl.
  - apply blind_ret.
  - apply blind_bind; auto.
Qed.

Lemma blind_for_attempts (l : list nat) body :
  (forall a, stats_blind (body a)) -> stats_blind (for_attempts l body).
Proof.
  intros Hb. induction l as [|a l IH]; simpl.
  - apply blind_ret.
  - apply blind_bind; [apply Hb|]. intros [|]; [exact IH|apply blind_ret].
Qed.

Lemma blind_if {A} (b : bool) (m1 m2 : M cstate A) :
  stats_blind m1 -> stats_blind m2 -> stats_blind (if b then m1 else m2).
Proof. destruct b; auto. Qed.

Lemma blind_liftW {A} (m : M world A) : stats_blind (liftW m).
Proof.
  intros s1 s2 Hw. unfold liftW. simpl. rewrite Hw.
  destruct (m (cworld s2)) as [r w']. simpl. auto.
Qed.

Lemma blind_modify_stats f : stats_blind (modify_stats f).
Proof. intros s1 s2 Hw. simpl. auto. Qed.

Lemma blind_by_rlimit {A} (f : nat -> M cstate A) :
  (forall fuel, stats_blind (f fuel)) ->
  stats_blind (fun s => f (rlimit (view s)) s).
Proof.
  intros Hf s1 s2 Hw. simpl. rewrite Hw. apply Hf. exact Hw.
Qed.

Lemma blind_rmtree_unsafe fuel (onerror : Shutil.handler) :
  (forall func q e, stats_blind (onerror func q e)) ->
  forall p, stats_blind (Shutil._rmtree_unsafe fuel onerror p).
Proof.
  intros Hh. induction fuel as [|fuel IH]; intros p; simpl.
  - apply blind_raise.
  - apply blind_bind.
    + apply blind_try_except_when; [apply blind_liftW|].
      intros e. apply blind_bind; [apply Hh|]. intros _. apply blind_ret.
    + intros entries. apply blind_bind.
      * apply blind_for_each. intros name.
        apply blind_bind; [apply blind_liftW|]. intros b.
        apply blind_if; [apply IH|].
        apply blind_try_except_when; [apply blind_liftW|apply Hh].
      * intros _. apply blind_try_except_when; [apply blind_liftW|apply Hh].
Qed.

Lemma blind_walk fuel visit :
  (forall root dirs files_, stats_blind (visit root dirs files_)) ->
  forall top, stats_blind (Shutil.walk_bottom_up fuel top visit).
Proof.
  intros Hv. induction fuel as [|fuel IH]; intros top; simpl.
  - apply blind_raise.
  - apply blind_bind.
    + apply blind_try_except_when.
      * apply blind_bind; [apply blind_liftW|]. intros; apply blind_ret.
      * intros; apply blind_ret.
    + intros [entries|]; [|apply blind_ret].
      apply blind_bind; [apply blind_liftW|]. intros [dirs nondirs].
      apply blind_bind; [|intros _; apply Hv].
      apply blind_for_each. intros d. apply IH.
Qed.

Import WindowsFileSystemCleaner.

Variable self : policy.

Lemma blind_retry_on_error func q e : stats_blind (retry_on_error self func q e).
Proof.
  unfold retry_on_error. apply blind_if; [|apply blind_raise].
  apply blind_for_attempts. intros a. apply blind_try_except.
  - apply blind_bind; [apply blind_liftW|]. intros _.
    apply blind_bind; [apply blind_liftW|]. intros present.
    apply blind_bind.
    { apply blind_if; [|apply blind_ret].
      apply blind_try_except; [apply blind_liftW|]. intros; apply blind_ret. }
    intros _. apply blind_bind; [apply blind_liftW|]. intros _.
    apply blind_bind; [apply blind_modify_stats|]. intros _. apply blind_ret.
  - intros e'. apply blind_if; [apply blind_raise|apply blind_ret].
Qed.

Lemma blind_force_remove_readonly func q e :
  stats_blind (force_remove_readonly func q e).
Proof.
  unfold force_remove_readonly. apply blind_try_except.
  - apply blind_bind; [apply blind_liftW|]. intros _. apply blind_liftW.
  - intros e'. apply blind_raise.
Qed.

Lemma blind_safe_remove_file q : stats_blind (_safe_remove_file self q).
Proof.
  apply blind_for_attempts. intros a. apply blind_try_except_when.
  - apply blind_bind; [apply blind_liftW|]. intros _.
    apply blind_bind; [apply blind_liftW|]. intros _. apply blind_ret.
  - intros e. apply blind_if; [apply blind_raise|].
    apply blind_bind; [apply blind_liftW|]. intros _. apply blind_ret.
Qed.

Lemma blind_safe_remove_dir q : stats_blind (_safe_remove_dir self q).
Proof.
  apply blind_for_attempts. intros a. apply blind_try_except_when.
  - apply blind_bind; [apply blind_liftW|]. intros _. apply blind_ret.
  - intros e. apply blind_if; [apply blind_raise|].
    apply blind_bind; [apply blind_liftW|]. intros _. apply blind_ret.
Qed.

Lemma blind_manual fuel : forall q d, stats_blind (manual_rmtree_rec self fuel q d).
Proof.
  induction fuel as [|fuel IH]; intros q d.
  - apply blind_raise.
  - change (manual_rmtree_rec self (S fuel) q d)
      with (_manual_rmtree_body self (manual_rmtree_rec self fuel) q d).
    unfold _manual_rmtree_body. apply blind_if; [apply blind_raise|].
    apply blind_bind; [apply blind_liftW|]. intros present.
    apply blind_if; [apply blind_ret|].
    apply blind_bind; [apply blind_liftW|]. intros is_file.
    apply blind_if; [apply blind_safe_remove_file|].
    apply blind_bind.
    { apply blind_try_except_when.
      - apply blind_bind; [apply blind_liftW|]. intros; apply blind_ret.
      - intros; apply blind_ret. }
    intros [entries|]; [|apply blind_ret].
    apply blind_bind; [|intros _; apply blind_safe_remove_dir].
    apply blind_for_each. intros entry.
    apply blind_bind; [apply blind_liftW|]. intros is_dir.
    apply blind_if.
    + apply blind_bind; [apply IH|]. intros _. apply blind_modify_stats.
    + apply blind_bind; [apply blind_safe_remove_file|]. intros _.
      apply blind_modify_stats.
Qed.

Lemma blind_safe_rmtree q ignore_errors :
  stats_blind (safe_rmtree self q ignore_errors).
Proof.
  unfold safe_rmtree.
  apply blind_bind; [apply blind_liftW|]. intros present.
  apply blind_if; [apply blind_ret|].
  apply blind_try_except.
  { apply blind_bind; [|intros _; apply blind_ret].
    unfold _rmtree_with_retries, Shutil.rmtree.
    apply (blind_by_rlimit
             (fun fuel => Shutil._rmtree_unsafe fuel (retry_on_error self) q)).
    intros fuel. apply blind_rmtree_unsafe. apply blind_retry_on_error. }
  intros e. apply blind_try_except.
  { apply blind_bind; [|intros _; apply blind_ret].
    unfold _force_rmtree. apply blind_bind.
    - unfold Shutil.walk.
      apply (blind_by_rlimit (fun fuel => Shutil.walk_bottom_up fuel q _)).
      intros fuel. apply blind_walk. intros root dirs files_.
      apply blind_bind.
      + apply blind_for_each. intros file. apply blind_try_except.
        * apply blind_bind; [apply blind_liftW|]. intros _.
          apply blind_modify_stats.
        * intros; apply blind_ret.
      + intros _. apply blind_for_each. intros dir. apply blind_try_except.
        * apply blind_bind; [apply blind_liftW|]. intros _.
          apply blind_modify_stats.
        * intros; apply blind_ret.
    - intros _. unfold Shutil.rmtree.
      apply (blind_by_rlimit
               (fun fuel => Shutil._rmtree_unsafe fuel force_remove_readonly q)).
      intros fuel. apply blind_rmtree_unsafe.
      apply blind_force_remove_readonly. }
  intros e2. apply blind_try_except.
  { apply blind_bind; [|intros _; apply blind_ret]. apply blind_manual. }
  intros e3. apply blind_bind; [apply blind_modify_stats|]. intros _.
  apply blind_if; [apply blind_ret|apply blind_raise].
Qed.

End StatsBlind.

(** The statistics are written and never read: whatever the counters
    hold, teardown returns the same result and leaves the same world. *)
Lemma stats_never_steer_teardown (self : policy) p ignore_errors
  (st1 st2 : cleanup_stats) (w : world) :
  fst (WindowsFileSystemCleaner.safe_rmtree self p ignore_errors
         (mkCState st1 w))
  = fst (WindowsFileSystemCleaner.safe_rmtree self p ignore_errors
           (mkCState st2 w))
  /\ cworld (snd (WindowsFileSystemCleaner.safe_rmtree self p ignore_errors
                    (mkCState st1 w)))
     = cworld (snd (WindowsFileSystemCleaner.safe_rmtree self p ignore_errors
                      (mkCState st2 w))).
Proof. apply blind_safe_rmtree. reflexivity. Qed.

(** C9, evaluated.  The counters do not count removals.  (1) Teardown of
    [tmp/d] with its one file succeeds by the first strategy: a file and a
    directory are removed, [files_removed] and [dirs_removed] stay 0.
    (2) [_force_rmtree] adds to [files_removed] when [os.chmod] succeeds:
    on a locked file it reports 1 while the file is still there.
    (3) [_manual_rmtree] removes the file and the directory and reports
    one file and no directory. *)
Theorem removal_counters_do_not_count_removals :
  let p := ["tmp"; "d"]%string in
  let f := ["tmp"; "d"; "f"]%string in
  let fresh := mkCState zero_stats (quiet_world one_file_tree) in
  (let '(r, s') := WindowsFileSystemCleaner.safe_rmtree default_policy p false
                     fresh in
   r = Ok true
   /\ files (cworld fresh) f = Some EFile
   /\ files (cworld s') f = None
   /\ files (cworld fresh) p = Some (EDir ["f"%string])
   /\ files (cworld s') p = None
   /\ files_removed (stats s') = 0
   /\ dirs_removed (stats s') = 0)
  /\ (let '(r, s') := WindowsFileSystemCleaner._force_rmtree p
                        (mkCState zero_stats locked_world) in
      r = Raise locked
      /\ files (cworld s') f = Some EFile
      /\ files_removed (stats s') = 1)
  /\ (let '(r, s') := WindowsFileSystemCleaner._manual_rmtree default_policy
                        p 0 fresh in
      r = Ok tt
      /\ files (cworld s') f = None
      /\ files (cworld s') p = None
      /\ files_removed (stats s') = 1
      /\ dirs_removed (stats s') = 0).
Proof. vm_compute. repeat split. Qed.

(** ** The manual strategy on a directory tree *)

Lemma under_refl p : under p p.
Proof. exists []. symmetry. apply app_nil_r. Qed.

Lemma under_child p n q : under (os_path_join p n) q -> under p q.
Proof.
  intros (rest & ->). exists (n :: rest). unfold os_path_join.
  rewrite <- app_assoc. reflexivity.
Qed.

Lemma under_siblings p n1 n2 q :
  under (os_path_join p n1) q -> under (os_path_join p n2) q -> n1 = n2.
Proof.
  unfold os_path_join. intros (r1 & ->) (r2 & E).
  rewrite <- !app_assoc in E. apply app_inv_head in E.
  simpl in E. congruence.
Qed.

Lemma not_under_child p n : ~ under (os_path_join p n) p.
Proof.
  unfold os_path_join. intros (rest & E).
  apply (f_equal (@length string)) in E. rewrite !length_app in E.
  simpl in E. lia.
Qed.

Lemma postorder_under t : forall p q, In q (postorder p t) -> under p q.
Proof.
  induction t as [|cs IH] using tree_induction; intros p q Hq; simpl in Hq.
  - destruct Hq as [<-|[]]. apply under_refl.
  - apply in_app_or in Hq. destruct Hq as [Hq|[<-|[]]]; [|apply under_refl].
    apply in_flat_map in Hq. destruct Hq as (c & Hc & Hq).
    rewrite Forall_forall in IH. apply under_child with (n := fst c).
    eapply IH; eauto.
Qed.

Lemma postorder_root p t : In p (postorder p t).
Proof.
  destruct t; simpl; [auto|]. apply in_or_app. right. simpl. auto.
Qed.

Lemma removals_app l1 l2 : removals (l1 ++ l2) = removals l1 ++ removals l2.
Proof. apply flat_map_app. Qed.


Lemma nesting_child cs n cs' :
  In (n, TDir cs') cs -> S (nesting (TDir cs')) <= nesting (TDir cs).
Proof.
  induction cs as [|c cs IH]; intros Hin; [destruct Hin|].
  change (nesting (TDir (c :: cs)))
    with (Nat.max match snd c with
                  | TFile => 0
                  | TDir _ => S (nesting (snd c))
                  end (nesting (TDir cs))).
  destruct Hin as [->|Hin].
  - cbn [snd]. apply Nat.le_max_l.
  - specialize (IH Hin). etransitivity; [exact IH|apply Nat.le_max_r].
Qed.



Lemma under_trans p q r : under p q -> under q r -> under p r.
Proof.
  intros (a & ->) (b & ->). exists (a ++ b). rewrite app_assoc. reflexivity.
Qed.

Lemma under_join p n : under p (os_path_join p n).
Proof. exists [n]. reflexivity. Qed.

(** [holds f p t] looks at [f] under [p] only. *)
Lemma holds_frame t :
  forall f f' p,
    (forall q, under p q -> f' q = f q) -> holds f p t -> holds f' p t.
Proof.
  induction t as [|cs IH] using tree_induction; intros f f' p Hff Hh;
    inversion Hh as [p0 Hfile | p0 names cs0 Hp Hl Hnd Hch]; subst.
  - constructor. rewrite Hff by apply under_refl. assumption.
  - apply holds_dir with (names := names).
    + rewrite Hff by apply under_refl. assumption.
    + rewrite <- Hl. unfold listing. apply filter_ext. intros n.
      unfold exists_in. rewrite Hff by apply under_join. reflexivity.
    + assumption.
    + rewrite Forall_forall in *. intros c Hc.
      apply (IH c Hc f f'); [|auto].
      intros q Hq. apply Hff. eapply under_trans; [apply under_join|exact Hq].
Qed.

Lemma filter_nil_when {A} (P : A -> bool) l :
  (forall x, In x l -> P x = false) -> filter P l = [].
Proof.
  induction l as [|x l IH]; intros H; simpl; [reflexivity|].
  rewrite (H x) by (left; reflexivity). apply IH.
  intros y Hy. apply H. right. exact Hy.
Qed.

Section ManualTree.

Import WindowsFileSystemCleaner.

Variable self : policy.
Hypothesis retries_allowed : 0 < max_retries self.








End ManualTree.





Lemma sample_files_hold :
  holds sample_files ["tmp"; "d"]%string sample_tree.
Proof.
  unfold sample_tree.
  apply holds_dir with (names := ["notes.txt"; "sub"]%string);
    [reflexivity | reflexivity | |].
  - repeat constructor; simpl; intuition discriminate.
  - repeat constructor.
    apply holds_dir with (names := ["a"; "b"]%string);
      [reflexivity | reflexivity | |].
    + repeat constructor; simpl; intuition discriminate.
    + repeat constructor.
Defined.


(** ** The native delete on a directory tree *)

Lemma world_removes_refl w : world_removes w w [] [].
Proof.
  unfold world_removes. rewrite app_nil_r. repeat split; auto.
  intros q [].
Qed.

Lemma world_removes_trans w w1 w2 g1 g2 e1 e2 :
  world_removes w w1 g1 e1 -> world_removes w1 w2 g2 e2 ->
  world_removes w w2 (g1 ++ g2) (e1 ++ e2).
Proof.
  intros (A1 & B1 & T1 & D1 & L1) (A2 & B2 & T2 & D2 & L2).
  repeat split.
  - intros q Hq. destruct (in_dec path_eq_dec q g2) as [H2|H2]; [auto|].
    rewrite B2 by exact H2. apply A1.
    apply in_app_or in Hq. tauto.
  - intros q Hq. rewrite B2, B1; [reflexivity| |];
      intros Hin; apply Hq; apply in_or_app; auto.
  - rewrite T2, T1, app_assoc. reflexivity.
  - congruence.
  - congruence.
Qed.

Section NativeDelete.

Context {S : Type} `{HasWorld S}.

Lemma same_frame_refl (s : S) : same_frame s s.
Proof. intros X g Hg. reflexivity. Qed.

Lemma same_frame_trans (s1 s2 s3 : S) :
  same_frame s1 s2 -> same_frame s2 s3 -> same_frame s1 s3.
Proof.
  intros H12 H23 X g Hg. rewrite (H23 X g Hg). apply H12. exact Hg.
Qed.

Lemma same_frame_update (s : S) w : same_frame s (update s w).
Proof. intros X g Hg. apply Hg. Qed.

Lemma lift_remove_ok (s : S) q :
  fault_free (view s) ->
  files (view s) q = Some EFile ->
  exists s',
    liftW (OS.remove q) s = (Ok tt, s')
    /\ world_removes (view s) (view s') [q] [Remove q]
    /\ same_frame s s'.
Proof.
  intros Hnf Hq. unfold liftW, OS.remove, OS.syscall.
  rewrite Hnf, Hq. eexists. split; [reflexivity|].
  split; [|apply same_frame_update].
  rewrite view_update. unfold world_removes. simpl. repeat split.
  - intros q' [<-|[]]. unfold unlink_entry.
    destruct (path_eq_dec q q); [reflexivity|contradiction].
  - intros q' Hq'. unfold unlink_entry.
    destruct (path_eq_dec q' q) as [->|]; [|reflexivity].
    exfalso. apply Hq'. left. reflexivity.
Qed.

Lemma lift_rmdir_ok (s : S) q names :
  fault_free (view s) ->
  files (view s) q = Some (EDir names) ->
  listing (files (view s)) q names = [] ->
  exists s',
    liftW (OS.rmdir q) s = (Ok tt, s')
    /\ world_removes (view s) (view s') [q] [Rmdir q]
    /\ same_frame s s'.
Proof.
  intros Hnf Hq Hl. unfold liftW, OS.rmdir, OS.syscall.
  rewrite Hnf, Hq, Hl. eexists. split; [reflexivity|].
  split; [|apply same_frame_update].
  rewrite view_update. unfold world_removes. simpl. repeat split.
  - intros q' [<-|[]]. unfold unlink_entry.
    destruct (path_eq_dec q q); [reflexivity|contradiction].
  - intros q' Hq'. unfold unlink_entry.
    destruct (path_eq_dec q' q) as [->|]; [|reflexivity].
    exfalso. apply Hq'. left. reflexivity.
Qed.

Variable onerror : osfunc -> path -> exn -> M S unit.

Lemma rmtree_body_on_dir fuel p (s : S) names :
  fault_free (view s) ->
  files (view s) p = Some (EDir names) ->
  Shutil._rmtree_unsafe (Datatypes.S fuel) onerror p s
  = bind (for_each (listing (files (view s)) p names)
            (rmtree_child_step fuel onerror p))
      (fun _ => try_except_when is_OSError (liftW (OS.rmdir p))
                  (fun e => onerror os_rmdir p e))
      (update s (record_event (Scandir p) (view s))).
Proof.
  intros Hnf Hp.
  change (Shutil._rmtree_unsafe (Datatypes.S fuel) onerror p s)
    with (bind (try_except_when is_OSError (liftW (OS.scandir p))
                  (fun e => onerror os_scandir p e ;; ret []))
            (fun entries =>
               for_each entries (rmtree_child_step fuel onerror p) ;;
               try_except_when is_OSError (liftW (OS.rmdir p))
                 (fun e => onerror os_rmdir p e)) s).
  unfold bind at 1. unfold try_except_when, try_except at 1.
  unfold liftW at 1. unfold OS.scandir, OS.read_dir, OS.syscall.
  rewrite Hnf, Hp. reflexivity.
Qed.

Lemma native_children_removed fuel p :
  forall cs (s : S),
    fault_free (view s) ->
    NoDup (map fst cs) ->
    Forall (fun c => holds (files (view s)) (os_path_join p (fst c)) (snd c))
      cs ->
    Forall (fun c => natively_removed onerror fuel (snd c)) cs ->
    (forall c, In c cs ->
       match snd c with
       | TFile => True
       | TDir _ => nesting (snd c) < fuel
       end) ->
    exists s',
      for_each (map fst cs) (rmtree_child_step fuel onerror p) s = (Ok tt, s')
      /\ world_removes (view s) (view s')
           (flat_map (fun c => postorder (os_path_join p (fst c)) (snd c)) cs)
           (flat_map (fun c => native_events (os_path_join p (fst c)) (snd c))
              cs)
      /\ same_frame s s'.
Proof.
  induction cs as [|[n tc] cs IH]; intros s Hnf Hnd Hh Hrec Hfit.
  - exists s. split; [reflexivity|].
    split; [apply world_removes_refl|apply same_frame_refl].
  - inversion Hh as [|c0 cs0 Hh1 Hh2]; subst.
    inversion Hrec as [|c0 cs0 Hr1 Hr2]; subst.
    inversion Hnd as [|n0 ns0 Hfresh Hnd']; subst.
    simpl in Hh1, Hr1, Hfresh.
    assert (Hstep : exists s1,
      rmtree_child_step fuel onerror p n s = (Ok tt, s1)
      /\ world_removes (view s) (view s1) (postorder (os_path_join p n) tc)
           (native_events (os_path_join p n) tc)
      /\ same_frame s s1).
    { pose (sq := update s (view s)).
      assert (Hv : view sq = view s) by apply view_update.
      assert (Hfq : same_frame s sq) by apply same_frame_update.
      destruct tc as [|cs'].
      - inversion Hh1 as [q Hq|]; subst.
        destruct (lift_remove_ok sq (os_path_join p n)) as (s1 & E1 & R1 & F1).
        + rewrite Hv. exact Hnf.
        + rewrite Hv. exact Hq.
        + exists s1. rewrite Hv in R1. split; [|split; [exact R1|]].
          * unfold rmtree_child_step, bind.
            unfold liftW at 1. unfold OS.path_isdir. rewrite Hq.
            unfold try_except_when, try_except. fold sq. rewrite E1.
            reflexivity.
          * eapply same_frame_trans; eauto.
      - inversion Hh1 as [|q names cs0' Hq Hl Hn Hc]; subst.
        destruct (Hr1 (os_path_join p n) sq) as (s1 & E1 & R1 & F1).
        + rewrite Hv. exact Hnf.
        + rewrite Hv. exact Hh1.
        + apply (Hfit (n, TDir cs')). left. reflexivity.
        + exists s1. rewrite Hv in R1. split; [|split; [exact R1|]].
          * unfold rmtree_child_step, bind.
            unfold liftW at 1. unfold OS.path_isdir. rewrite Hq.
            fold sq. exact E1.
          * eapply same_frame_trans; eauto. }
    destruct Hstep as (s1 & E1 & R1 & F1).
    pose proof R1 as (A1 & B1 & T1 & D1 & L1).
    destruct (IH s1) as (s2 & E2 & R2 & F2).
    + intros ev k. rewrite D1. apply Hnf.
    + exact Hnd'.
    + rewrite Forall_forall in *. intros c Hc.
      apply holds_frame with (f := files (view s)); [|auto].
      intros q Hq. apply B1. intros Hin.
      apply postorder_under in Hin.
      assert (n = fst c) by (eapply under_siblings; eauto). subst n.
      apply Hfresh. apply in_map. exact Hc.
    + exact Hr2.
    + intros c Hc. apply Hfit. right. exact Hc.
    + exists s2. split; [|split].
      * simpl. unfold bind. rewrite E1. exact E2.
      * simpl. eapply world_removes_trans; eauto.
      * eapply same_frame_trans; eauto.
Qed.

Lemma rmtree_removes_directory t :
  forall fuel, natively_removed onerror fuel t.
Proof.
  induction t as [|cs IH] using tree_induction; intros fuel; [exact I|].
  intros p s Hnf Hh Hfuel.
  destruct fuel as [|fuel]; [lia|].
  inversion Hh as [|q names cs0 Hq Hl Hn Hc]; subst.
  rewrite rmtree_body_on_dir with (names := names) by assumption.
  rewrite Hl. set (s0 := update s (record_event (Scandir p) (view s))).
  assert (Hv0 : view s0 = record_event (Scandir p) (view s))
    by apply view_update.
  assert (R0 : world_removes (view s) (view s0) [] [Scandir p]).
  { rewrite Hv0. unfold world_removes. simpl. repeat split; auto.
    intros q []. }
  destruct (@native_children_removed fuel p cs s0) as (s1 & E1 & R1 & F1).
  - rewrite Hv0. exact Hnf.
  - exact Hn.
  - rewrite Hv0. exact Hc.
  - rewrite Forall_forall in *. intros c Hc'. apply IH. exact Hc'.
  - intros [n tc] Hin. simpl. destruct tc as [|cs']; [exact I|].
    pose proof (nesting_child _ _ _ Hin). lia.
  - pose proof R1 as (A1 & B1 & T1 & D1 & L1).
    assert (Hroot : ~ In p (flat_map
              (fun c => postorder (os_path_join p (fst c)) (snd c)) cs)).
    { intros Hin. apply in_flat_map in Hin. destruct Hin as (c & _ & Hin).
      apply postorder_under in Hin. exact (@not_under_child p (fst c) Hin). }
    destruct (@lift_rmdir_ok s1 p names) as (s2 & E2 & R2 & F2).
    + intros ev k. rewrite D1, Hv0. apply Hnf.
    + rewrite B1 by exact Hroot. rewrite Hv0. exact Hq.
    + apply filter_nil_when. intros n Hn'. unfold exists_in.
      destruct (files (view s0) (os_path_join p n)) as [e|] eqn:Eo.
      * assert (Hl' : In n (map fst cs)).
        { rewrite <- Hl. unfold listing. apply filter_In.
          split; [exact Hn'|]. unfold exists_in. rewrite Hv0 in Eo.
          simpl in Eo. rewrite Eo. reflexivity. }
        apply in_map_iff in Hl'. destruct Hl' as (c & <- & Hc').
        rewrite A1; [reflexivity|]. apply in_flat_map.
        exists c. split; [exact Hc'|apply postorder_root].
      * destruct (in_dec path_eq_dec (os_path_join p n)
                    (flat_map (fun c => postorder (os_path_join p (fst c))
                                          (snd c)) cs)) as [Hi|Hi].
        -- rewrite A1 by exact Hi. reflexivity.
        -- rewrite B1 by exact Hi. rewrite Eo. reflexivity.
    + exists s2. split; [|split].
      * unfold bind. rewrite E1. unfold try_except_when, try_except.
        rewrite E2. reflexivity.
      * simpl postorder. simpl native_events.
        change (Scandir p :: ?l) with ([Scandir p] ++ l).
        apply world_removes_trans with (w1 := view s0) (g1 := []);
          [exact R0|].
        eapply world_removes_trans; eauto.
      * eapply same_frame_trans; [apply same_frame_update|].
        eapply same_frame_trans; eauto.
Qed.

End NativeDelete.

(** The native delete removes in post-order too. *)
Lemma removals_native_events t :
  forall p, removals (native_events p t) = postorder p t.
Proof.
  induction t as [|cs IH] using tree_induction; intros p; simpl.
  - reflexivity.
  - rewrite removals_app. simpl. f_equal.
    induction cs as [|c cs IHcs]; simpl; [reflexivity|].
    inversion IH; subst. rewrite removals_app. f_equal; auto.
Qed.

Lemma native_events_are_native t :
  forall p, Forall native_event (native_events p t).
Proof.
  induction t as [|cs IH] using tree_induction; intros p; simpl.
  - repeat constructor.
  - constructor; [exact I|]. apply Forall_app. split; [|repeat constructor].
    apply Forall_flat_map. rewrite Forall_forall in *. intros c Hc.
    apply IH. exact Hc.
Qed.

(** The first strategy is enough on a tree that nothing protects. *)
Lemma first_strategy_suffices (self : policy)
  (cs : list (string * tree)) (p : path) (ignore_errors : bool) (s : cstate) :
  fault_free (cworld s) ->
  holds (files (cworld s)) p (TDir cs) ->
  nesting (TDir cs) < rlimit (cworld s) ->
  exists s',
    WindowsFileSystemCleaner.safe_rmtree self p ignore_errors s = (Ok true, s')
    /\ stats s' = stats s
    /\ world_removes (cworld s) (cworld s') (postorder p (TDir cs))
         (native_events p (TDir cs)).
Proof.
  intros Hnf Hh Hfuel. destruct s as [st w]. cbn [cworld stats] in *.
  destruct (@rmtree_removes_directory cstate cstate_HasWorld
              (WindowsFileSystemCleaner.retry_on_error self) (TDir cs)
              (rlimit w) p (mkCState st w) Hnf Hh Hfuel)
    as (s' & E & R & F).
  exists s'. split.
  - unfold WindowsFileSystemCleaner.safe_rmtree, bind, liftW,
      OS.path_exists, exists_in. simpl.
    inversion Hh as [|q names cs0 Hq Hl Hn Hc]; subst. rewrite Hq. simpl.
    unfold try_except, bind,
      WindowsFileSystemCleaner._rmtree_with_retries, Shutil.rmtree.
    simpl. rewrite E. reflexivity.
  - split; [exact (F _ stats (fun _ _ => eq_refl))|exact R].
Qed.

(** X1.  When the filesystem holds a directory tree at [p], no
    system call fails and the interpreter's recursion limit exceeds the
    nesting of the tree, [WindowsFileSystemCleaner.safe_rmtree] returns
    [True] by its first strategy alone, whatever the retry policy: the
    whole tree is gone, every other path is as before, the removals are in
    post-order, the only system calls are those of the native delete (no
    attribute change, no sleep), and the statistics are untouched. *)
Theorem cleaner_safe_rmtree_removes_tree (self : policy)
  (cs : list (string * tree)) (p : path) (ignore_errors : bool) (s : cstate) :
  fault_free (cworld s) ->
  holds (files (cworld s)) p (TDir cs) ->
  nesting (TDir cs) < rlimit (cworld s) ->
  exists s',
    WindowsFileSystemCleaner.safe_rmtree self p ignore_errors s = (Ok true, s')
    /\ stats s' = stats s
    /\ world_removes (cworld s) (cworld s') (postorder p (TDir cs))
         (native_events p (TDir cs))
    /\ files (cworld s') p = None
    /\ removals (native_events p (TDir cs)) = postorder p (TDir cs)
    /\ Forall native_event (native_events p (TDir cs)).
Proof.
  intros Hnf Hh Hfuel.
  destruct (@first_strategy_suffices self cs p ignore_errors s Hnf Hh Hfuel)
    as (s' & E & Hs & R).
  exists s'. split; [exact E|]. split; [exact Hs|]. split; [exact R|].
  split; [destruct R as (A & _); apply A; apply postorder_root|].
  split; [apply (removals_native_events (TDir cs) p)
         |apply (native_events_are_native (TDir cs) p)].
Qed.

Lemma cleaner_safe_rmtree_removes_tree_witness :
  exists s',
    WindowsFileSystemCleaner.safe_rmtree default_policy ["tmp"; "d"]%string
      false (mkCState zero_stats (quiet_world sample_files))
    = (Ok true, s')
    /\ stats s' = zero_stats
    /\ files (cworld s') ["tmp"; "d"]%string = None.
Proof.
  destruct (@cleaner_safe_rmtree_removes_tree default_policy
              [("notes.txt"%string, TFile);
               ("sub"%string, TDir [("a"%string, TFile); ("b"%string, TFile)])]
              ["tmp"; "d"]%string false
              (mkCState zero_stats (quiet_world sample_files)))
    as (s' & E & Hst & _ & Hp & _).
  - intros ev k. reflexivity.
  - exact sample_files_hold.
  - vm_compute. lia.
  - exists s'. split; [exact E|]. split; [exact Hst|exact Hp].
Defined.

(** Every branch of the adapter removes a tree that nothing protects. *)
Lemma adapter_removes_tree (self : PlatformAdapter.t)
  (cs : list (string * tree)) (p : path) (ignore_errors : bool) (w : world) :
  fault_free w ->
  holds (files w) p (TDir cs) ->
  nesting (TDir cs) < rlimit w ->
  exists w',
    PlatformAdapter.safe_rmtree self p ignore_errors w = (Ok true, w')
    /\ world_removes w w' (postorder p (TDir cs)) (native_events p (TDir cs))
    /\ files w' p = None.
Proof.
  intros Hnf Hh Hfuel.
  assert (Hstd : exists w',
    PlatformAdapter.standard_rmtree p ignore_errors w = (Ok true, w')
    /\ world_removes w w' (postorder p (TDir cs)) (native_events p (TDir cs))
    /\ files w' p = None).
  { destruct (@rmtree_removes_directory world world_HasWorld
                Shutil.onerror_raise (TDir cs) (rlimit w) p w Hnf Hh Hfuel)
      as (w' & E & R & _).
    exists w'. split; [|split; [exact R|]].
    - unfold PlatformAdapter.standard_rmtree, try_except, bind,
        Shutil.rmtree. cbn [view world_HasWorld]. rewrite E. reflexivity.
    - destruct R as (A & _). apply A. apply postorder_root. }
  unfold PlatformAdapter.safe_rmtree.
  destruct (negb (PlatformAdapter._is_windows self)); [exact Hstd|].
  destruct (PlatformAdapter.windows_cleanup_importable self); [|exact Hstd].
  destruct (@first_strategy_suffices default_policy cs p
              ignore_errors (mkCState zero_stats w) Hnf Hh Hfuel)
    as (s' & E & _ & R).
  unfold safe_windows_rmtree. rewrite E. exists (cworld s').
  split; [reflexivity|]. split; [exact R|].
  destruct R as (A & _). apply A. apply postorder_root.
Qed.

(** X2.  When the filesystem holds a directory tree at [p], no system
    call fails and the recursion limit exceeds the nesting of the tree,
    [PlatformAdapter.safe_rmtree] returns [True] on every branch
    (non-Windows, Windows, Windows without the cleanup module) and leaves
    the same world on each: the tree is gone, nothing else has changed,
    only the native delete ran, and the removals are in post-order. *)
Theorem adapter_safe_rmtree_removes_tree (self : PlatformAdapter.t)
  (cs : list (string * tree)) (p : path) (ignore_errors : bool) (w : world) :
  fault_free w ->
  holds (files w) p (TDir cs) ->
  nesting (TDir cs) < rlimit w ->
  exists w',
    PlatformAdapter.safe_rmtree self p ignore_errors w = (Ok true, w')
    /\ world_removes w w' (postorder p (TDir cs)) (native_events p (TDir cs))
    /\ files w' p = None
    /\ removals (native_events p (TDir cs)) = postorder p (TDir cs).
Proof.
  intros Hnf Hh Hfuel.
  destruct (@adapter_removes_tree self cs p ignore_errors w Hnf Hh Hfuel)
    as (w' & E & R & Hp).
  exists w'. split; [exact E|]. split; [exact R|]. split; [exact Hp|].
  apply (removals_native_events (TDir cs) p).
Qed.

Lemma adapter_safe_rmtree_removes_tree_witness :
  exists w',
    PlatformAdapter.safe_rmtree PlatformAdapter.posix ["tmp"; "d"]%string
      false (quiet_world sample_files)
    = (Ok true, w')
    /\ files w' ["tmp"; "d"]%string = None.
Proof.
  destruct (@adapter_safe_rmtree_removes_tree PlatformAdapter.posix
              [("notes.txt"%string, TFile);
               ("sub"%string, TDir [("a"%string, TFile); ("b"%string, TFile)])]
              ["tmp"; "d"]%string false (quiet_world sample_files))
    as (w' & E & _ & Hp & _).
  - intros ev k. reflexivity.
  - exact sample_files_hold.
  - vm_compute. lia.
  - exists w'. split; [exact E|exact Hp].
Defined.

(** ** Creation of the directory *)

Lemma mkdtemp_created prefix (w w1 : world) d :
  Tempfile.mkdtemp prefix w = (Ok d, w1) ->
  (exists suffix,
     d = os_path_join Tempfile.gettempdir (prefix ++ suffix)%string)
  /\ files w d = None
  /\ files w1 d = Some (EDir [])
  /\ (forall q, q <> d -> q <> Tempfile.gettempdir -> files w1 q = files w q)
  /\ trace w1 = trace w ++ [Mkdtemp d]
  /\ faults w1 = faults w
  /\ rlimit w1 = rlimit w.
Proof.
  unfold Tempfile.mkdtemp, OS.syscall.
  set (name := (prefix ++ _)%string).
  set (p := os_path_join Tempfile.gettempdir name).
  destruct (faults w (Mkdtemp p) _); [discriminate|].
  destruct (files w Tempfile.gettempdir) as [[|names]|] eqn:Et;
    try discriminate.
  destruct (exists_in (files w) p) eqn:Ex; [discriminate|].
  intros E. inversion E; subst d w1. clear E. simpl.
  split; [eexists; reflexivity|].
  split.
  { unfold exists_in in Ex. destruct (files w p); [discriminate|reflexivity]. }
  split.
  { unfold Tempfile.mkdir_entry, add_entry. fold p.
    destruct (path_eq_dec p p); [reflexivity|contradiction]. }
  split; [|auto].
  intros q Hq Ht. unfold Tempfile.mkdir_entry, add_entry. fold p.
  destruct (path_eq_dec q p); [contradiction|].
  destruct (path_eq_dec q Tempfile.gettempdir); [contradiction|reflexivity].
Qed.

Lemma substring_prefix n s : String.prefix (substring 0 n s) s = true.
Proof.
  revert n. induction s as [|c s IH]; intros [|n]; simpl; try reflexivity.
  destruct (Ascii.ascii_dec c c); [apply IH|contradiction].
Qed.

Lemma substring_length n s :
  String.length (substring 0 n s) = Nat.min n (String.length s).
Proof.
  revert n. induction s as [|c s IH]; intros [|n]; simpl; try reflexivity.
  rewrite IH. reflexivity.
Qed.

Lemma prefix_refl s : String.prefix s s = true.
Proof.
  induction s as [|c s IH]; simpl; [reflexivity|].
  destruct (Ascii.ascii_dec c c); [exact IH|contradiction].
Qed.

Lemma adapter_create_is_mkdtemp (self : PlatformAdapter.t) prefix :
  PlatformAdapter.create_safe_tempdir self prefix
  = Tempfile.mkdtemp (effective_prefix self prefix).
Proof.
  unfold PlatformAdapter.create_safe_tempdir, effective_prefix,
    windows_create_safe_tempdir.
  destruct (PlatformAdapter._is_windows self),
    (PlatformAdapter.windows_cleanup_importable self); reflexivity.
Qed.

(** X3.  A directory that [PlatformAdapter.create_safe_tempdir]
    returns lies in the temporary root; it did not exist before and is an
    empty directory afterwards; nothing else but the root's listing has
    changed.  Its name starts with the requested prefix, cut to its first
    20 characters on Windows (with the cleanup module), and in full on
    every other branch. *)
Theorem create_safe_tempdir_result (self : PlatformAdapter.t)
  (prefix : string) (w w1 : world) (d : path) :
  PlatformAdapter.create_safe_tempdir self prefix w = (Ok d, w1) ->
  (exists suffix,
     d = os_path_join Tempfile.gettempdir
           (effective_prefix self prefix ++ suffix)%string)
  /\ String.prefix (effective_prefix self prefix) prefix = true
  /\ String.length (effective_prefix self prefix)
     = (if PlatformAdapter._is_windows self
           && PlatformAdapter.windows_cleanup_importable self
        then Nat.min 20 (String.length prefix)
        else String.length prefix)
  /\ files w d = None
  /\ holds (files w1) d (TDir [])
  /\ (forall q, q <> d -> q <> Tempfile.gettempdir -> files w1 q = files w q)
  /\ trace w1 = trace w ++ [Mkdtemp d].
Proof.
  rewrite adapter_create_is_mkdtemp. intros E.
  destruct (mkdtemp_created _ _ E) as (Hname & Hnew & Hdir & Hrest & Ht & _).
  split; [exact Hname|]. split; [|split].
  - unfold effective_prefix. destruct (_ && _ && _);
      [apply substring_prefix|apply prefix_refl].
  - unfold effective_prefix.
    destruct (PlatformAdapter._is_windows self
              && PlatformAdapter.windows_cleanup_importable self);
      cbn [andb].
    + destruct (20 <? String.length prefix) eqn:Hl; cbn [andb].
      * rewrite substring_length. reflexivity.
      * apply Nat.ltb_ge in Hl. symmetry. apply Nat.min_r. exact Hl.
    + reflexivity.
  - split; [exact Hnew|]. split; [|split; [exact Hrest|exact Ht]].
    apply holds_dir with (names := []); [exact Hdir|reflexivity| |];
      constructor.
Qed.

Lemma create_safe_tempdir_result_witness :
  exists suffix,
    fst (PlatformAdapter.create_safe_tempdir PlatformAdapter.windows
           "a_prefix_of_more_than_twenty_characters_" (quiet_world empty_tmp))
    = Ok (os_path_join Tempfile.gettempdir
            ("a_prefix_of_more_tha" ++ suffix)%string).
Proof.
  pose (x := PlatformAdapter.create_safe_tempdir PlatformAdapter.windows
               "a_prefix_of_more_than_twenty_characters_"
               (quiet_world empty_tmp)).
  destruct (@create_safe_tempdir_result PlatformAdapter.windows
              "a_prefix_of_more_than_twenty_characters_"
              (quiet_world empty_tmp) (snd x) ["tmp"; "a_prefix_of_more_tha0"]%string
              eq_refl) as ((suffix & Hd) & _).
  exists suffix.
  change (effective_prefix PlatformAdapter.windows
            "a_prefix_of_more_than_twenty_characters_")
    with "a_prefix_of_more_tha"%string in Hd.
  rewrite <- Hd. reflexivity.
Defined.

(** ** The scoped handles on a removable directory *)

Lemma created_path_truthy (self : PlatformAdapter.t) prefix (w w1 : world) d :
  PlatformAdapter.create_safe_tempdir self prefix w = (Ok d, w1) ->
  truthy_path d = true.
Proof.
  rewrite adapter_create_is_mkdtemp. intros E.
  destruct (mkdtemp_created _ _ E) as ((sfx & ->) & _).
  reflexivity.
Qed.

(** X4.  Let the adapter of the repository create the directory [d],
    and let the body end, normally or with an exception, in a world that
    holds a directory tree at [d], where no system call fails and the
    recursion limit exceeds the nesting of the tree.  Then
    [safe_temp_directory] passes the body's outcome on unchanged; with
    [auto_cleanup] the tree is gone and nothing else has changed, without
    [auto_cleanup] the world is the one the body left. *)
Theorem safe_temp_directory_cleans_up (self : PlatformAdapter.t)
  (prefix : string) (B : Type) (body : path -> M world B) (r : result B)
  (w w1 w2 : world) (d : path) (cs : list (string * tree)) :
  PlatformAdapter.create_safe_tempdir self prefix w = (Ok d, w1) ->
  body d w1 = (r, w2) ->
  fault_free w2 ->
  holds (files w2) d (TDir cs) ->
  nesting (TDir cs) < rlimit w2 ->
  (exists w3,
     safe_temp_directory (PlatformAdapter.ops self) prefix true body w
     = (r, w3)
     /\ world_removes w2 w3 (postorder d (TDir cs)) (native_events d (TDir cs))
     /\ files w3 d = None)
  /\ safe_temp_directory (PlatformAdapter.ops self) prefix false body w
     = (r, w2).
Proof.
  intros Hc Hb Hnf Hh Hfuel.
  pose proof (created_path_truthy _ _ _ Hc) as Htruthy.
  assert (Hex : exists_in (files w2) d = true).
  { inversion Hh as [|q names cs0 Hq Hl Hn Hch]; subst.
    unfold exists_in. rewrite Hq. reflexivity. }
  destruct (@adapter_removes_tree self cs d true w2 Hnf Hh Hfuel)
    as (w3 & E & R & Hgone).
  destruct d as [|c d']; [discriminate|].
  split.
  - exists w3. split; [|split; [exact R|exact Hgone]].
    unfold safe_temp_directory, safe_temp_directory_gen, try_finally,
      try_except, bind, liftW, set_self, get_self, raise, OS.path_exists.
    simpl. rewrite Hc. simpl. rewrite Hb. simpl.
    destruct r as [v|e]; simpl; rewrite Hex; simpl; rewrite E; reflexivity.
  - unfold safe_temp_directory, safe_temp_directory_gen, try_finally,
      try_except, bind, liftW, set_self, get_self, raise, OS.path_exists.
    simpl. rewrite Hc. simpl. rewrite Hb. simpl.
    destruct r as [v|e]; reflexivity.
Qed.

(** Files that a body leaves in its directory. *)
Lemma notes_written_hold :
  holds
    (files (snd (create_file ["tmp"; "audit_0"]%string "notes.txt"
                   (snd (Tempfile.mkdtemp "audit_" (quiet_world empty_tmp))))))
    ["tmp"; "audit_0"]%string (TDir [("notes.txt"%string, TFile)]).
Proof.
  apply holds_dir with (names := ["notes.txt"%string]);
    [reflexivity | reflexivity | |].
  - repeat constructor. simpl. tauto.
  - repeat constructor.
Defined.

Lemma safe_temp_directory_cleans_up_witness :
  exists w3,
    safe_temp_directory posix_ops "audit_" true
      (fun d => create_file d "notes.txt") (quiet_world empty_tmp)
    = (Ok tt, w3)
    /\ files w3 ["tmp"; "audit_0"]%string = None.
Proof.
  pose (w1 := snd (Tempfile.mkdtemp "audit_" (quiet_world empty_tmp))).
  pose (d := ["tmp"; "audit_0"]%string).
  pose (w2 := snd (create_file d "notes.txt" w1)).
  destruct (@safe_temp_directory_cleans_up PlatformAdapter.posix "audit_" unit
              (fun d => create_file d "notes.txt") (Ok tt)
              (quiet_world empty_tmp) w1 w2 d [("notes.txt"%string, TFile)])
    as ((w3 & E & _ & Hgone) & _).
  - reflexivity.
  - reflexivity.
  - intros ev k. reflexivity.
  - exact notes_written_hold.
  - vm_compute. lia.
  - exists w3. split; [exact E|exact Hgone].
Defined.

(** X5.  Let the adapter of the repository create the directory [d],
    and let the body end, normally or with an exception, in a world that
    holds a directory tree at [d], where no system call fails and the
    recursion limit exceeds the nesting of the tree.  Then a [with] block
    on a fresh [SafeTemporaryDirectory] (whatever its
    [ignore_cleanup_errors]) or on a fresh [SafeTempDir] passes the body's
    outcome on unchanged, leaves the handle torn down and the tree
    removed. *)
Theorem class_handles_clean_up (self : PlatformAdapter.t)
  (prefix : string) (di : option path) (ign : bool) (B : Type)
  (body : path -> M world B) (r : result B) (w w1 w2 : world) (d : path)
  (cs : list (string * tree)) :
  PlatformAdapter.create_safe_tempdir self prefix w = (Ok d, w1) ->
  body d w1 = (r, w2) ->
  fault_free w2 ->
  holds (files w2) d (TDir cs) ->
  nesting (TDir cs) < rlimit w2 ->
  (exists w3,
     with_statement SafeTemporaryDirectory.__enter__
       SafeTemporaryDirectory.__exit__ body
       (SafeTemporaryDirectory.mk prefix di ign None
          (PlatformAdapter.ops self), w)
     = (r, (SafeTemporaryDirectory.mk prefix di ign None
              (PlatformAdapter.ops self), w3))
     /\ world_removes w2 w3 (postorder d (TDir cs)) (native_events d (TDir cs))
     /\ files w3 d = None)
  /\ (exists w3,
        with_statement SafeTempDir.__enter__ SafeTempDir.__exit__ body
          (SafeTempDir.mk prefix None (PlatformAdapter.ops self), w)
        = (r, (SafeTempDir.mk prefix None (PlatformAdapter.ops self), w3))
        /\ world_removes w2 w3 (postorder d (TDir cs))
             (native_events d (TDir cs))
        /\ files w3 d = None).
Proof.
  intros Hc Hb Hnf Hh Hfuel. split.
  - destruct (@adapter_removes_tree self cs d ign w2 Hnf Hh Hfuel)
      as (w3 & E & R & Hgone).
    exists w3. split; [|split; [exact R|exact Hgone]].
    unfold with_statement, bind.
    rewrite (@enter_fresh
               (SafeTemporaryDirectory.mk prefix di ign None
                  (PlatformAdapter.ops self)) w w1 d eq_refl Hc).
    cbn [SafeTemporaryDirectory.prefix SafeTemporaryDirectory.dir
         SafeTemporaryDirectory.ignore_cleanup_errors
         SafeTemporaryDirectory.platform_adapter].
    unfold try_finally, liftW. cbn [view update pair_HasWorld fst snd].
    rewrite Hb. unfold SafeTemporaryDirectory.__exit__.
    rewrite (@cleanup_live
               (SafeTemporaryDirectory.mk prefix di ign (Some d)
                  (PlatformAdapter.ops self)) w2 d eq_refl).
    cbn [SafeTemporaryDirectory.prefix SafeTemporaryDirectory.dir
         SafeTemporaryDirectory.ignore_cleanup_errors
         SafeTemporaryDirectory.platform_adapter ops_safe_rmtree
         PlatformAdapter.ops].
    rewrite E. reflexivity.
  - destruct (@adapter_removes_tree self cs d true w2 Hnf Hh Hfuel)
      as (w3 & E & R & Hgone).
    exists w3. split; [|split; [exact R|exact Hgone]].
    unfold with_statement, bind, SafeTempDir.__enter__, SafeTempDir.create,
      bind, get_self, liftW.
    cbn [fst snd SafeTempDir.temp_dir SafeTempDir.prefix
         SafeTempDir.platform_adapter view update pair_HasWorld
         ops_create_safe_tempdir PlatformAdapter.ops].
    rewrite Hc.
    unfold SafeTempDir.set_temp_dir, bind, get_self, set_self, ret,
      try_finally.
    cbn [fst snd SafeTempDir.temp_dir SafeTempDir.prefix
         SafeTempDir.platform_adapter view update pair_HasWorld].
    rewrite Hb.
    unfold SafeTempDir.__exit__, SafeTempDir.cleanup, bind, get_self,
      try_except, liftW, SafeTempDir.set_temp_dir, set_self, ret.
    cbn [fst snd SafeTempDir.temp_dir SafeTempDir.prefix
         SafeTempDir.platform_adapter view update pair_HasWorld
         ops_safe_rmtree PlatformAdapter.ops].
    rewrite E. reflexivity.
Qed.

Lemma class_handles_clean_up_witness :
  exists w3,
    with_statement SafeTemporaryDirectory.__enter__
      SafeTemporaryDirectory.__exit__ (fun d => create_file d "notes.txt")
      (SafeTemporaryDirectory.mk "audit_" None true None posix_ops,
       quiet_world empty_tmp)
    = (Ok tt,
       (SafeTemporaryDirectory.mk "audit_" None true None posix_ops, w3))
    /\ files w3 ["tmp"; "audit_0"]%string = None.
Proof.
  pose (w1 := snd (Tempfile.mkdtemp "audit_" (quiet_world empty_tmp))).
  pose (d := ["tmp"; "audit_0"]%string).
  pose (w2 := snd (create_file d "notes.txt" w1)).
  destruct (@class_handles_clean_up PlatformAdapter.posix "audit_" None true
              unit (fun d => create_file d "notes.txt") (Ok tt)
              (quiet_world empty_tmp) w1 w2 d [("notes.txt"%string, TFile)])
    as ((w3 & E & _ & Hgone) & _).
  - reflexivity.
  - reflexivity.
  - intros ev k. reflexivity.
  - exact notes_written_hold.
  - vm_compute. lia.
  - exists w3. split; [exact E|exact Hgone].
Defined.

(** ** What teardown leaves alone *)

Section Keeps.

Context {S : Type} `{HasWorld S}.

Variable R : world -> world -> Prop.
Context {R_preorder : RelationClasses.PreOrder R}.

Lemma R_refl w : R w w.
Proof. apply RelationClasses.PreOrder_Reflexive. Qed.

Lemma R_trans w1 w2 w3 : R w1 w2 -> R w2 w3 -> R w1 w3.
Proof. apply RelationClasses.PreOrder_Transitive. Qed.

Lemma keeps_ret {A} (a : A) : keeps R (ret (S := S) a).
Proof. intros s r s' E. inversion E; subst. apply R_refl. Qed.

Lemma keeps_raise {A} e : keeps R (raise (S := S) (A := A) e).
Proof. intros s r s' E. inversion E; subst. apply R_refl. Qed.

Lemma keeps_bind {A B} (m : M S A) (k : A -> M S B) :
  keeps R m -> (forall a, keeps R (k a)) -> keeps R (bind m k).
Proof.
  intros Hm Hk s r s' E. unfold bind in E.
  destruct (m s) as [[a|e] s1] eqn:Em.
  - eapply R_trans; [eapply Hm; eauto | eapply Hk; eauto].
  - inversion E; subst. eapply Hm; eauto.
Qed.

Lemma keeps_try_except {A} (m : M S A) h :
  keeps R m -> (forall e, keeps R (h e)) -> keeps R (try_except m h).
Proof.
  intros Hm Hh s r s' E. unfold try_except in E.
  destruct (m s) as [[a|e] s1] eqn:Em.
  - inversion E; subst. eapply Hm; eauto.
  - eapply R_trans; [eapply Hm; eauto | eapply Hh; eauto].
Qed.

Lemma keeps_try_except_when {A} c (m : M S A) h :
  keeps R m -> (forall e, keeps R (h e)) -> keeps R (try_except_when c m h).
Proof.
  intros Hm Hh. apply keeps_try_except; [exact Hm|].
  intros e. destruct (c e); [apply Hh | apply keeps_raise].
Qed.

Lemma keeps_for_each {A} (xs : list A) body :
  (forall x, In x xs -> keeps R (body x)) -> keeps R (for_each xs body).
Proof.
  induction xs as [|x xs IH]; intros Hb; simpl.
  - apply keeps_ret.
  - apply keeps_bind; [apply Hb; left; reflexivity|].
    intros _. apply IH. intros y Hy. apply Hb. right. exact Hy.
Qed.

Lemma keeps_for_attempts (l : list nat) body :
  (forall a, keeps R (body a)) -> keeps R (for_attempts l body).
Proof.
  intros Hb. induction l as [|a l IH]; simpl.
  - apply keeps_ret.
  - apply keeps_bind; [apply Hb|]. intros [|]; [exact IH|apply keeps_ret].
Qed.

Lemma keeps_if {A} (b : bool) (m1 m2 : M S A) :
  keeps R m1 -> keeps R m2 -> keeps R (if b then m1 else m2).
Proof. destruct b; auto. Qed.

Lemma keeps_liftW {A} (m : M world A) :
  (forall w r w', m w = (r, w') -> R w w') -> keeps R (liftW (S := S) m).
Proof.
  intros Hm s r s' E. unfold liftW in E.
  destruct (m (view s)) as [r0 w'] eqn:Em. inversion E; subst.
  rewrite view_update. eapply Hm; eauto.
Qed.

Lemma keeps_query {A} (q : world -> A) :
  keeps R (liftW (S := S) (fun w => (Ok (q w), w))).
Proof.
  apply keeps_liftW. intros w r w' E. inversion E; subst. apply R_refl.
Qed.

Lemma keeps_by_rlimit {A} (f : nat -> M S A) :
  (forall fuel, keeps R (f fuel)) -> keeps R (fun s => f (rlimit (view s)) s).
Proof. intros Hf s r s' E. eapply Hf; eauto. Qed.

End Keeps.

Lemma keeps_modify_stats (R : world -> world -> Prop)
  {R_preorder : RelationClasses.PreOrder R} f :
  keeps R (modify_stats f).
Proof.
  intros s r s' E. inversion E; subst. exact (@R_refl R R_preorder _).
Qed.

Lemma in_listing f p names n : In n (listing f p names) -> In n names.
Proof. unfold listing. intros Hn. apply filter_In in Hn. tauto. Qed.

Section Confined.

Variable root : path.

Lemma confined_refl w : confined root w w.
Proof.
  unfold confined. repeat split; auto. exists []. rewrite app_nil_r. auto.
Qed.

Lemma confined_trans w1 w2 w3 :
  confined root w1 w2 -> confined root w2 w3 -> confined root w1 w3.
Proof.
  intros (A1 & B1 & D1 & L1 & e1 & T1 & F1) (A2 & B2 & D2 & L2 & e2 & T2 & F2).
  unfold confined. repeat split.
  - intros q Hq. rewrite A2, A1 by exact Hq. reflexivity.
  - intros q. destruct (B2 q) as [E|E]; [|auto]. rewrite E. apply B1.
  - congruence.
  - congruence.
  - exists (e1 ++ e2). rewrite T2, T1, app_assoc. split; [reflexivity|].
    apply Forall_app; auto.
Qed.

(** A system call at [q], below [root], that leaves the files alone or
    unlinks [q]. *)
Lemma confined_syscall {A} ev q act (w : world) (r : result A) w' :
  event_path ev = Some q ->
  under root q ->
  (forall f r0 f', act f = (r0, f') -> f' = f \/ f' = unlink_entry f q) ->
  OS.syscall ev act w = (r, w') ->
  confined root w w'.
Proof.
  intros Hev Hq Hact E. unfold OS.syscall in E.
  assert (Hevs : exists evs,
            trace w ++ [ev] = trace w ++ evs /\ Forall (inside root) evs).
  { exists [ev]. split; [reflexivity|]. constructor; [|constructor].
    unfold inside. rewrite Hev. exact Hq. }
  destruct (faults w ev _).
  - inversion E; subst. unfold confined. simpl. repeat split; auto.
  - destruct (act (files w)) as [r0 f'] eqn:Ea. inversion E; subst.
    unfold confined. simpl.
    destruct (Hact _ _ _ Ea) as [-> | ->]; repeat split; auto.
    + intros q' Hq'. unfold unlink_entry.
      destruct (path_eq_dec q' q) as [->|]; [contradiction|reflexivity].
    + intros q'. unfold unlink_entry.
      destruct (path_eq_dec q' q); auto.
Qed.

Lemma confined_chmod q (w : world) r w' :
  under root q -> OS.chmod q w = (r, w') -> confined root w w'.
Proof.
  intros Hq. apply confined_syscall with (q := q); [reflexivity|exact Hq|].
  intros f r0 f' E. destruct (f q); inversion E; auto.
Qed.

Lemma confined_remove q (w : world) r w' :
  under root q -> OS.remove q w = (r, w') -> confined root w w'.
Proof.
  intros Hq. apply confined_syscall with (q := q); [reflexivity|exact Hq|].
  intros f r0 f' E. destruct (f q) as [[|names]|]; inversion E; auto.
Qed.

Lemma confined_rmdir q (w : world) r w' :
  under root q -> OS.rmdir q w = (r, w') -> confined root w w'.
Proof.
  intros Hq. apply confined_syscall with (q := q); [reflexivity|exact Hq|].
  intros f r0 f' E. destruct (f q) as [[|names]|]; try (inversion E; auto).
  destruct (listing f q names); inversion E; auto.
Qed.

Lemma confined_read_dir ev q (w : world) r w' :
  event_path ev = Some q -> under root q ->
  OS.read_dir ev q w = (r, w') -> confined root w w'.
Proof.
  intros Hev Hq. apply confined_syscall with (q := q); [exact Hev|exact Hq|].
  intros f r0 f' E. destruct (f q) as [[|names]|]; inversion E; auto.
Qed.

Lemma confined_sleep ms (w : world) r w' :
  OS.sleep ms w = (r, w') -> confined root w w'.
Proof.
  intros E. inversion E; subst. unfold confined. simpl. repeat split; auto.
  exists [Sleep ms]. split; [reflexivity|]. repeat constructor.
Qed.

Lemma confined_call_osfunc func q (w : world) r w' :
  under root q -> call_osfunc func q w = (r, w') -> confined root w w'.
Proof.
  intros Hq. destruct func; simpl.
  - unfold bind. destruct (OS.scandir q w) as [[l|e] w1] eqn:Es;
      intros E; inversion E; subst;
      eapply confined_read_dir; eauto; reflexivity.
  - apply confined_remove; exact Hq.
  - apply confined_rmdir; exact Hq.
Qed.

End Confined.

#[export] Instance confined_preorder (root : path)
  : RelationClasses.PreOrder (confined root) :=
  {| RelationClasses.PreOrder_Reflexive := confined_refl root;
     RelationClasses.PreOrder_Transitive := confined_trans (root := root) |}.

Section ConfinedCode.

Tactic Notation "stay" uconstr(lem) := (apply lem; try exact _).

Variable root : path.

Lemma rmtree_unsafe_confined {S : Type} `{HasWorld S} fuel
  (onerror : osfunc -> path -> exn -> M S unit) :
  (forall func q e, under root q -> keeps (confined root) (onerror func q e)) ->
  forall p, under root p -> keeps (confined root) (Shutil._rmtree_unsafe fuel onerror p).
Proof.
  intros Hh. induction fuel as [|fuel IH]; intros p Hp; simpl.
  - stay keeps_raise.
  - stay keeps_bind.
    + stay keeps_try_except_when.
      * stay keeps_liftW. intros w r w'.
        apply confined_read_dir; [reflexivity|exact Hp].
      * intros e. stay keeps_bind; [apply Hh; exact Hp|].
        intros _. stay keeps_ret.
    + intros entries. stay keeps_bind.
      * stay keeps_for_each. intros name _.
        assert (Hc : under root (os_path_join p name))
          by (eapply under_trans; [exact Hp|apply under_join]).
        stay keeps_bind; [stay (keeps_query (S := S))|]. intros b.
        stay keeps_if; [apply IH; exact Hc|].
        stay keeps_try_except_when.
        -- stay keeps_liftW. intros w r w'. apply confined_remove. exact Hc.
        -- intros e. apply Hh. exact Hc.
      * intros _. stay keeps_try_except_when.
        -- stay keeps_liftW. intros w r w'. apply confined_rmdir. exact Hp.
        -- intros e. apply Hh. exact Hp.
Qed.

Lemma walk_confined {S : Type} `{HasWorld S} fuel
  (visit : path -> list string -> list string -> M S unit) :
  (forall top dirs files_, under root top -> keeps (confined root) (visit top dirs files_)) ->
  forall top, under root top -> keeps (confined root) (Shutil.walk_bottom_up fuel top visit).
Proof.
  intros Hv. induction fuel as [|fuel IH]; intros top Ht; simpl.
  - stay keeps_raise.
  - stay keeps_bind.
    + stay keeps_try_except_when.
      * stay keeps_bind; [|intros; stay keeps_ret].
        stay keeps_liftW. intros w r w'.
        apply confined_read_dir; [reflexivity|exact Ht].
      * intros; stay keeps_ret.
    + intros [entries|]; [|stay keeps_ret].
      stay keeps_bind.
      { stay keeps_liftW. intros w r w' E. inversion E; subst.
        apply confined_refl. }
      intros [dirs nondirs].
      stay keeps_bind; [|intros _; apply Hv; exact Ht].
      stay keeps_for_each. intros d _. apply IH.
      eapply under_trans; [exact Ht|apply under_join].
Qed.

Import WindowsFileSystemCleaner.

Variable self : policy.

Lemma retry_on_error_confined func q e :
  under root q -> keeps (confined root) (retry_on_error self func q e).
Proof.
  intros Hq. unfold retry_on_error. stay keeps_if; [|stay keeps_raise].
  stay keeps_for_attempts. intros a. stay keeps_try_except.
  - stay keeps_bind.
    { stay keeps_liftW. intros w r w'. apply confined_sleep. }
    intros _. stay keeps_bind; [stay (keeps_query (S := cstate))|].
    intros present. stay keeps_bind.
    { stay keeps_if; [|stay keeps_ret].
      stay keeps_try_except; [|intros; stay keeps_ret].
      stay keeps_liftW. intros w r w'. apply confined_chmod. exact Hq. }
    intros _. stay keeps_bind.
    { stay keeps_liftW. intros w r w'. apply confined_call_osfunc. exact Hq. }
    intros _. stay keeps_bind; [stay keeps_modify_stats|].
    intros _. stay keeps_ret.
  - intros e'. stay keeps_if; [stay keeps_raise|stay keeps_ret].
Qed.

Lemma force_remove_readonly_confined func q e :
  under root q -> keeps (confined root) (force_remove_readonly func q e).
Proof.
  intros Hq. unfold force_remove_readonly. stay keeps_try_except.
  - stay keeps_bind.
    + stay keeps_liftW. intros w r w'. apply confined_chmod. exact Hq.
    + intros _. stay keeps_liftW. intros w r w'.
      apply confined_call_osfunc. exact Hq.
  - intros e'. stay keeps_raise.
Qed.

Lemma safe_remove_file_confined q :
  under root q -> keeps (confined root) (_safe_remove_file self q).
Proof.
  intros Hq. stay keeps_for_attempts. intros a.
  stay keeps_try_except_when.
  - stay keeps_bind.
    { stay keeps_liftW. intros w r w'. apply confined_chmod. exact Hq. }
    intros _. stay keeps_bind; [|intros _; stay keeps_ret].
    stay keeps_liftW. intros w r w'. apply confined_remove. exact Hq.
  - intros e. stay keeps_if; [stay keeps_raise|].
    stay keeps_bind; [|intros _; stay keeps_ret].
    stay keeps_liftW. intros w r w'. apply confined_sleep.
Qed.

Lemma safe_remove_dir_confined q :
  under root q -> keeps (confined root) (_safe_remove_dir self q).
Proof.
  intros Hq. stay keeps_for_attempts. intros a.
  stay keeps_try_except_when.
  - stay keeps_bind; [|intros _; stay keeps_ret].
    stay keeps_liftW. intros w r w'. apply confined_rmdir. exact Hq.
  - intros e. stay keeps_if; [stay keeps_raise|].
    stay keeps_bind; [|intros _; stay keeps_ret].
    stay keeps_liftW. intros w r w'. apply confined_sleep.
Qed.

Lemma manual_confined fuel :
  forall q d, under root q -> keeps (confined root) (manual_rmtree_rec self fuel q d).
Proof.
  induction fuel as [|fuel IH]; intros q d Hq.
  - stay keeps_raise.
  - change (manual_rmtree_rec self (S fuel) q d)
      with (_manual_rmtree_body self (manual_rmtree_rec self fuel) q d).
    unfold _manual_rmtree_body. stay keeps_if; [stay keeps_raise|].
    stay keeps_bind; [stay (keeps_query (S := cstate))|]. intros present.
    stay keeps_if; [stay keeps_ret|].
    stay keeps_bind; [stay (keeps_query (S := cstate))|]. intros is_file.
    stay keeps_if; [apply safe_remove_file_confined; exact Hq|].
    stay keeps_bind.
    { stay keeps_try_except_when; [|intros; stay keeps_ret].
      stay keeps_bind; [|intros; stay keeps_ret].
      stay keeps_liftW. intros w r w'.
      apply confined_read_dir; [reflexivity|exact Hq]. }
    intros [entries|]; [|stay keeps_ret].
    stay keeps_bind; [|intros _; apply safe_remove_dir_confined; exact Hq].
    stay keeps_for_each. intros entry _.
    assert (Hc : under root (os_path_join q entry))
      by (eapply under_trans; [exact Hq|apply under_join]).
    stay keeps_bind; [stay (keeps_query (S := cstate))|]. intros is_dir.
    stay keeps_if.
    + stay keeps_bind; [apply IH; exact Hc|].
      intros _. stay keeps_modify_stats.
    + stay keeps_bind; [apply safe_remove_file_confined; exact Hc|].
      intros _. stay keeps_modify_stats.
Qed.

Lemma cleaner_safe_rmtree_confined ignore_errors :
  keeps (confined root) (safe_rmtree self root ignore_errors).
Proof.
  pose proof (under_refl root) as Hr.
  unfold safe_rmtree.
  stay keeps_bind; [stay (keeps_query (S := cstate))|]. intros present.
  stay keeps_if; [stay keeps_ret|].
  stay keeps_try_except.
  { stay keeps_bind; [|intros _; stay keeps_ret].
    unfold _rmtree_with_retries, Shutil.rmtree.
    stay (keeps_by_rlimit
             (fun fuel =>
                Shutil._rmtree_unsafe fuel (retry_on_error self) root)).
    intros fuel. apply rmtree_unsafe_confined; [|exact Hr].
    intros func q e. apply retry_on_error_confined. }
  intros e. stay keeps_try_except.
  { stay keeps_bind; [|intros _; stay keeps_ret].
    unfold _force_rmtree. stay keeps_bind.
    - unfold Shutil.walk.
      stay (keeps_by_rlimit
               (fun fuel => Shutil.walk_bottom_up fuel root _)).
      intros fuel. apply walk_confined; [|exact Hr].
      intros top dirs files_ Ht. stay keeps_bind.
      + stay keeps_for_each. intros file _. stay keeps_try_except.
        * stay keeps_bind; [|intros _; stay keeps_modify_stats].
          stay keeps_liftW. intros w r w'. apply confined_chmod.
          eapply under_trans; [exact Ht|apply under_join].
        * intros; stay keeps_ret.
      + intros _. stay keeps_for_each. intros dir _.
        stay keeps_try_except.
        * stay keeps_bind; [|intros _; stay keeps_modify_stats].
          stay keeps_liftW. intros w r w'. apply confined_chmod.
          eapply under_trans; [exact Ht|apply under_join].
        * intros; stay keeps_ret.
    - intros _. unfold Shutil.rmtree.
      stay (keeps_by_rlimit
               (fun fuel =>
                  Shutil._rmtree_unsafe fuel force_remove_readonly root)).
      intros fuel. apply rmtree_unsafe_confined; [|exact Hr].
      intros func q e'. apply force_remove_readonly_confined. }
  intros e2. stay keeps_try_except.
  { stay keeps_bind; [|intros _; stay keeps_ret].
    apply manual_confined. exact Hr. }
  intros e3. stay keeps_bind; [stay keeps_modify_stats|].
  intros _. stay keeps_if; [stay keeps_ret|stay keeps_raise].
Qed.

End ConfinedCode.

(** X6.  Teardown of [p] stays at [p] and below, whatever fails:
    through the engine (any policy) and through the adapter (any branch),
    every path that is not [p] or below it is as before, every path holds
    what it held or nothing (nothing is created or altered), faults and
    recursion limit are as before, and every system call acts at [p] or
    below it.  The filesystem of the model has regular files and
    directories only. *)
Theorem teardown_is_confined (self : PlatformAdapter.t) (pol : policy)
  (p : path) (ignore_errors : bool) (w : world) (s : cstate) :
  confined p w (snd (PlatformAdapter.safe_rmtree self p ignore_errors w))
  /\ confined p (cworld s)
       (cworld (snd (WindowsFileSystemCleaner.safe_rmtree pol p ignore_errors
                       s))).
Proof.
  assert (Hengine : forall pol0 s0,
    confined p (cworld s0)
      (cworld (snd (WindowsFileSystemCleaner.safe_rmtree pol0 p ignore_errors
                      s0)))).
  { intros pol0 s0.
    destruct (WindowsFileSystemCleaner.safe_rmtree pol0 p ignore_errors s0)
      as [r s'] eqn:E.
    exact (@cleaner_safe_rmtree_confined p pol0 ignore_errors s0 r s' E). }
  assert (Hstd :
    confined p w (snd (PlatformAdapter.standard_rmtree p ignore_errors w))).
  { destruct (PlatformAdapter.standard_rmtree p ignore_errors w)
      as [r w'] eqn:E.
    revert E. unfold PlatformAdapter.standard_rmtree, try_except, bind,
      Shutil.rmtree.
    destruct (Shutil._rmtree_unsafe (rlimit (view w)) Shutil.onerror_raise p w)
      as [r0 w0] eqn:E0.
    assert (Hc : confined p w w0).
    { refine (@rmtree_unsafe_confined p world world_HasWorld _
                Shutil.onerror_raise _ p (under_refl p) w r0 w0 E0).
      intros func q e _ s1 r1 s1' E1. inversion E1; subst.
      apply confined_refl. }
    destruct r0 as [[]|e]; [intros E; inversion E; subst; exact Hc|].
    destruct ignore_errors; intros E; inversion E; subst; exact Hc. }
  split; [|apply Hengine].
  unfold PlatformAdapter.safe_rmtree.
  destruct (negb (PlatformAdapter._is_windows self)); [exact Hstd|].
  destruct (PlatformAdapter.windows_cleanup_importable self); [|exact Hstd].
  unfold safe_windows_rmtree.
  pose proof (Hengine default_policy (mkCState zero_stats w)) as Hc.
  destruct (WindowsFileSystemCleaner.safe_rmtree default_policy p
              ignore_errors (mkCState zero_stats w)) as [r s'].
  exact Hc.
Qed.

(** ** Removal of an empty directory, with retries *)

Section RemoveDir.

Import WindowsFileSystemCleaner.

Variable self : policy.
Variable p : path.

Lemma rmdir_success (w w' : world) :
  OS.rmdir p w = (Ok tt, w') -> files w' p = None.
Proof.
  unfold OS.rmdir, OS.syscall. destruct (faults w _ _); [discriminate|].
  destruct (files w p) as [[|names]|]; try discriminate.
  destruct (listing (files w) p names); [|discriminate].
  intros E; inversion E; subst. simpl. unfold unlink_entry.
  destruct (path_eq_dec p p); [reflexivity|contradiction].
Qed.

Lemma occ_rmdir_sleep :
  occurrences (Rmdir p) [Rmdir p] = 1
  /\ occurrences (Sleep (retry_delay self)) [Rmdir p] = 0
  /\ occurrences (Rmdir p) [Sleep (retry_delay self)] = 0
  /\ occurrences (Sleep (retry_delay self)) [Sleep (retry_delay self)] = 1.
Proof.
  unfold occurrences.
  repeat split;
    repeat first [ rewrite count_occ_cons_eq by reflexivity
                 | rewrite count_occ_cons_neq by discriminate ];
    reflexivity.
Qed.

Lemma dir_loop n :
  forall a s r s',
    a + n = max_retries self ->
    for_attempts (seq a n) (dir_attempt self p) s = (r, s') ->
    stats s' = stats s
    /\ exists evs,
         trace (cworld s') = trace (cworld s) ++ evs
         /\ Forall (dir_event self p) evs
         /\ occurrences (Rmdir p) evs <= n
         /\ (n = 0
             \/ occurrences (Sleep (retry_delay self)) evs + 1
                = occurrences (Rmdir p) evs)
         /\ (forall e, r = Raise e -> is_OSError e = true ->
               occurrences (Rmdir p) evs = n)
         /\ (r = Ok tt -> 0 < n -> files (cworld s') p = None).
Proof.
  destruct occ_rmdir_sleep as (O1 & O2 & O3 & O4).
  induction n as [|n IH]; intros a s r s' Han E.
  - simpl in E. inversion E; subst. split; [reflexivity|].
    exists []. rewrite app_nil_r.
    repeat split; auto; try (intros; discriminate); lia.
  - simpl in E. unfold bind in E.
    unfold dir_attempt at 1 in E.
    unfold try_except_when, try_except, bind, liftW in E. simpl in E.
    destruct (OS.rmdir p (cworld s)) as [[[]|e] w1] eqn:Er.
    + (* removed *)
      pose proof (rmdir_success _ Er) as Hgone.
      apply syscall_trace in Er. simpl in E. inversion E; subst.
      split; [reflexivity|]. exists [Rmdir p].
      rewrite O1, O2. unfold dir_event. simpl.
      repeat split; auto; try (intros; discriminate); lia.
    + apply syscall_trace in Er. simpl in E.
      destruct (is_OSError e) eqn:Hos.
      * destruct (a =? max_retries self - 1) eqn:Hlast.
        -- apply Nat.eqb_eq in Hlast. simpl in E. inversion E; subst.
           assert (n = 0) by lia. subst n.
           split; [reflexivity|]. exists [Rmdir p].
           rewrite O1, O2. unfold dir_event. simpl.
           repeat split; auto; try (intros; discriminate); lia.
        -- apply Nat.eqb_neq in Hlast.
           unfold bind, OS.sleep in E. simpl in E.
           destruct (IH (S a) _ r s' ltac:(lia) E)
             as (Hst & evs & Ht & HF & Hn & Hsl & Hex & Hok).
           simpl in Hst, Ht.
           assert (Hn0 : n <> 0) by lia.
           destruct Hsl as [Hz | Hsl]; [contradiction|].
           split; [exact Hst|].
           exists ([Rmdir p] ++ [Sleep (retry_delay self)] ++ evs).
           rewrite Ht, Er, <- !app_assoc.
           rewrite !occurrences_app, O1, O2, O3, O4.
           repeat split; auto; try lia.
           ++ simpl. repeat (constructor; [unfold dir_event; auto|]).
              exact HF.
           ++ intros e1 Hr1 Hre1. specialize (Hex e1 Hr1 Hre1). lia.
           ++ intros Hr1 _. apply Hok; [exact Hr1|lia].
      * unfold raise in E. inversion E; subst.
        split; [reflexivity|]. exists [Rmdir p].
        rewrite O1, O2. unfold dir_event. simpl.
        repeat split; auto; try (intros; discriminate); try lia.
        intros e1 Hr1 Hre1. inversion Hr1; subst. congruence.
Qed.

End RemoveDir.

Lemma dir_try_returns (p : path) (s : cstate) (c : ctl) (s1 : cstate) :
  dir_try p s = (Ok c, s1) -> c = Return.
Proof.
  unfold dir_try, bind, ret.
  destruct (liftW (OS.rmdir p) s) as [[[]|e] s0]; [|discriminate].
  intros E. inversion E. reflexivity.
Qed.

Lemma dir_try_block (p : path) (s : cstate) (r : result ctl) (s1 : cstate) :
  dir_try p s = (r, s1) ->
  exists b, b = [Rmdir p] /\ trace (cworld s1) = trace (cworld s) ++ b.
Proof.
  unfold dir_try, bind, ret, liftW. cbn [view update cstate_HasWorld].
  destruct (OS.rmdir p (cworld s)) as [[[]|e] w1] eqn:Er;
    apply syscall_trace in Er; intros E; inversion E; subst;
    exists [Rmdir p]; (split; [reflexivity|exact Er]).
Qed.

(** X7.  [_safe_remove_dir] calls [os.rmdir] at most [max_retries]
    times in all, with [retry_delay] slept between two calls, and leaves
    the statistics alone: its system calls are one [Rmdir p] for each
    attempt, with one sleep between two of them.  Every [OSError] is
    retried, a directory that is not empty included: every attempt but the
    last raised an [OSError], and the last attempt gives the outcome.  An
    [OSError] reaches the caller only when the [max_retries] calls are
    used up, any other exception at once, from the attempt where it
    occurs.  When it returns after at least one allowed call, the
    directory is gone. *)
Theorem safe_remove_dir_attempts (self : policy) (p : path)
  (s s' : cstate) (r : result unit) :
  WindowsFileSystemCleaner._safe_remove_dir self p s = (r, s') ->
  stats s' = stats s
  /\ exists evs,
       trace (cworld s') = trace (cworld s) ++ evs
       /\ Forall (dir_event self p) evs
       /\ occurrences (Rmdir p) evs <= max_retries self
       /\ (max_retries self = 0
           \/ occurrences (Sleep (retry_delay self)) evs + 1
              = occurrences (Rmdir p) evs)
       /\ (forall e, r = Raise e -> is_OSError e = true ->
             occurrences (Rmdir p) evs = max_retries self)
       /\ (r = Ok tt -> 0 < max_retries self -> files (cworld s') p = None)
       /\ exists blocks,
            evs = with_sleeps (retry_delay self) blocks
            /\ Forall (fun b => b = [Rmdir p]) blocks
            /\ ran_attempts is_OSError (dir_try p) (retry_delay self)
                 (max_retries self) s r s' (length blocks)
            /\ raised_at_once is_OSError (dir_try p) (retry_delay self) s r
                 (length blocks).
Proof.
  intros E.
  destruct (@dir_loop self p (max_retries self) 0 s r s' eq_refl E)
    as (Hst & evs & Ht & HF & Hn & Hsl & Hex & Hok).
  destruct (@retry_loop_runs is_OSError (dir_try p) (retry_delay self)
              (fun b => b = [Rmdir p])
              (@dir_try_returns p) (@dir_try_block p)
              (max_retries self) (max_retries self) 0 s r s' eq_refl E)
    as (blocks & HB & Ht' & Hran).
  split; [exact Hst|].
  exists evs. repeat (split; [assumption|]).
  exists blocks. split.
  - rewrite Ht in Ht'. apply app_inv_head in Ht'. exact Ht'.
  - split; [exact HB|]. split; [exact Hran|].
    exact (@ran_attempts_at_once is_OSError (dir_try p) (retry_delay self)
             (max_retries self) s r s' (length blocks) Hran).
Qed.

Lemma safe_remove_dir_attempts_witness :
  exists evs,
    trace (cworld (snd (WindowsFileSystemCleaner._safe_remove_dir
                          default_policy ["tmp"; "d"]%string
                          (mkCState zero_stats (quiet_world one_file_tree)))))
    = [] ++ evs
    /\ occurrences (Rmdir ["tmp"; "d"]%string) evs = 3.
Proof.
  pose (p := ["tmp"; "d"]%string).
  pose (s := mkCState zero_stats (quiet_world one_file_tree)).
  pose (x := WindowsFileSystemCleaner._safe_remove_dir default_policy p s).
  destruct (@safe_remove_dir_attempts default_policy p s (snd x) (fst x)
              (surjective_pairing x))
    as (_ & evs & Ht & _ & _ & _ & Hex & _).
  exists evs. split; [exact Ht|].
  exact (Hex (OS.ENOTEMPTY p) eq_refl eq_refl).
Defined.

(** ** The error handler of the first strategy *)

Section RetryOnError.

Import WindowsFileSystemCleaner.

Variable self : policy.
Variable func : osfunc.
Variable p : path.

Let d := retry_delay self.
Let F := osfunc_event func p.

Lemma call_osfunc_trace (w w' : world) (r : result unit) :
  call_osfunc func p w = (r, w') -> trace w' = trace w ++ [F].
Proof.
  unfold F, call_osfunc, osfunc_event. destruct func.
  - unfold bind, OS.scandir, OS.read_dir.
    destruct (OS.syscall (Scandir p) _ w) as [[l|e] w1] eqn:E;
      apply syscall_trace in E; intros E1; inversion E1; subst; exact E.
  - apply syscall_trace.
  - apply syscall_trace.
Qed.

Lemma retry_counts :
  (occurrences (Sleep d) [Sleep d; Chmod p; F] = 1
   /\ occurrences (Chmod p) [Sleep d; Chmod p; F] = 1
   /\ occurrences F [Sleep d; Chmod p; F] = 1)
  /\ (occurrences (Sleep d) [Sleep d; F] = 1
      /\ occurrences (Chmod p) [Sleep d; F] = 0
      /\ occurrences F [Sleep d; F] = 1).
Proof.
  unfold F, osfunc_event, occurrences. destruct func;
    repeat split;
    repeat first [ rewrite count_occ_cons_eq by reflexivity
                 | rewrite count_occ_cons_neq by discriminate ];
    reflexivity.
Qed.

(** One pass through the [try] block: a sleep, a change of attributes when
    the path exists, and the failed function again; the retry is counted
    when that call succeeds. *)
Lemma retry_try_cases (s s1 : cstate) (r : result ctl) :
  retry_try self func p s = (r, s1) ->
  exists blk,
    trace (cworld s1) = trace (cworld s) ++ blk
    /\ (blk = [Sleep d; Chmod p; F] \/ blk = [Sleep d; F])
    /\ match r with
       | Ok c => c = Return /\ stats s1 = one_more_retry (stats s)
       | Raise _ => stats s1 = stats s
       end.
Proof.
  unfold retry_try, bind, liftW, OS.sleep, OS.path_exists, try_except, ret.
  simpl.
  set (w0 := record_event (Sleep (retry_delay self)) (cworld s)).
  assert (Hw0 : trace w0 = trace (cworld s) ++ [Sleep d]) by reflexivity.
  unfold one_more_retry.
  destruct (exists_in (files (cworld s)) p); cbn beta iota; cbn [cworld stats].
  - destruct (OS.chmod p w0) as [rc w1] eqn:Ec.
    apply syscall_trace in Ec.
    destruct rc as [[]|ec]; cbn [cworld stats];
      (destruct (call_osfunc func p w1) as [[[]|e] w2] eqn:Ef;
       apply call_osfunc_trace in Ef; cbn [cworld stats];
       intros E; inversion E; subst; cbn [cworld stats];
       exists [Sleep d; Chmod p; F];
       rewrite Ef, Ec, Hw0, <- !app_assoc; auto).
  - destruct (call_osfunc func p w0) as [[[]|e] w2] eqn:Ef;
      apply call_osfunc_trace in Ef; cbn [cworld stats];
      intros E; inversion E; subst; cbn [cworld stats];
      exists [Sleep d; F]; rewrite Ef, Hw0, <- !app_assoc; auto.
Qed.

Lemma retry_attempt_unfold (attempt : nat) :
  retry_attempt self func p attempt
  = try_except (retry_try self func p)
      (fun retry_error =>
         if attempt =? max_retries self - 1
         then raise retry_error
         else ret Continue).
Proof. reflexivity. Qed.

(** The loop from attempt [a], with [n] attempts left. *)
Lemma retry_loop n :
  forall a s r s',
    a + n = max_retries self ->
    for_attempts (seq a n) (retry_attempt self func p) s = (r, s') ->
    exists evs,
      trace (cworld s') = trace (cworld s) ++ evs
      /\ Forall (retry_event self func p) evs
      /\ occurrences F evs = occurrences (Sleep d) evs
      /\ occurrences (Chmod p) evs <= occurrences (Sleep d) evs
      /\ occurrences (Sleep d) evs <= n
      /\ match r with
         | Ok _ =>
             (n = 0 /\ s' = s)
             \/ (0 < n /\ stats s' = one_more_retry (stats s))
         | Raise _ =>
             occurrences (Sleep d) evs = n /\ 0 < n /\ stats s' = stats s
         end.
Proof.
  destruct retry_counts as ((A1 & A2 & A3) & (B1 & B2 & B3)).
  assert (Hblk : forall blk,
    blk = [Sleep d; Chmod p; F] \/ blk = [Sleep d; F] ->
    Forall (retry_event self func p) blk
    /\ occurrences (Sleep d) blk = 1
    /\ occurrences F blk = 1
    /\ occurrences (Chmod p) blk <= 1).
  { intros blk [-> | ->]; rewrite ?A1, ?A2, ?A3, ?B1, ?B2, ?B3;
      (split; [repeat (apply Forall_cons; [unfold retry_event, d, F; auto|]);
               apply Forall_nil|]);
      auto. }
  induction n as [|n IH]; intros a s r s' Han E.
  - simpl in E. inversion E; subst. exists []. rewrite app_nil_r.
    repeat split; auto.
  - simpl in E. unfold bind in E.
    rewrite retry_attempt_unfold in E. unfold try_except at 1 in E.
    destruct (retry_try self func p s) as [[c|e] s1] eqn:E1;
      destruct (retry_try_cases _ E1) as (blk & Ht1 & Hb & Hr);
      destruct (Hblk blk Hb) as (HF1 & Hs1 & Hf1 & Hc1).
    + destruct Hr as [-> Hst]. inversion E; subst.
      exists blk. rewrite Hs1, Hf1.
      repeat split; auto; try lia. right. split; [lia|exact Hst].
    + destruct (a =? max_retries self - 1) eqn:Hlast.
      * apply Nat.eqb_eq in Hlast. inversion E; subst.
        assert (n = 0) by lia. subst n.
        exists blk. rewrite Hs1, Hf1.
        repeat split; auto; lia.
      * apply Nat.eqb_neq in Hlast. unfold ret in E.
        destruct (IH (S a) s1 r s' ltac:(lia) E)
          as (evs & Ht & HF & Hfe & Hce & Hle & Hres).
        exists (blk ++ evs).
        rewrite Ht, Ht1, <- app_assoc, !occurrences_app, Hs1, Hf1.
        repeat split; auto; try lia.
        -- apply Forall_app; auto.
        -- destruct r as [[]|e1].
           ++ destruct Hres as [[Hn0 _] | [Hn0 Hst]]; [lia|].
              right. split; [lia|]. rewrite Hst, Hr. reflexivity.
           ++ destruct Hres as (Hn1 & Hn0 & Hst).
              repeat split; try lia. rewrite Hst. exact Hr.
Qed.

End RetryOnError.

(** X8.  The error handler [retry_on_error] re-raises at once an
    exception that is no [OSError], with nothing done.  For an [OSError] it
    makes at most [max_retries] attempts, each one a sleep of
    [retry_delay], at most one change of attributes, and one call of the
    failed function; it returns at the first call that succeeds, counting
    one retry however many attempts were made; it raises only when all
    [max_retries] attempts failed, with the statistics untouched.  With
    [max_retries = 0] it returns at once: the error is dropped. *)
Theorem retry_on_error_attempts (self : policy) (func : osfunc) (p : path)
  (exception : exn) (s s' : cstate) (r : result unit) :
  WindowsFileSystemCleaner.retry_on_error self func p exception s = (r, s') ->
  if is_OSError exception then
    exists evs,
      trace (cworld s') = trace (cworld s) ++ evs
      /\ Forall (retry_event self func p) evs
      /\ occurrences (osfunc_event func p) evs
         = occurrences (Sleep (retry_delay self)) evs
      /\ occurrences (Chmod p) evs
         <= occurrences (Sleep (retry_delay self)) evs
      /\ occurrences (Sleep (retry_delay self)) evs <= max_retries self
      /\ match r with
         | Ok _ =>
             (max_retries self = 0 /\ s' = s)
             \/ (0 < max_retries self
                 /\ stats s' = one_more_retry (stats s))
         | Raise _ =>
             occurrences (Sleep (retry_delay self)) evs = max_retries self
             /\ 0 < max_retries self /\ stats s' = stats s
         end
  else r = Raise exception /\ s' = s.
Proof.
  unfold WindowsFileSystemCleaner.retry_on_error.
  destruct (is_OSError exception).
  - intros E.
    exact (@retry_loop self func p (max_retries self) 0 s r s' eq_refl E).
  - intros E. inversion E; subst. split; reflexivity.
Qed.

Lemma retry_on_error_attempts_witness :
  let s := mkCState zero_stats (quiet_world one_file_tree) in
  let x := WindowsFileSystemCleaner.retry_on_error default_policy os_rmdir
             ["tmp"; "d"]%string (OS.ENOTEMPTY ["tmp"; "d"]%string) s in
  exists evs,
    trace (cworld (snd x)) = trace (cworld s) ++ evs
    /\ occurrences (Rmdir ["tmp"; "d"]%string) evs
       = occurrences (Sleep 100) evs.
Proof.
  intros s x.
  pose proof (@retry_on_error_attempts default_policy os_rmdir
                ["tmp"; "d"]%string (OS.ENOTEMPTY ["tmp"; "d"]%string)
                s (snd x) (fst x) (surjective_pairing x)) as H.
  simpl is_OSError in H. cbv iota in H.
  destruct H as (evs & Ht & _ & Hf & _).
  exists evs. split; [exact Ht|exact Hf].
Defined.

(** ** A cleaner without retries *)

Section Quietly.

Lemma quietly_ret Q {A} (a : A) : quietly Q (ret a).
Proof.
  intros s r s' Hf E. inversion E; subst.
  repeat split; auto. intros; discriminate.
Qed.

Lemma quietly_raise (Q : exn -> Prop) {A} e :
  Q e -> quietly Q (raise (A := A) e).
Proof.
  intros He s r s' Hf E. inversion E; subst.
  repeat split; auto. intros e0 E0. inversion E0; subst. exact He.
Qed.

Lemma quietly_bind Q {A B} (m : M cstate A) (k : A -> M cstate B) :
  quietly Q m -> (forall a, quietly Q (k a)) -> quietly Q (bind m k).
Proof.
  intros Hm Hk s r s' Hf E. unfold bind in E.
  destruct (m s) as [[a|e] s1] eqn:Em;
    destruct (Hm _ _ _ Hf Em) as (Hf1 & Hs1 & Hr1).
  - destruct (Hk a _ _ _ Hf1 E) as (Hf2 & Hs2 & Hr2).
    repeat split; auto; congruence.
  - inversion E; subst. repeat split; auto.
    intros e0 E0. inversion E0; subst. apply Hr1. reflexivity.
Qed.

(** An [except OSError] clause whose handler returns. *)
Lemma quietly_caught Q {A} (m : M cstate A) (h : exn -> M cstate A) :
  quietly os_error m ->
  (forall e, is_OSError e = true -> quietly Q (h e)) ->
  quietly Q (try_except_when is_OSError m h).
Proof.
  intros Hm Hh s r s' Hf E. unfold try_except_when, try_except in E.
  destruct (m s) as [[a|e] s1] eqn:Em;
    destruct (Hm _ _ _ Hf Em) as (Hf1 & Hs1 & Hr1).
  - inversion E; subst. repeat split; auto. intros; discriminate.
  - rewrite (Hr1 e eq_refl) in E.
    destruct (Hh e (Hr1 e eq_refl) _ _ _ Hf1 E) as (Hf2 & Hs2 & Hr2).
    repeat split; auto; congruence.
Qed.

Lemma quietly_for_each Q {A} (xs : list A) body :
  (forall x, quietly Q (body x)) -> quietly Q (for_each xs body).
Proof.
  intros Hb. induction xs as [|x xs IH]; simpl.
  - apply quietly_ret.
  - apply quietly_bind; [apply Hb|]. intros _. exact IH.
Qed.

Lemma quietly_query Q {A} (q : world -> A) :
  quietly Q (liftW (fun w => (Ok (q w), w))).
Proof.
  intros s r s' Hf E. inversion E; subst. simpl.
  repeat split; auto. intros; discriminate.
Qed.

(** A system call raises the injected fault or an error of its own. *)
Lemma quietly_syscall {A} ev
  (act : (path -> option entry) -> result A * (path -> option entry)) :
  (forall f e, fst (act f) = Raise e -> is_OSError e = true) ->
  quietly os_error (liftW (OS.syscall ev act)).
Proof.
  intros Hact s r s' Hf. unfold liftW, OS.syscall. simpl.
  destruct (faults (cworld s) ev _) as [e|] eqn:Ef.
  - intros E; inversion E; subst. simpl. repeat split; auto.
    intros e0 E0. inversion E0; subst. exact (Hf _ _ _ Ef).
  - specialize (Hact (files (cworld s))).
    destruct (act (files (cworld s))) as [r0 f'].
    intros E; inversion E; subst. simpl. repeat split; auto.
Qed.

Lemma quietly_scandir p : quietly os_error (liftW (OS.scandir p)).
Proof.
  apply quietly_syscall. intros f e.
  destruct (f p) as [[|names]|]; simpl; intros E; inversion E; reflexivity.
Qed.

Lemma quietly_remove p : quietly os_error (liftW (OS.remove p)).
Proof.
  apply quietly_syscall. intros f e.
  destruct (f p) as [[|names]|]; simpl; intros E; inversion E; reflexivity.
Qed.

Lemma quietly_rmdir p : quietly os_error (liftW (OS.rmdir p)).
Proof.
  apply quietly_syscall. intros f e.
  destruct (f p) as [[|names]|]; simpl;
    try (intros E; inversion E; reflexivity).
  destruct (listing f p names); simpl; intros E; inversion E; reflexivity.
Qed.

Variable self : policy.
Hypothesis no_retry : max_retries self = 0.

Lemma retry_on_error_drops func p e :
  is_OSError e = true ->
  WindowsFileSystemCleaner.retry_on_error self func p e = ret tt.
Proof.
  intros He. unfold WindowsFileSystemCleaner.retry_on_error.
  rewrite He, no_retry. reflexivity.
Qed.

Lemma safe_remove_file_nothing p :
  WindowsFileSystemCleaner._safe_remove_file self p = ret tt.
Proof.
  unfold WindowsFileSystemCleaner._safe_remove_file.
  rewrite no_retry. reflexivity.
Qed.

Lemma safe_remove_dir_nothing p :
  WindowsFileSystemCleaner._safe_remove_dir self p = ret tt.
Proof.
  unfold WindowsFileSystemCleaner._safe_remove_dir.
  rewrite no_retry. reflexivity.
Qed.

Lemma rmtree_unsafe_quietly fuel :
  forall p,
    quietly recursion_limit
      (Shutil._rmtree_unsafe fuel
         (WindowsFileSystemCleaner.retry_on_error self) p).
Proof.
  induction fuel as [|fuel IH]; intros p.
  - apply quietly_raise. reflexivity.
  - simpl. apply quietly_bind.
    { apply quietly_caught; [apply quietly_scandir|].
      intros e He. rewrite (@retry_on_error_drops _ _ e He).
      apply quietly_bind; [apply quietly_ret|]. intros _. apply quietly_ret. }
    intros entries. apply quietly_bind.
    { apply quietly_for_each. intros name.
      apply quietly_bind; [apply (quietly_query recursion_limit)|].
      intros [|]; [apply IH|].
      apply quietly_caught; [apply quietly_remove|].
      intros e He. rewrite (@retry_on_error_drops _ _ e He).
      apply quietly_ret. }
    intros _. apply quietly_caught; [apply quietly_rmdir|].
    intros e He. rewrite (@retry_on_error_drops _ _ e He). apply quietly_ret.
Qed.

End Quietly.

(** X9.  A cleaner built with [max_retries = 0]
    drops every [OSError] in its error handler, so the first strategy
    cannot fail on a locked or protected entry: where every fault is an
    [OSError], [safe_rmtree] on an existing path returns [True] with the
    statistics untouched, whatever is left on disk, unless the first
    strategy ran into the interpreter's recursion limit. *)
Theorem no_retries_report_success (self : policy) (p : path)
  (ignore_errors : bool) (s s' : cstate) (r : result bool) :
  max_retries self = 0 ->
  exists_in (files (cworld s)) p = true ->
  os_faults (cworld s) ->
  WindowsFileSystemCleaner.safe_rmtree self p ignore_errors s = (r, s') ->
  (r = Ok true /\ stats s' = stats s)
  \/ fst (WindowsFileSystemCleaner._rmtree_with_retries self p s)
     = Raise recursion_error.
Proof.
  intros H0 Hex Hf. destruct s as [st w]. simpl in Hex, Hf.
  unfold WindowsFileSystemCleaner.safe_rmtree, bind, liftW, OS.path_exists.
  simpl. rewrite Hex. simpl. unfold try_except at 1. cbv beta.
  destruct (WindowsFileSystemCleaner._rmtree_with_retries self p
              (mkCState st w)) as [[[]|e] s1] eqn:E1.
  - intros E. inversion E; subst. left. split; [reflexivity|].
    unfold WindowsFileSystemCleaner._rmtree_with_retries, Shutil.rmtree in E1.
    destruct (@rmtree_unsafe_quietly self H0 _ p (mkCState st w) _ _ Hf E1)
      as (_ & Hs & _).
    exact Hs.
  - intros _. right. simpl.
    unfold WindowsFileSystemCleaner._rmtree_with_retries, Shutil.rmtree in E1.
    destruct (@rmtree_unsafe_quietly self H0 _ p (mkCState st w) _ _ Hf E1)
      as (_ & _ & Hr).
    rewrite (Hr e eq_refl). reflexivity.
Qed.

Lemma no_retries_report_success_witness :
  let x := WindowsFileSystemCleaner.safe_rmtree no_retry_policy
             ["tmp"; "d"]%string false (mkCState zero_stats locked_world) in
  fst x = Ok true
  /\ files (cworld (snd x)) ["tmp"; "d"; "f"]%string = Some EFile.
Proof.
  intros x. split; [|reflexivity].
  assert (Hf : os_faults locked_world).
  { intros ev k e. destruct ev; simpl; intros E; inversion E; reflexivity. }
  destruct (@no_retries_report_success no_retry_policy ["tmp"; "d"]%string
              false (mkCState zero_stats locked_world) (snd x) (fst x)
              eq_refl eq_refl Hf (surjective_pairing x)) as [[Hr _] | Hrec].
  - exact Hr.
  - discriminate Hrec.
Defined.

(** ** The manual strategy without retries *)

Lemma only_listed_refl w : only_listed w w.
Proof.
  split; [reflexivity|]. exists []. rewrite app_nil_r. split; constructor.
Qed.

Lemma only_listed_trans w1 w2 w3 :
  only_listed w1 w2 -> only_listed w2 w3 -> only_listed w1 w3.
Proof.
  intros (Hf1 & l1 & Ht1 & HF1) (Hf2 & l2 & Ht2 & HF2). split.
  - congruence.
  - exists (l1 ++ l2). rewrite Ht2, Ht1, app_assoc. split; [reflexivity|].
    apply Forall_app; auto.
Qed.

#[export] Instance only_listed_preorder : RelationClasses.PreOrder only_listed :=
  {| RelationClasses.PreOrder_Reflexive := only_listed_refl;
     RelationClasses.PreOrder_Transitive := only_listed_trans |}.

Lemma listdir_only_listed p (w w' : world) (r : result (list string)) :
  OS.listdir p w = (r, w') -> only_listed w w'.
Proof.
  unfold OS.listdir, OS.read_dir, OS.syscall.
  destruct (faults w _ _).
  - intros E; inversion E; subst. split; [reflexivity|].
    exists [Listdir p]. split; [reflexivity|]. repeat constructor. eauto.
  - destruct (files w p) as [[|names]|]; intros E; inversion E; subst;
      (split; [reflexivity|]; exists [Listdir p];
       split; [reflexivity|]; repeat constructor; eauto).
Qed.

Section ManualWithoutRetries.

Tactic Notation "hold" uconstr(lem) := (apply lem; try exact _).

Variable self : policy.
Hypothesis no_retry : max_retries self = 0.

Lemma manual_without_retries (fuel : nat) :
  forall p d,
    keeps only_listed
      (WindowsFileSystemCleaner.manual_rmtree_rec self fuel p d).
Proof.
  induction fuel as [|fuel IH]; intros p d.
  - hold keeps_raise.
  - change (WindowsFileSystemCleaner.manual_rmtree_rec self (S fuel) p d)
      with (WindowsFileSystemCleaner._manual_rmtree_body self
              (WindowsFileSystemCleaner.manual_rmtree_rec self fuel) p d).
    unfold WindowsFileSystemCleaner._manual_rmtree_body.
    rewrite (@safe_remove_dir_nothing self no_retry p).
    rewrite (@safe_remove_file_nothing self no_retry p).
    hold keeps_if; [hold keeps_raise|].
    hold keeps_bind; [hold (keeps_query (S := cstate))|]. intros present.
    hold keeps_if; [hold keeps_ret|].
    hold keeps_bind; [hold (keeps_query (S := cstate))|]. intros is_file.
    hold keeps_if; [hold keeps_ret|].
    hold keeps_bind.
    { hold keeps_try_except_when; [|intros; hold keeps_ret].
      hold keeps_bind; [|intros; hold keeps_ret].
      hold keeps_liftW. intros w r w'. apply listdir_only_listed. }
    intros [entries|]; [|hold keeps_ret].
    hold keeps_bind; [|intros _; hold keeps_ret].
    hold keeps_for_each. intros entry _.
    hold keeps_bind; [hold (keeps_query (S := cstate))|]. intros is_dir.
    hold keeps_if.
    + hold keeps_bind; [apply IH|].
      intros _. hold keeps_modify_stats.
    + rewrite (@safe_remove_file_nothing self no_retry).
      hold keeps_bind; [hold keeps_ret|].
      intros _. hold keeps_modify_stats.
Qed.

End ManualWithoutRetries.

(** X10.  With [max_retries = 0] the manual
    strategy removes nothing: from any depth and in any world,
    [_manual_rmtree] leaves every file and directory as it was, and its
    only system calls are directory listings. *)
Theorem manual_rmtree_without_retries (self : policy) (p : path)
  (current_depth : nat) (s : cstate) :
  max_retries self = 0 ->
  only_listed (cworld s)
    (cworld (snd (WindowsFileSystemCleaner._manual_rmtree self p
                    current_depth s))).
Proof.
  intros H0. unfold WindowsFileSystemCleaner._manual_rmtree.
  destruct (WindowsFileSystemCleaner.manual_rmtree_rec self
              (S (S (max_depth self) - current_depth)) p current_depth s)
    as [r s'] eqn:E.
  exact (@manual_without_retries self H0 _ p current_depth s r s' E).
Qed.

Lemma manual_rmtree_without_retries_witness :
  only_listed (quiet_world one_file_tree)
    (cworld (snd (WindowsFileSystemCleaner._manual_rmtree no_retry_policy
                    ["tmp"; "d"]%string 0
                    (mkCState zero_stats (quiet_world one_file_tree))))).
Proof.
  exact (@manual_rmtree_without_retries no_retry_policy ["tmp"; "d"]%string 0
           (mkCState zero_stats (quiet_world one_file_tree)) eq_refl).
Defined.

(** ** Scope exit after a body that returns *)

(** X11.  When the protected body returns [b]:
    [SafeTemporaryDirectory] tears down once with
    [ignore_errors = ignore_cleanup_errors]; the [with] statement yields
    [b], except in strict mode ([ignore_cleanup_errors=False]), where a
    failed teardown raises although the body succeeded.  [SafeTempDir]
    tears down once with [ignore_errors=True] and always yields [b]; it
    forgets the directory when the adapter returned, even [False], and
    keeps it when the adapter raised.  [safe_temp_directory] always yields
    [b] and tears down once exactly when [auto_cleanup] is set and the
    directory still exists. *)
Theorem normal_exit_outcome (pa : adapter_ops) (B : Type)
  (body : path -> M world B) (b : B) (pre : string) (di : option path)
  (ign auto_cleanup : bool) (w w1 w2 : world) (d : path) :
  ops_create_safe_tempdir pa pre w = (Ok d, w1) ->
  body d w1 = (Ok b, w2) ->
  with_statement SafeTemporaryDirectory.__enter__
    SafeTemporaryDirectory.__exit__ body
    (SafeTemporaryDirectory.mk pre di ign None pa, w)
  = (match ign, fst (ops_safe_rmtree pa d ign w2) with
     | true, _ => Ok b
     | false, Ok true => Ok b
     | false, Ok false => Raise (SafeTemporaryDirectory.cleanup_failed d)
     | false, Raise e' => Raise e'
     end,
     (SafeTemporaryDirectory.mk pre di ign None pa,
      snd (ops_safe_rmtree pa d ign w2)))
  /\ with_statement SafeTempDir.__enter__ SafeTempDir.__exit__ body
       (SafeTempDir.mk pre None pa, w)
     = (Ok b,
        (SafeTempDir.mk pre
           match fst (ops_safe_rmtree pa d true w2) with
           | Ok _ => None
           | Raise _ => Some d
           end pa,
         snd (ops_safe_rmtree pa d true w2)))
  /\ safe_temp_directory pa pre auto_cleanup body w
     = (Ok b,
        if auto_cleanup && truthy_path d && exists_in (files w2) d
        then snd (ops_safe_rmtree pa d true w2)
        else w2).
Proof.
  intros Hc Hb. split; [|split].
  - unfold with_statement, bind, SafeTemporaryDirectory.__enter__,
      SafeTemporaryDirectory.__exit__, SafeTemporaryDirectory.cleanup,
      SafeTemporaryDirectory.set_name, try_finally, try_except, bind,
      get_self, set_self, liftW, ret, raise.
    simpl. rewrite Hc. simpl. rewrite Hb. simpl.
    destruct ign;
      destruct (ops_safe_rmtree pa d _ w2) as [[[|]|e'] w3]; reflexivity.
  - unfold with_statement, bind, SafeTempDir.__enter__, SafeTempDir.__exit__,
      SafeTempDir.create, SafeTempDir.cleanup, SafeTempDir.set_temp_dir,
      try_finally, try_except, bind, get_self, set_self, liftW, ret, raise.
    simpl. rewrite Hc. simpl. rewrite Hb. simpl.
    destruct (ops_safe_rmtree pa d true w2) as [[[|]|e'] w3]; reflexivity.
  - unfold safe_temp_directory, safe_temp_directory_gen, try_finally,
      try_except, bind, liftW, set_self, get_self, raise, OS.path_exists.
    simpl. rewrite Hc. simpl. rewrite Hb. simpl.
    destruct d as [|c d']; simpl.
    + rewrite andb_false_r. reflexivity.
    + destruct auto_cleanup; simpl; [|reflexivity].
      destruct (exists_in (files w2) (c :: d')); simpl; [|reflexivity].
      destruct (ops_safe_rmtree pa (c :: d') true w2) as [[b0|e'] w3];
        reflexivity.
Qed.

Lemma normal_exit_outcome_witness :
  fst (with_statement SafeTemporaryDirectory.__enter__
         SafeTemporaryDirectory.__exit__
         (fun d => create_file d "test.txt")
         (SafeTemporaryDirectory.mk "tmp" None false None posix_ops,
          denied_world))
  = Raise locked.
Proof.
  pose (r1 := ops_create_safe_tempdir posix_ops "tmp" denied_world).
  pose (d := ["tmp"; "tmp0"]%string).
  pose (r2 := create_file d "test.txt" (snd r1)).
  exact (f_equal fst
           (proj1 (@normal_exit_outcome posix_ops unit
                     (fun d => create_file d "test.txt") tt "tmp" None
                     false true denied_world (snd r1) (snd r2) d
                     eq_refl eq_refl))).
Defined.

(** ** A handle in use, and used again *)

(** X12.  A handle that holds a directory refuses a second
    [__enter__] (resp. [create]) with [RuntimeError]: no directory is
    created and the first one is kept, on disk and in the handle.  After
    [cleanup] the same [SafeTemporaryDirectory] handle can be entered
    again: with [ignore_cleanup_errors=True] the next [__enter__] asks the
    adapter for a new directory, whatever the teardown did. *)
Theorem handle_life_cycle (pa : adapter_ops) (pre : string)
  (di : option path) (ign : bool) (w w1 : world) (d : path) :
  ops_create_safe_tempdir pa pre w = (Ok d, w1) ->
  (SafeTemporaryDirectory.__enter__ ;; SafeTemporaryDirectory.__enter__)
    (SafeTemporaryDirectory.mk pre di ign None pa, w)
  = (Raise already_created,
     (SafeTemporaryDirectory.mk pre di ign (Some d) pa, w1))
  /\ (SafeTempDir.create ;; SafeTempDir.create)
       (SafeTempDir.mk pre None pa, w)
     = (Raise already_created, (SafeTempDir.mk pre (Some d) pa, w1))
  /\ (SafeTemporaryDirectory.__enter__ ;; SafeTemporaryDirectory.cleanup ;;
      SafeTemporaryDirectory.__enter__)
       (SafeTemporaryDirectory.mk pre di true None pa, w)
     = (let '(r, w3) := ops_create_safe_tempdir pa pre
                          (snd (ops_safe_rmtree pa d true w1)) in
        (r,
         (SafeTemporaryDirectory.mk pre di true
            match r with Ok d' => Some d' | Raise _ => None end pa,
          w3))).
Proof.
  intros Hc. split; [|split].
  - unfold bind, SafeTemporaryDirectory.__enter__,
      SafeTemporaryDirectory.set_name, bind, get_self, set_self, liftW, ret,
      raise.
    simpl. rewrite Hc. reflexivity.
  - unfold bind, SafeTempDir.create, SafeTempDir.set_temp_dir, bind, get_self,
      set_self, liftW, ret, raise.
    simpl. rewrite Hc. reflexivity.
  - unfold bind, SafeTemporaryDirectory.__enter__,
      SafeTemporaryDirectory.cleanup, SafeTemporaryDirectory.set_name,
      try_finally, try_except, bind, get_self, set_self, liftW, ret, raise.
    simpl. rewrite Hc. simpl.
    destruct (ops_safe_rmtree pa d true w1) as [[[|]|e'] w2]; simpl;
      destruct (ops_create_safe_tempdir pa pre w2) as [[d'|e2] w3];
      reflexivity.
Qed.

Lemma handle_life_cycle_witness :
  fst ((SafeTemporaryDirectory.__enter__ ;; SafeTemporaryDirectory.__enter__)
         (SafeTemporaryDirectory.mk "tmp" None true None posix_ops,
          quiet_world empty_tmp))
  = Raise already_created.
Proof.
  pose (r1 := ops_create_safe_tempdir posix_ops "tmp" (quiet_world empty_tmp)).
  exact (f_equal fst
           (proj1 (@handle_life_cycle posix_ops "tmp" None true
                     (quiet_world empty_tmp) (snd r1)
                     ["tmp"; "tmp0"]%string eq_refl))).
Defined.

(** ** The patch manager of windows_patches.py *)

Lemma do_call_tracked ps c0 c s :
  tracked ps c0 s ->
  exists b s', do_call ps c s = (Ok b, s') /\ tracked ps c0 s'.
Proof.
  unfold tracked, fresh_manager, WindowsPatches.__init__, on_windows.
  intros [-> | [Hw ->]].
  - destruct c; simpl;
      unfold apply_windows_patches, remove_windows_patches,
        is_windows_patched, auto_patch_if_needed,
        WindowsPatches.apply_patches, WindowsPatches.remove_patches,
        WindowsPatches.is_patched, bind, WindowsPatches.get, try_except;
      simpl;
      destruct (String.eqb (lower ps) "windows") eqn:Hw; simpl;
      eexists; eexists; (split; [reflexivity|]); rewrite ?Hw; auto.
  - destruct c; simpl;
      unfold apply_windows_patches, remove_windows_patches,
        is_windows_patched, auto_patch_if_needed,
        WindowsPatches.apply_patches, WindowsPatches.remove_patches,
        WindowsPatches.is_patched, bind, WindowsPatches.get, try_except;
      simpl; rewrite ?Hw; simpl;
      eexists; eexists; (split; [reflexivity|]); rewrite ?Hw; auto.
Qed.

Lemma run_calls_tracked ps c0 calls :
  forall s,
    tracked ps c0 s ->
    exists s', run_calls ps calls s = (Ok tt, s') /\ tracked ps c0 s'.
Proof.
  induction calls as [|c calls IH]; intros s Hs.
  - exists s. split; [reflexivity|exact Hs].
  - destruct (do_call_tracked c Hs) as (b & s1 & E1 & H1).
    destruct (IH s1 H1) as (s2 & E2 & H2).
    exists s2. split; [|exact H2].
    unfold run_calls in *. simpl. unfold bind at 1. unfold bind at 1.
    rewrite E1. simpl. exact E2.
Qed.

(** X13.  Whatever sequence of [apply_windows_patches],
    [remove_windows_patches], [is_windows_patched] and
    [auto_patch_if_needed] a program makes after the manager is built, no
    call raises, and [tempfile.TemporaryDirectory] is
    [SafeTemporaryDirectory] exactly while [is_patched()] holds and the
    class found at the start otherwise; the saved original is that class,
    never the replacement; and off Windows nothing ever changes. *)
Theorem patches_follow_the_flag (platform_system : string)
  (c0 : class_object) (calls : list patch_call) :
  let '(r, s) := run_calls platform_system calls
                   (fresh_manager platform_system c0) in
  r = Ok tt
  /\ WindowsPatches.tempfile_TemporaryDirectory s
     = (if WindowsPatches._patches_applied (WindowsPatches.self s)
        then SafeTemporaryDirectory_class else c0)
  /\ WindowsPatches._original_temp_directory (WindowsPatches.self s)
     = (if WindowsPatches._patches_applied (WindowsPatches.self s)
        then Some c0 else None)
  /\ (on_windows platform_system = false
      -> s = fresh_manager platform_system c0).
Proof.
  destruct (@run_calls_tracked platform_system c0 calls
              (fresh_manager platform_system c0) (or_introl eq_refl))
    as (s' & E & [-> | [Hw ->]]); rewrite E.
  - repeat split; reflexivity.
  - repeat split; try reflexivity. intros Hn. congruence.
Qed.

(** X14.  After any such calls, [auto_patch_if_needed] returns
    [True] exactly on a Windows host, and then the patches are in place;
    elsewhere it returns [False] and changes nothing.  Importing the
    module leaves the same state: patched on Windows, untouched
    elsewhere. *)
Theorem auto_patch_result (platform_system : string) (c0 : class_object)
  (calls : list patch_call) :
  let s := snd (run_calls platform_system calls
                  (fresh_manager platform_system c0)) in
  let patched := WindowsPatches.mkP (WindowsPatches.mk true (Some c0) true)
                   SafeTemporaryDirectory_class in
  auto_patch_if_needed platform_system s
  = (Ok (on_windows platform_system),
     if on_windows platform_system then patched
     else fresh_manager platform_system c0)
  /\ import_windows_patches platform_system c0
     = (Ok tt,
        if on_windows platform_system then patched
        else fresh_manager platform_system c0).
Proof.
  intros s patched. split.
  - subst s.
    destruct (@run_calls_tracked platform_system c0 calls
                (fresh_manager platform_system c0) (or_introl eq_refl))
      as (s' & E & Hs). rewrite E. simpl.
    unfold tracked, fresh_manager, WindowsPatches.__init__, on_windows in *.
    destruct Hs as [-> | [Hw ->]];
      unfold auto_patch_if_needed, WindowsPatches.apply_patches,
        WindowsPatches.is_patched, bind, WindowsPatches.get, try_except;
      simpl;
      destruct (String.eqb (lower platform_system) "windows") eqn:Hw';
      simpl; rewrite ?Hw'; try reflexivity; discriminate.
  - unfold import_windows_patches, fresh_manager, WindowsPatches.__init__,
      on_windows, auto_patch_if_needed, WindowsPatches.apply_patches,
      WindowsPatches.is_patched, bind, WindowsPatches.get, try_except.
    destruct (String.eqb (lower platform_system) "windows") eqn:Hw;
      simpl; rewrite ?Hw; reflexivity.
Qed.

(** X15.  [patch_context] hands the patch state back as it
    found it, whether the body returns or raises, when the body itself
    leaves that state alone: patches it applied are removed, patches that
    were already in place stay (so a nested context does not undo the
    outer one).  The precondition holds in every state the manager
    reaches: no original is saved while no patch is applied. *)
Theorem patch_context_restores (B : Type)
  (body : M WindowsPatches.pstate B) (s : WindowsPatches.pstate) :
  (forall s1, snd (body s1) = s1) ->
  (WindowsPatches._patches_applied (WindowsPatches.self s) = false ->
   WindowsPatches._original_temp_directory (WindowsPatches.self s) = None) ->
  WindowsPatches.patch_context body s
  = (fst (body (snd (WindowsPatches.apply_patches s))), s)
  /\ windows_patch_context
       (WindowsPatches.patch_context body) s
     = (fst (body (snd (WindowsPatches.apply_patches s))), s).
Proof.
  intros Hbody Horig.
  assert (Hone : forall s0,
    (WindowsPatches._patches_applied (WindowsPatches.self s0) = false ->
     WindowsPatches._original_temp_directory (WindowsPatches.self s0) = None)
    -> WindowsPatches.patch_context body s0
       = (fst (body (snd (WindowsPatches.apply_patches s0))), s0)).
  { intros [[w o a] c] Ho. simpl in Ho.
    unfold WindowsPatches.patch_context, WindowsPatches.apply_patches,
      WindowsPatches.remove_patches, bind, WindowsPatches.get, try_except,
      try_finally.
    simpl. destruct w; simpl; [destruct a; simpl|].
    - specialize (Hbody (WindowsPatches.mkP
                           (WindowsPatches.mk true o true) c)).
      destruct (body _) as [r s1]. simpl in *. subst s1. reflexivity.
    - rewrite (Ho eq_refl).
      specialize (Hbody (WindowsPatches.mkP
                           (WindowsPatches.mk true (Some c) true)
                           SafeTemporaryDirectory_class)).
      destruct (body _) as [r s1]. simpl in *. subst s1. simpl.
      reflexivity.
    - specialize (Hbody (WindowsPatches.mkP
                           (WindowsPatches.mk false o a) c)).
      destruct (body _) as [r s1]. simpl in *. subst s1. reflexivity. }
  split; [exact (Hone s Horig)|].
  destruct s as [[w o a] c]. simpl in Horig.
  unfold windows_patch_context.
  unfold WindowsPatches.patch_context at 1.
  unfold WindowsPatches.apply_patches, WindowsPatches.remove_patches, bind,
    WindowsPatches.get, try_except, try_finally.
  simpl. destruct w; simpl; [destruct a; simpl|].
  - rewrite Hone by (simpl; discriminate). simpl. reflexivity.
  - rewrite (Horig eq_refl). rewrite Hone by (simpl; discriminate).
    simpl. reflexivity.
  - rewrite Hone by (simpl; exact Horig). simpl. reflexivity.
Qed.

Lemma patch_context_restores_witness :
  WindowsPatches.patch_context reads_class
    (fresh_manager "Windows" stdlib_TemporaryDirectory)
  = (Ok SafeTemporaryDirectory_class,
     fresh_manager "Windows" stdlib_TemporaryDirectory).
Proof.
  exact (proj1 (@patch_context_restores class_object reads_class
                  (fresh_manager "Windows" stdlib_TemporaryDirectory)
                  (fun s1 => eq_refl) (fun _ => eq_refl))).
Defined.

(** ** The Claude CLI command *)

Section Commands.

Import PlatformCommands.

Local Open Scope string_scope.

(** A name has one extension: the three suffixes have the same length. *)
Lemma endswith_eq (s suffix : string) :
  endswith s suffix = true ->
  substring (String.length s - String.length suffix) (String.length suffix) s
  = suffix.
Proof.
  unfold endswith. intros H. apply andb_true_iff in H.
  destruct H as [_ H]. apply String.eqb_eq in H. exact H.
Qed.

Lemma ps1_is_not_cmd_or_bat (s : string) :
  endswith s ".ps1" = true ->
  endswith s ".cmd" || endswith s ".bat" = false.
Proof.
  intros H. apply endswith_eq in H. simpl String.length in H.
  unfold endswith. simpl String.length. rewrite H.
  rewrite !andb_false_r. reflexivity.
Qed.

(** Testing [.cmd]/[.bat] before [.ps1] gives the same command. *)
Lemma cmd_first_by_extension (p : string) :
  (if endswith (lower p) ".cmd" || endswith (lower p) ".bat" then
     ["cmd.exe"; "/c"; p]
   else if endswith (lower p) ".ps1" then
     ["powershell.exe"; "-ExecutionPolicy"; "Bypass"; "-File"; p]
   else [p])
  = by_extension p.
Proof.
  unfold by_extension.
  destruct (endswith (lower p) ".ps1") eqn:Hps.
  - rewrite (ps1_is_not_cmd_or_bat _ Hps). reflexivity.
  - reflexivity.
Qed.

Lemma by_extension_nonempty (p : string) : by_extension p <> [].
Proof.
  unfold by_extension.
  destruct (endswith (lower p) ".ps1"); [discriminate|].
  destruct (endswith (lower p) ".cmd" || endswith (lower p) ".bat");
    discriminate.
Qed.

Lemma found_cmd_nonempty o cmd : found_cmd o = Some cmd -> cmd <> [].
Proof.
  unfold found_cmd, truthy_cmd. destruct o as [[|a l]|]; try discriminate.
  intros E. inversion E. discriminate.
Qed.

Variable h : host.
Variable self : t.

(** Strategies 1 and 2 of [_detect_windows_claude_command], as options. *)
Lemma detect_unfold :
  _detect_windows_claude_command h self
  = return_if_found
      match found_str (environ h "CLAUDE_PS1_PATH") with
      | Some o => if exists_path h o then Some (by_extension o) else None
      | None => None
      end
      (return_if_found
         match found_str (which h "claude") with
         | Some p => Some (by_extension p)
         | None => None
         end
         (and_then (_detect_claude_from_npm h self) (fun claude_from_npm =>
          return_if_found (found_cmd claude_from_npm)
            (return_if_found (found_cmd (_detect_claude_from_common_paths h))
               (and_then (_detect_claude_via_where h)
                  (fun claude_from_where =>
                   return_if_found (found_cmd claude_from_where)
                     (if truthy_str (which h "powershell")
                         || truthy_str (which h "powershell.exe")
                      then Returned ["powershell.exe"; "-ExecutionPolicy";
                                     "Bypass"; "-Command"; "claude"]
                      else Returned ["cmd.exe"; "/c"; "claude"]))))))).
Proof.
  unfold _detect_windows_claude_command.
  f_equal.
  - destruct (found_str (environ h "CLAUDE_PS1_PATH")) as [o|];
      [|reflexivity].
    destruct (exists_path h o); [|reflexivity].
    unfold by_extension.
    destruct (endswith (lower o) ".ps1"); [reflexivity|].
    destruct (endswith (lower o) ".cmd" || endswith (lower o) ".bat");
      reflexivity.
  - f_equal.
    destruct (found_str (which h "claude")) as [p|]; [|reflexivity].
    rewrite <- cmd_first_by_extension.
    destruct (endswith (lower p) ".cmd" || endswith (lower p) ".bat");
      [reflexivity|].
    destruct (endswith (lower p) ".ps1"); reflexivity.
Qed.

Lemma detect_nonempty cmd :
  _detect_windows_claude_command h self = Returned cmd -> cmd <> [].
Proof.
  rewrite detect_unfold. unfold return_if_found, and_then.
  destruct (found_str (environ h "CLAUDE_PS1_PATH")) as [o|].
  - destruct (exists_path h o).
    + intros E; inversion E; subst. apply by_extension_nonempty.
    + destruct (found_str (which h "claude")) as [p|].
      * intros E; inversion E; subst. apply by_extension_nonempty.
      * destruct (_detect_claude_from_npm h self) as [o1|e];
          [|discriminate].
        destruct (found_cmd o1) as [c1|] eqn:E1.
        { intros E; inversion E; subst. eapply found_cmd_nonempty; eauto. }
        destruct (found_cmd (_detect_claude_from_common_paths h))
          as [c2|] eqn:E2.
        { intros E; inversion E; subst. eapply found_cmd_nonempty; eauto. }
        destruct (_detect_claude_via_where h) as [o3|e]; [|discriminate].
        destruct (found_cmd o3) as [c3|] eqn:E3.
        { intros E; inversion E; subst. eapply found_cmd_nonempty; eauto. }
        destruct (truthy_str (which h "powershell")
                  || truthy_str (which h "powershell.exe"));
          intros E; inversion E; discriminate.
  - destruct (found_str (which h "claude")) as [p|].
    + intros E; inversion E; subst. apply by_extension_nonempty.
    + destruct (_detect_claude_from_npm h self) as [o1|e];
        [|discriminate].
      destruct (found_cmd o1) as [c1|] eqn:E1.
      { intros E; inversion E; subst. eapply found_cmd_nonempty; eauto. }
      destruct (found_cmd (_detect_claude_from_common_paths h))
        as [c2|] eqn:E2.
      { intros E; inversion E; subst. eapply found_cmd_nonempty; eauto. }
      destruct (_detect_claude_via_where h) as [o3|e]; [|discriminate].
      destruct (found_cmd o3) as [c3|] eqn:E3.
      { intros E; inversion E; subst. eapply found_cmd_nonempty; eauto. }
      destruct (truthy_str (which h "powershell")
                || truthy_str (which h "powershell.exe"));
        intros E; inversion E; discriminate.
Qed.

End Commands.

(** X16.  A path to the CLI found through [CLAUDE_PS1_PATH],
    through [shutil.which] or through [where] is wrapped in the same way:
    PowerShell for [.ps1], [cmd.exe] for [.cmd] and [.bat], the path alone
    otherwise, the extension compared without regard to case.  The three
    places test the extensions in different orders; the result is the
    same, because a name has one extension. *)
Theorem found_path_is_wrapped_by_extension (h : host)
  (self : PlatformCommands.t) :
  (forall o,
     found_str (environ h "CLAUDE_PS1_PATH") = Some o ->
     exists_path h o = true ->
     PlatformCommands._detect_windows_claude_command h self
     = Returned (by_extension o))
  /\ (forall p,
        match found_str (environ h "CLAUDE_PS1_PATH") with
        | Some o => exists_path h o = false
        | None => True
        end ->
        found_str (which h "claude") = Some p ->
        PlatformCommands._detect_windows_claude_command h self
        = Returned (by_extension p))
  /\ (forall result,
        subprocess_run h ["where"; "claude"]%string where_kwargs
        = Returned result ->
        returncode result = 0%Z ->
        nonempty (strip h (stdout result)) = true ->
        exists_path h (first_line (strip h (stdout result))) = true ->
        PlatformCommands._detect_claude_via_where h
        = Returned (Some (by_extension
                            (first_line (strip h (stdout result)))))).
Proof.
  split; [|split].
  - intros o Ho Hex. rewrite detect_unfold. rewrite Ho, Hex. reflexivity.
  - intros p Hno Hp. rewrite detect_unfold. rewrite Hp.
    destruct (found_str (environ h "CLAUDE_PS1_PATH")) as [o|];
      [rewrite Hno|]; reflexivity.
  - intros result Hrun Hrc Hne Hex.
    unfold PlatformCommands._detect_claude_via_where.
    change (subprocess_run h ["where"; "claude"]%string where_kwargs)
      with (subprocess_run h ["where"; "claude"]%string
              [("capture_output", PyBool true); ("text", PyBool true);
               ("timeout", PyInt 5);
               ("creationflags", CREATE_NO_WINDOW)]%string) in Hrun.
    rewrite Hrun, Hrc, Hne, Hex. simpl. unfold by_extension.
    destruct (endswith _ ".ps1"); [reflexivity|].
    destruct (endswith _ ".cmd" || endswith _ ".bat"); reflexivity.
Qed.

Lemma found_path_is_wrapped_by_extension_witness :
  PlatformCommands._detect_windows_claude_command override_host
    (PlatformCommands.__init__ "Windows")
  = Returned ["powershell.exe"; "-ExecutionPolicy"; "Bypass"; "-File";
              "C:\tools\claude.PS1"]%string.
Proof.
  exact (proj1 (@found_path_is_wrapped_by_extension override_host
                  (PlatformCommands.__init__ "Windows"))
           "C:\tools\claude.PS1"%string eq_refl eq_refl).
Defined.

(** X17.  [get_claude_command] on an adapter without cached
    command returns [["claude"]] off Windows; on Windows it returns a
    command with at least one word, unless [CLAUDE_WINDOWS_CMD] is set and
    holds no word: then the command is the empty list. *)
Theorem claude_command_words (h : host) (is_win : bool)
  (cmd : list string) :
  fst (PlatformCommands.get_claude_command h
         (PlatformCommands.mk is_win None)) = Returned cmd ->
  (is_win = false -> cmd = ["claude"%string])
  /\ (cmd = [] ->
      is_win = true
      /\ exists v,
           found_str (environ h "CLAUDE_WINDOWS_CMD") = Some v
           /\ split h v = []).
Proof.
  unfold PlatformCommands.get_claude_command. simpl.
  destruct is_win.
  - destruct (found_str (environ h "CLAUDE_WINDOWS_CMD")) as [v|] eqn:Hv.
    + simpl. intros E; inversion E; subst. split; [discriminate|].
      intros Hs. split; [reflexivity|]. exists v. auto.
    + destruct (PlatformCommands._detect_windows_claude_command h _)
        as [c|e] eqn:Ed; simpl; [|discriminate].
      intros E; inversion E; subst. split; [discriminate|].
      intros Hnil. exfalso. exact (detect_nonempty _ _ Ed Hnil).
  - simpl. intros E; inversion E; subst. split; [reflexivity|discriminate].
Qed.

Lemma claude_command_words_witness :
  fst (PlatformCommands.get_claude_command override_host
         (PlatformCommands.mk false None))
  = Returned ["claude"%string].
Proof.
  pose (x := PlatformCommands.get_claude_command override_host
               (PlatformCommands.mk false None)).
  destruct (@claude_command_words override_host false ["claude"%string]
              eq_refl) as [Hc _].
  exact (f_equal (@Returned (list string)) (eq_sym (Hc eq_refl))).
Defined.

(** X18.  The first command that [get_claude_command] returns is
    kept: every later call returns it and leaves the adapter as it is,
    whatever the environment has become.  A detection that raised caches
    nothing. *)
Theorem claude_command_is_cached (h h' : host) (self self1 : PlatformCommands.t)
  (r : outcome (list string)) :
  PlatformCommands.get_claude_command h self = (r, self1) ->
  match r with
  | Returned cmd =>
      PlatformCommands.get_claude_command h' self1 = (Returned cmd, self1)
  | Raised _ => self1 = self
  end.
Proof.
  unfold PlatformCommands.get_claude_command.
  destruct self as [w [c|]]; simpl.
  - intros E; inversion E; subst. reflexivity.
  - destruct w.
    + destruct (found_str (environ h "CLAUDE_WINDOWS_CMD")) as [v|].
      * intros E; inversion E; subst. reflexivity.
      * destruct (PlatformCommands._detect_windows_claude_command h _)
          as [c|e]; intros E; inversion E; subst; reflexivity.
    + intros E; inversion E; subst. reflexivity.
Qed.

Lemma claude_command_is_cached_witness :
  let a := snd (PlatformCommands.get_claude_command override_host
                  (PlatformCommands.__init__ "Windows")) in
  PlatformCommands.get_claude_command test_mode_host a
  = (Returned ["powershell.exe"; "-ExecutionPolicy"; "Bypass"; "-File";
               "C:\tools\claude.PS1"]%string, a).
Proof.
  intros a.
  exact (@claude_command_is_cached override_host test_mode_host
           (PlatformCommands.__init__ "Windows") a
           (Returned ["powershell.exe"; "-ExecutionPolicy"; "Bypass";
                      "-File"; "C:\tools\claude.PS1"]%string)
           eq_refl).
Defined.

(** ** Running the CLI *)

Lemma mocked_in_test_mode (h : host) (v : string) :
  environ h "CLAUDE_TEST_MODE"%string = Some v ->
  In (lower v) ["true"; "1"; "on"]%string ->
  PlatformCommands._is_subprocess_mocked h = true.
Proof.
  intros Hv Hin. unfold PlatformCommands._is_subprocess_mocked.
  rewrite Hv.
  assert (Hex : existsb (String.eqb (lower v)) ["true"; "1"; "on"]%string
                = true).
  { apply existsb_exists. exists (lower v). split; [exact Hin|].
    apply String.eqb_refl. }
  rewrite Hex.
  repeat match goal with
         | |- (if ?c then true else _) = true => destruct c; [reflexivity|]
         end.
  reflexivity.
Qed.

(** X19.  [run_claude_command] refuses, with [ValueError]
    and the adapter untouched, an argument list that is empty or does not
    start with [claude].  Off Windows, and on any platform when
    [CLAUDE_TEST_MODE] is [true], [1] or [on] in any letter case, it runs
    exactly the caller's arguments with the caller's keyword arguments and
    does not look for the CLI: the adapter's cache is untouched. *)
Theorem run_claude_command_pass_through (h : host)
  (self : PlatformCommands.t) (args : list string) (kw : kwargs) :
  (hd_error args <> Some "claude"%string ->
   PlatformCommands.run_claude_command h self args kw
   = (Raised (PlatformCommands.not_a_claude_command h args), self))
  /\ (hd_error args = Some "claude"%string ->
      PlatformCommands._is_windows self = false
      \/ (exists v,
            environ h "CLAUDE_TEST_MODE"%string = Some v
            /\ In (lower v) ["true"; "1"; "on"]%string) ->
      PlatformCommands.run_claude_command h self args kw
      = (subprocess_run h args kw, self)).
Proof.
  split.
  - intros Hhd. unfold PlatformCommands.run_claude_command.
    destruct args as [|first rest]; [reflexivity|].
    destruct (String.eqb first "claude") eqn:Hf; [|reflexivity].
    apply String.eqb_eq in Hf. subst first. simpl in Hhd. congruence.
  - intros Hhd Hmode. unfold PlatformCommands.run_claude_command.
    destruct args as [|first rest]; [discriminate|].
    simpl in Hhd. inversion Hhd; subst first.
    rewrite String.eqb_refl. simpl.
    destruct Hmode as [Hw | (v & Hv & Hin)].
    + rewrite Hw. rewrite orb_true_r. reflexivity.
    + rewrite (mocked_in_test_mode h Hv Hin). reflexivity.
Qed.

Lemma run_claude_command_pass_through_witness :
  PlatformCommands.run_claude_command test_mode_host
    (PlatformCommands.__init__ "Windows") version_args version_kwargs
  = (Returned (mkCompleted 1 "" "boom"),
     PlatformCommands.__init__ "Windows").
Proof.
  refine (proj2 (@run_claude_command_pass_through test_mode_host
                   (PlatformCommands.__init__ "Windows") version_args
                   version_kwargs) eq_refl _).
  right. exists "TRUE"%string. split; [reflexivity|].
  left. vm_compute. reflexivity.
Defined.

Lemma message_nonempty (a b : string) :
  a <> EmptyString -> (a ++ b)%string <> EmptyString.
Proof. destruct a; [contradiction|]. simpl. discriminate. Qed.

(** X20.  [validate_claude_availability] answers [True]
    exactly when the command ran and exited with status 0, and its message
    is empty exactly then: every failure, a raised exception included,
    comes with a message.  The adapter it leaves is the one that
    [run_claude_command] leaves. *)
Theorem validation_outcome (h : host) (self : PlatformCommands.t) :
  let run := PlatformCommands.run_claude_command h self version_args
               version_kwargs in
  let '((ok, msg), self') :=
    PlatformCommands.validate_claude_availability h self in
  (ok = true <-> msg = EmptyString)
  /\ (ok = true <->
      exists result, fst run = Returned result /\ returncode result = 0%Z)
  /\ self' = snd run.
Proof.
  intros run. unfold PlatformCommands.validate_claude_availability.
  change (PlatformCommands.run_claude_command h self
            ["claude"; "--version"]%string
            [("capture_output", PyBool true); ("text", PyBool true);
             ("timeout", PyInt 10)]%string) with run.
  destruct run as [[result|e] self1]; simpl.
  - destruct (Z.eqb (returncode result) 0) eqn:Hrc.
    + apply Z.eqb_eq in Hrc. repeat split; auto.
      exists result. auto.
    + apply Z.eqb_neq in Hrc.
      assert (Hmsg :
        (if nonempty (stdout result)
         then (if nonempty (stderr result)
               then ("Claude Code returned exit code "
                       ++ int_str (returncode result))
                      ++ ". Stderr: " ++ stderr result
               else "Claude Code returned exit code "
                      ++ int_str (returncode result))
                ++ ". Stdout: " ++ stdout result
         else (if nonempty (stderr result)
               then ("Claude Code returned exit code "
                       ++ int_str (returncode result))
                      ++ ". Stderr: " ++ stderr result
               else "Claude Code returned exit code "
                      ++ int_str (returncode result)))%string
        <> EmptyString).
      { destruct (nonempty (stdout result)), (nonempty (stderr result));
          simpl; discriminate. }
      split; [|split]; [split|split|reflexivity].
      * discriminate.
      * intros Hm. exfalso. exact (Hmsg Hm).
      * discriminate.
      * intros (r & Hr & Hz). inversion Hr; subst. contradiction.
  - destruct e as [m|m|[c m cause]]; try destruct c; simpl;
      repeat split; auto; try discriminate;
      intros (r & Hr & _); discriminate.
Qed.

(** ** The second strategy on a directory tree *)

Section ForceTree.

Import WindowsFileSystemCleaner.

Lemma after_pass_nothing (s : cstate) : after_pass s 0 0 [] = s.
Proof.
  destruct s as [[a b c d] [f t fl r]]. unfold after_pass, add_counts. simpl.
  rewrite !Nat.add_0_r, app_nil_r. reflexivity.
Qed.

Lemma after_pass_twice (s : cstate) nf nd evs nf' nd' evs' :
  after_pass (after_pass s nf nd evs) nf' nd' evs'
  = after_pass s (nf + nf') (nd + nd') (evs ++ evs').
Proof.
  unfold after_pass, add_counts. simpl.
  rewrite !Nat.add_assoc, app_assoc. reflexivity.
Qed.

Lemma chmod_existing (s : cstate) (q : path) :
  fault_free (cworld s) ->
  files (cworld s) q <> None ->
  liftW (OS.chmod q) s
  = (Ok tt,
     mkCState (stats s)
       (mkWorld (files (cworld s)) (trace (cworld s) ++ [Chmod q])
          (faults (cworld s)) (rlimit (cworld s)))).
Proof.
  intros Hnf Hq. unfold liftW, OS.chmod, OS.syscall. simpl.
  rewrite Hnf. destruct (files (cworld s) q); [reflexivity|contradiction].
Qed.

Lemma chmod_files_loop (root : path) (names : list string) :
  forall s,
    fault_free (cworld s) ->
    (forall n, In n names ->
       files (cworld s) (os_path_join root n) <> None) ->
    for_each names (fun file =>
      let file_path := os_path_join root file in
      try_except (liftW (OS.chmod file_path) ;; bump_files_removed)
        (fun _ => ret tt)) s
    = (Ok tt,
       after_pass s (length names) 0
         (map (fun n => Chmod (os_path_join root n)) names)).
Proof.
  induction names as [|n names IH]; intros s Hnf Hex.
  - simpl. rewrite after_pass_nothing. reflexivity.
  - simpl. unfold bind at 1. unfold try_except at 1. unfold bind at 1.
    rewrite chmod_existing by (auto; apply Hex; left; reflexivity).
    unfold bump_files_removed at 1, modify_stats. cbn [stats cworld].
    rewrite IH.
    + unfold after_pass, add_counts. cbn [stats cworld files trace faults
        rlimit files_removed dirs_removed retries_used errors_encountered].
      rewrite <- !app_assoc. simpl.
      rewrite <- !Nat.add_assoc. reflexivity.
    + exact Hnf.
    + intros n' Hn'. apply Hex. right. exact Hn'.
Qed.

Lemma chmod_dirs_loop (root : path) (names : list string) :
  forall s,
    fault_free (cworld s) ->
    (forall n, In n names ->
       files (cworld s) (os_path_join root n) <> None) ->
    for_each names (fun dir =>
      let dir_path := os_path_join root dir in
      try_except (liftW (OS.chmod dir_path) ;; bump_dirs_removed)
        (fun _ => ret tt)) s
    = (Ok tt,
       after_pass s 0 (length names)
         (map (fun n => Chmod (os_path_join root n)) names)).
Proof.
  induction names as [|n names IH]; intros s Hnf Hex.
  - simpl. rewrite after_pass_nothing. reflexivity.
  - simpl. unfold bind at 1. unfold try_except at 1. unfold bind at 1.
    rewrite chmod_existing by (auto; apply Hex; left; reflexivity).
    unfold bump_dirs_removed at 1, modify_stats. cbn [stats cworld].
    rewrite IH.
    + unfold after_pass, add_counts. cbn [stats cworld files trace faults
        rlimit files_removed dirs_removed retries_used errors_encountered].
      rewrite <- !app_assoc. simpl.
      rewrite <- !Nat.add_assoc. reflexivity.
    + exact Hnf.
    + intros n' Hn'. apply Hex. right. exact Hn'.
Qed.

Lemma make_writable_at (root : path) (dirs files_ : list string) (s : cstate) :
  fault_free (cworld s) ->
  (forall n, In n (files_ ++ dirs) ->
     files (cworld s) (os_path_join root n) <> None) ->
  make_writable root dirs files_ s
  = (Ok tt,
     after_pass s (length files_) (length dirs)
       (map (fun n => Chmod (os_path_join root n)) files_
        ++ map (fun n => Chmod (os_path_join root n)) dirs)).
Proof.
  intros Hnf Hex. unfold make_writable. unfold bind at 1.
  rewrite chmod_files_loop
    by (auto; intros n Hn; apply Hex; apply in_or_app; left; exact Hn).
  rewrite chmod_dirs_loop
    by (auto; intros n Hn; apply Hex; apply in_or_app; right; exact Hn).
  rewrite after_pass_twice. rewrite Nat.add_0_r. reflexivity.
Qed.

(** The entries of a directory that a filesystem holds, split as [os.walk]
    splits them. *)
Lemma split_children f p (cs : list (string * tree)) :
  Forall (fun c => holds f (os_path_join p (fst c)) (snd c)) cs ->
  partition
    (fun n => match f (os_path_join p n) with
              | Some (EDir _) => true
              | _ => false
              end) (map fst cs)
  = (map fst (filter (fun c => is_tdir (snd c)) cs),
     map fst (filter (fun c => negb (is_tdir (snd c))) cs)).
Proof.
  induction 1 as [|[n t] cs Hc _ IH]; [reflexivity|].
  simpl. rewrite IH. simpl in Hc.
  inversion Hc as [q Hq|q names cs0 Hq _ _ _]; subst; rewrite Hq; reflexivity.
Qed.

Lemma holds_exists f p t : holds f p t -> f p <> None.
Proof. intros Hh. inversion Hh; subst; congruence. Qed.

Lemma count_files_dir cs :
  count_files (TDir cs)
  = fold_right (fun c acc =>
                  (if is_tdir (snd c) then count_files (snd c) else 0) + acc)
      0 cs
    + length (filter (fun c => negb (is_tdir (snd c))) cs).
Proof.
  simpl. induction cs as [|[n t] cs IH]; [reflexivity|].
  simpl. rewrite IH. destruct t; simpl; lia.
Qed.

Lemma count_dirs_dir cs :
  count_dirs (TDir cs)
  = fold_right (fun c acc =>
                  (if is_tdir (snd c) then count_dirs (snd c) else 0) + acc)
      0 cs
    + length (filter (fun c => is_tdir (snd c)) cs).
Proof.
  simpl. induction cs as [|[n t] cs IH]; [reflexivity|].
  simpl. rewrite IH. destruct t; simpl; lia.
Qed.

(** The loop of [os.walk] over the sub-directories. *)
Lemma walk_children fuel p (cs : list (string * tree)) :
  forall s,
    fault_free (cworld s) ->
    Forall (fun c => holds (files (cworld s)) (os_path_join p (fst c))
                       (snd c)) cs ->
    Forall (fun c => made_writable fuel (snd c)) cs ->
    (forall c, In c cs -> match snd c with
                          | TFile => True
                          | TDir _ => nesting (snd c) < fuel
                          end) ->
    for_each (map fst (filter (fun c => is_tdir (snd c)) cs))
      (fun d => Shutil.walk_bottom_up fuel (os_path_join p d) make_writable) s
    = (Ok tt,
       after_pass s
         (fold_right (fun c acc =>
                        (if is_tdir (snd c) then count_files (snd c) else 0)
                        + acc) 0 cs)
         (fold_right (fun c acc =>
                        (if is_tdir (snd c) then count_dirs (snd c) else 0)
                        + acc) 0 cs)
         (flat_map (fun c => walk_events (os_path_join p (fst c)) (snd c))
            cs)).
Proof.
  induction cs as [|[n t] cs IH]; intros s Hnf Hh Hw Hfit.
  - simpl. rewrite after_pass_nothing. reflexivity.
  - inversion Hh as [|c0 cs0 Hc Hcs]; subst.
    inversion Hw as [|c1 cs1 Hwc Hwcs]; subst.
    simpl in Hc, Hwc.
    assert (Hrest : forall s1,
      fault_free (cworld s1) ->
      files (cworld s1) = files (cworld s) ->
      for_each (map fst (filter (fun c => is_tdir (snd c)) cs))
        (fun d => Shutil.walk_bottom_up fuel (os_path_join p d)
                    make_writable) s1
      = (Ok tt,
         after_pass s1
           (fold_right (fun c acc =>
                          (if is_tdir (snd c) then count_files (snd c)
                           else 0) + acc) 0 cs)
           (fold_right (fun c acc =>
                          (if is_tdir (snd c) then count_dirs (snd c)
                           else 0) + acc) 0 cs)
           (flat_map (fun c => walk_events (os_path_join p (fst c)) (snd c))
              cs))).
    { intros s1 Hnf1 Hf1. apply IH.
      - exact Hnf1.
      - rewrite Hf1. exact Hcs.
      - exact Hwcs.
      - intros c Hin. apply Hfit. right. exact Hin. }
    destruct t as [|cs'].
    + simpl. rewrite Hrest by auto. reflexivity.
    + simpl. unfold bind at 1.
      rewrite (Hwc (os_path_join p n) s Hnf Hc
                 (Hfit (n, TDir cs') (or_introl eq_refl))).
      rewrite Hrest by (unfold after_pass; simpl; auto).
      rewrite after_pass_twice. reflexivity.
Qed.

Lemma scanned_state (s : cstate) (p : path) :
  mkCState (stats s)
    (set_files (record_event (Scandir p) (cworld s)) (files (cworld s)))
  = after_pass s 0 0 [Scandir p].
Proof.
  destruct s as [[a b c d] w]. unfold after_pass, add_counts, set_files,
    record_event. simpl. rewrite !Nat.add_0_r. reflexivity.
Qed.

Lemma walk_makes_writable t : forall fuel, made_writable fuel t.
Proof.
  induction t as [|cs IH] using tree_induction; intros fuel; [exact I|].
  unfold made_writable. intros p s Hnf Hh Hfuel.
  destruct fuel as [|fuel]; [inversion Hfuel|].
  inversion Hh as [|q names cs0 Hq Hl Hn Hc]; subst.
  change (Shutil.walk_bottom_up (S fuel) p make_writable s)
    with ((scanned <- try_except_when is_OSError
                        (entries <- liftW (OS.scandir p) ;;
                         ret (Some entries))
                        (fun _ => ret None) ;;
           match scanned with
           | None => ret tt
           | Some entries =>
               parts <- liftW (Shutil.split_entries p entries) ;;
               let '(dirs, nondirs) := parts in
               for_each dirs (fun d =>
                 Shutil.walk_bottom_up fuel (os_path_join p d)
                   make_writable) ;;
               make_writable p dirs nondirs
           end) s).
  unfold bind at 1. unfold try_except_when, try_except. unfold bind at 1.
  assert (Es : liftW (OS.scandir p) s
               = (Ok (map fst cs), after_pass s 0 0 [Scandir p])).
  { unfold liftW, OS.scandir, OS.read_dir, OS.syscall. simpl.
    rewrite Hnf, Hq, Hl. rewrite <- scanned_state. reflexivity. }
  rewrite Es. unfold ret at 1.
  set (s0 := after_pass s 0 0 [Scandir p]).
  assert (Hf0 : files (cworld s0) = files (cworld s)) by reflexivity.
  assert (Hnf0 : fault_free (cworld s0)) by exact Hnf.
  unfold bind at 1.
  assert (Ep : liftW (Shutil.split_entries p (map fst cs)) s0
               = (Ok (map fst (filter (fun c => is_tdir (snd c)) cs),
                      map fst (filter (fun c => negb (is_tdir (snd c))) cs)),
                  s0)).
  { unfold liftW, Shutil.split_entries. simpl.
    rewrite (@split_children (files (cworld s)) p cs Hc). reflexivity. }
  rewrite Ep. unfold bind at 1.
  rewrite (@walk_children fuel p cs s0 Hnf0).
  - rewrite make_writable_at.
    + unfold s0. rewrite !after_pass_twice.
      rewrite count_files_dir, count_dirs_dir.
      rewrite !length_map, !map_map. simpl walk_events.
      reflexivity.
    + exact Hnf.
    + intros n Hin. cbn [after_pass cworld files].
      assert (Hn' : exists c, In c cs /\ fst c = n).
      { apply in_app_or in Hin. destruct Hin as [Hin|Hin];
          apply in_map_iff in Hin; destruct Hin as (c & Hfc & Hin);
          apply filter_In in Hin; destruct Hin as [Hin _]; eauto. }
      destruct Hn' as (c & Hin' & <-).
      rewrite Forall_forall in Hc. exact (holds_exists (Hc c Hin')).
  - exact Hc.
  - rewrite Forall_forall in *. intros c Hin. apply IH. exact Hin.
  - intros [n tc] Hin. simpl. destruct tc as [|cs']; [exact I|].
    pose proof (nesting_child _ _ _ Hin). lia.
Qed.

End ForceTree.

(** X21.  When the filesystem holds a directory tree at
    [p], no system call fails and the recursion limit exceeds the nesting
    of the tree, [_force_rmtree] returns normally: its first pass changes
    the attributes of every entry below [p] and removes nothing, its
    second pass removes the whole tree and nothing else.  The first pass
    adds the number of files of the tree to [files_removed] and the number
    of its directories below [p] to [dirs_removed]. *)
Theorem force_rmtree_removes_tree (cs : list (string * tree)) (p : path)
  (s : cstate) :
  fault_free (cworld s) ->
  holds (files (cworld s)) p (TDir cs) ->
  nesting (TDir cs) < rlimit (cworld s) ->
  exists s',
    WindowsFileSystemCleaner._force_rmtree p s = (Ok tt, s')
    /\ stats s'
       = add_counts (stats s) (count_files (TDir cs)) (count_dirs (TDir cs))
    /\ (forall q, In q (postorder p (TDir cs)) -> files (cworld s') q = None)
    /\ (forall q, ~ In q (postorder p (TDir cs)) ->
          files (cworld s') q = files (cworld s) q)
    /\ trace (cworld s')
       = trace (cworld s) ++ walk_events p (TDir cs)
           ++ native_events p (TDir cs).
Proof.
  intros Hnf Hh Hfuel.
  set (s1 := after_pass s (count_files (TDir cs)) (count_dirs (TDir cs))
               (walk_events p (TDir cs))).
  pose proof (@walk_makes_writable (TDir cs) (rlimit (cworld s)) p s Hnf Hh
                Hfuel) as E1.
  fold s1 in E1.
  destruct (@rmtree_removes_directory cstate cstate_HasWorld
              WindowsFileSystemCleaner.force_remove_readonly (TDir cs)
              (rlimit (cworld s1)) p s1 Hnf Hh Hfuel)
    as (s' & E2 & (A & B & T & _) & F).
  exists s'. split.
  - change (WindowsFileSystemCleaner._force_rmtree p s)
      with ((Shutil.walk p make_writable ;;
             Shutil.rmtree p WindowsFileSystemCleaner.force_remove_readonly)
              s).
    unfold bind, Shutil.walk. cbn [view cstate_HasWorld].
    rewrite E1. unfold Shutil.rmtree. cbn [view cstate_HasWorld].
    exact E2.
  - split; [exact (F _ stats (fun _ _ => eq_refl))|].
    split; [exact A|]. split; [exact B|].
    cbn [view cstate_HasWorld] in T. rewrite T. unfold s1, after_pass.
    cbn [cworld trace]. rewrite app_assoc. reflexivity.
Qed.

Lemma force_rmtree_removes_tree_witness :
  exists s',
    WindowsFileSystemCleaner._force_rmtree ["tmp"; "d"]%string
      (mkCState zero_stats (quiet_world sample_files))
    = (Ok tt, s')
    /\ stats s' = mkStats 3 1 0 0
    /\ files (cworld s') ["tmp"; "d"]%string = None.
Proof.
  destruct (@force_rmtree_removes_tree
              [("notes.txt"%string, TFile);
               ("sub"%string, TDir [("a"%string, TFile); ("b"%string, TFile)])]
              ["tmp"; "d"]%string
              (mkCState zero_stats (quiet_world sample_files)))
    as (s' & E & Hs & Hg & _).
  - intros ev k. reflexivity.
  - exact sample_files_hold.
  - vm_compute. lia.
  - exists s'. split; [exact E|]. split; [exact Hs|].
    apply Hg. apply postorder_root.
Defined.

(** ** The CLI in an npm directory *)

Section NpmPaths.

Import PlatformCommands.

Variable h : host.

Lemma check_claude_in_path_none (dir : string) :
  _check_claude_in_path h dir = None <-> holds_no_claude h dir.
Proof.
  unfold _check_claude_in_path, holds_no_claude, claude_file_names.
  split.
  - destruct (exists_path h (join_path h dir "claude.ps1")) eqn:E1;
      [discriminate|].
    destruct (exists_path h (join_path h dir "claude.CMD")) eqn:E2;
      [discriminate|].
    destruct (exists_path h (join_path h dir "claude.bat")) eqn:E3;
      [discriminate|].
    intros _ file [<-|[<-|[<-|[]]]]; assumption.
  - intros Hno.
    rewrite (Hno "claude.ps1"%string) by (simpl; auto).
    rewrite (Hno "claude.CMD"%string) by (simpl; auto).
    rewrite (Hno "claude.bat"%string) by (simpl; auto).
    reflexivity.
Qed.

Lemma check_claude_in_path_some (dir : string) (cmd : list string) :
  _check_claude_in_path h dir = Some cmd ->
  exists file,
    In file claude_file_names
    /\ exists_path h (join_path h dir file) = true
    /\ last cmd EmptyString = join_path h dir file
    /\ hd EmptyString cmd
       = (if String.eqb file "claude.ps1" then "powershell.exe"
          else "cmd.exe")%string
    /\ (exists_path h (join_path h dir "claude.ps1") = true ->
        file = "claude.ps1"%string)
    /\ (exists_path h (join_path h dir "claude.ps1") = false ->
        exists_path h (join_path h dir "claude.CMD") = true ->
        file = "claude.CMD"%string)
    /\ (file = "claude.bat"%string ->
        exists_path h (join_path h dir "claude.ps1") = false
        /\ exists_path h (join_path h dir "claude.CMD") = false)
    /\ cmd = (if String.eqb file "claude.ps1"
              then ["powershell.exe"; "-ExecutionPolicy"; "Bypass"; "-File";
                    join_path h dir file]
              else ["cmd.exe"; "/c"; join_path h dir file])%string.
Proof.
  unfold _check_claude_in_path, claude_file_names.
  destruct (exists_path h (join_path h dir "claude.ps1")) eqn:E1.
  { intros E; inversion E; subst. exists "claude.ps1"%string.
    simpl. repeat split; auto; discriminate. }
  destruct (exists_path h (join_path h dir "claude.CMD")) eqn:E2.
  { intros E; inversion E; subst. exists "claude.CMD"%string.
    simpl. repeat split; auto; discriminate. }
  destruct (exists_path h (join_path h dir "claude.bat")) eqn:E3.
  { intros E; inversion E; subst. exists "claude.bat"%string.
    simpl. repeat split; auto; discriminate. }
  discriminate.
Qed.

Lemma check_truthy (dir : string) :
  truthy_cmd (_check_claude_in_path h dir)
  = match _check_claude_in_path h dir with Some _ => true | None => false end.
Proof.
  unfold _check_claude_in_path.
  destruct (exists_path h _); [reflexivity|].
  destruct (exists_path h _); [reflexivity|].
  destruct (exists_path h _); reflexivity.
Qed.

Lemma first_claude_in_spec (paths : list string) :
  match first_claude_in h paths with
  | None =>
      Forall (fun dir => exists_path h dir = false \/ holds_no_claude h dir)
        paths
  | Some cmd =>
      exists before dir after,
        paths = before ++ dir :: after
        /\ Forall (fun d => exists_path h d = false \/ holds_no_claude h d)
             before
        /\ exists_path h dir = true
        /\ _check_claude_in_path h dir = Some cmd
  end.
Proof.
  induction paths as [|dir paths IH]; simpl; [constructor|].
  destruct (exists_path h dir) eqn:Ed.
  - rewrite check_truthy.
    destruct (_check_claude_in_path h dir) as [cmd|] eqn:Ec.
    + exists [], dir, paths. repeat split; auto.
    + apply check_claude_in_path_none in Ec.
      destruct (first_claude_in h paths) as [cmd|].
      * destruct IH as (before & d & after & -> & Hb & Hd & Hc).
        exists (dir :: before), d, after. repeat split; auto.
      * constructor; auto.
  - destruct (first_claude_in h paths) as [cmd|].
    + destruct IH as (before & d & after & -> & Hb & Hd & Hc).
      exists (dir :: before), d, after. repeat split; auto.
    + constructor; auto.
Qed.

End NpmPaths.

(** X22.  [_detect_claude_from_common_paths] answers for the first of
    the common npm directories, in the order of the list, that exists and
    holds a CLI file; there [claude.ps1] is preferred to [claude.CMD], and
    that to [claude.bat]: [claude.CMD] is taken only when there is no
    [claude.ps1], [claude.bat] only when there is neither.  The command it
    returns is [powershell.exe -ExecutionPolicy Bypass -File] before the
    path of the [.ps1] script, and [cmd.exe /c] before the path of the
    other file; that file exists.  It returns [None] exactly when no
    directory of the list qualifies. *)
Theorem claude_in_common_paths (h : host) :
  match PlatformCommands._detect_claude_from_common_paths h with
  | None =>
      Forall (fun dir => exists_path h dir = false \/ holds_no_claude h dir)
        (PlatformCommands.common_npm_paths h)
  | Some cmd =>
      exists before dir after file,
        PlatformCommands.common_npm_paths h = before ++ dir :: after
        /\ Forall (fun d => exists_path h d = false \/ holds_no_claude h d)
             before
        /\ exists_path h dir = true
        /\ In file claude_file_names
        /\ exists_path h (join_path h dir file) = true
        /\ last cmd EmptyString = join_path h dir file
        /\ hd EmptyString cmd
           = (if String.eqb file "claude.ps1" then "powershell.exe"
              else "cmd.exe")%string
        /\ (exists_path h (join_path h dir "claude.ps1") = true ->
            file = "claude.ps1"%string)
        /\ (exists_path h (join_path h dir "claude.ps1") = false ->
            exists_path h (join_path h dir "claude.CMD") = true ->
            file = "claude.CMD"%string)
        /\ (file = "claude.bat"%string ->
            exists_path h (join_path h dir "claude.ps1") = false
            /\ exists_path h (join_path h dir "claude.CMD") = false)
        /\ cmd = (if String.eqb file "claude.ps1"
                  then ["powershell.exe"; "-ExecutionPolicy"; "Bypass";
                        "-File"; join_path h dir file]
                  else ["cmd.exe"; "/c"; join_path h dir file])%string
  end.
Proof.
  unfold PlatformCommands._detect_claude_from_common_paths.
  pose proof (first_claude_in_spec h (PlatformCommands.common_npm_paths h))
    as H.
  destruct (PlatformCommands.first_claude_in h
              (PlatformCommands.common_npm_paths h)) as [cmd|]; [|exact H].
  destruct H as (before & dir & after & Hp & Hb & Hd & Hc).
  destruct (check_claude_in_path_some h dir Hc)
    as (file & Hin & Hex & Hlast & Hhd & Hps & Hcmd & Hbat & Hexact).
  exists before, dir, after, file.
  repeat (split; [assumption|]). exact Hexact.
Qed.

(** On a host whose only npm directory holds both scripts, the PowerShell
    script is taken. *)
Example npm_host_takes_the_ps1_script :
  PlatformCommands._detect_claude_from_common_paths npm_host
  = Some ["powershell.exe"; "-ExecutionPolicy"; "Bypass"; "-File";
          "C:\Program Files\nodejs\claude.ps1"]%string.
Proof. vm_compute. reflexivity. Qed.

(** ** Where a handle creates its directory *)

(** X23.  A [SafeTemporaryDirectory] built with any [suffix],
    [prefix] and [dir] creates its directory in the system's temporary
    root: [dir] is stored and never used.  The name of the directory
    starts with the prefix followed by the suffix (the prefix is [tmp] by
    default; on Windows the whole is cut to 20 characters), so that the
    suffix is not at the end of the name.  The handle then holds the
    path. *)
Theorem entered_directory_location (pa : PlatformAdapter.t)
  (suffix prefix : option string) (dir : option path) (ign : bool)
  (w w1 : world) (d : path) (h1 : SafeTemporaryDirectory.t) :
  SafeTemporaryDirectory.__enter__
    (SafeTemporaryDirectory.__init__ suffix prefix dir ign
       (PlatformAdapter.ops pa), w)
  = (Ok d, (h1, w1)) ->
  (exists rest,
     d = os_path_join Tempfile.gettempdir
           (effective_prefix pa (built_prefix suffix prefix) ++ rest)%string)
  /\ SafeTemporaryDirectory.name h1 = Some d
  /\ SafeTemporaryDirectory.dir h1 = dir
  /\ holds (files w1) d (TDir []).
Proof.
  unfold SafeTemporaryDirectory.__enter__, SafeTemporaryDirectory.__init__,
    SafeTemporaryDirectory.set_name, bind, get_self, set_self, liftW, ret.
  cbn [fst snd SafeTemporaryDirectory.name SafeTemporaryDirectory.prefix
       SafeTemporaryDirectory.platform_adapter ops_create_safe_tempdir
       PlatformAdapter.ops view update pair_HasWorld].
  rewrite adapter_create_is_mkdtemp.
  assert (Hp : (match suffix with
                | Some s =>
                    (match prefix with Some p => p | None => "tmp" end ++ s)
                | None => match prefix with Some p => p | None => "tmp" end
                end)%string = built_prefix suffix prefix).
  { unfold built_prefix. destruct suffix as [sfx|]; [reflexivity|].
    destruct prefix as [pre|]; simpl.
    - induction pre as [|c pre IH]; simpl; [reflexivity|].
      f_equal. exact IH.
    - reflexivity. }
  rewrite Hp.
  destruct (Tempfile.mkdtemp (effective_prefix pa (built_prefix suffix prefix))
              w) as [[d0|e] w0] eqn:E; [|discriminate].
  cbn [fst snd SafeTemporaryDirectory.name SafeTemporaryDirectory.prefix
       SafeTemporaryDirectory.dir SafeTemporaryDirectory.ignore_cleanup_errors
       SafeTemporaryDirectory.platform_adapter].
  intros E1. inversion E1; subst. clear E1.
  destruct (mkdtemp_created _ _ E) as (Hname & _ & Hdir & _).
  split; [exact Hname|]. split; [reflexivity|]. split; [reflexivity|].
  apply holds_dir with (names := []); [exact Hdir|reflexivity| |];
    constructor.
Qed.

Lemma entered_directory_location_witness :
  exists rest,
    fst (SafeTemporaryDirectory.__enter__
           (SafeTemporaryDirectory.__init__ (Some "_end"%string)
              (Some "run_"%string) (Some ["srv"; "scratch"]%string) true
              posix_ops,
            quiet_world empty_tmp))
    = Ok (os_path_join Tempfile.gettempdir ("run__end" ++ rest)%string).
Proof.
  pose (x := SafeTemporaryDirectory.__enter__
               (SafeTemporaryDirectory.__init__ (Some "_end"%string)
                  (Some "run_"%string) (Some ["srv"; "scratch"]%string) true
                  posix_ops,
                quiet_world empty_tmp)).
  destruct (@entered_directory_location PlatformAdapter.posix
              (Some "_end"%string) (Some "run_"%string)
              (Some ["srv"; "scratch"]%string) true (quiet_world empty_tmp)
              (snd (snd x)) ["tmp"; "run__end0"]%string (fst (snd x))
              eq_refl) as ((rest & Hd) & _).
  exists rest.
  change (effective_prefix PlatformAdapter.posix
            (built_prefix (Some "_end"%string) (Some "run_"%string)))
    with "run__end"%string in Hd.
  rewrite <- Hd. reflexivity.
Defined.
